(** * GeoPackage updater: the diff/merge algorithm and the update executor

    A shallow embedding of [allineamento_geopackage_def.py]
    (class [GeoPackageUpdaterAlgorithm]) and the properties of its
    value normaliser, difference engine, classifier and update executor.

    Conventions of the embedding.
    - Python text is held as its UTF-8 bytes in a [string]: a character is
      one to four bytes, and a byte below 128 is a character of ASCII.
      [str.strip] removes the white space of Unicode; of [str.upper] the
      program uses only the comparison of the result with [NULL].
    - Python's [repr] of a text, and what the expression language of QGIS
      makes of the comparison of values that are not both a text, are not
      written out: they are the two parameters of [Runtime].
    - A Python [dict] keyed by text is a [gmap string _]; a Python [set] is a
      [gset string].  A set is iterated in the order of [elements]; Python
      leaves that order unspecified and no statement below depends on it.
    - The QGIS layer, the file system and the clock are the state of a small
      state-and-exception monad; [try ... except Exception] is [try_except].
    - What the storage layer does with a writing call ([shutil.copy2],
      [startEditing], [addFeature], [changeAttributeValue], [changeGeometry],
      [commitChanges], [rollBack], [reload]) is read from a script of
      outcomes in the state, so that a statement about every state is a
      statement about every way these calls can be refused or can raise.
      Reading calls and the feedback sink do not fail, except that every
      call on a layer object that is gone raises. *)

From Stdlib Require Import ZArith String Ascii List Lia Bool.
From Stdlib Require Import Floats.SpecFloat.
From stdpp Require Import base option list gmap strings pretty.

Open Scope string_scope.

(** ** Text: the [str] methods the program uses *)

Module Text.

(** The text with the bytes [l]. *)
Definition bytes (l : list nat) : string :=
  foldr (λ n s, String (ascii_of_nat n) s) EmptyString l.

(** The characters for which [str.isspace()] holds, which are the ones that
    [str.strip()] removes, each as its UTF-8 bytes: TAB, LF, VT, FF, CR, the
    separators FS GS RS US, SPACE; U+0085 and U+00A0; U+1680; U+2000 to
    U+200A; U+2028, U+2029 and U+202F; U+205F; U+3000. *)
Definition white_space : list string :=
  bytes <$> [[9]; [10]; [11]; [12]; [13]; [28]; [29]; [30]; [31]; [32];
             [194; 133]; [194; 160];
             [225; 154; 128];
             [226; 128; 128]; [226; 128; 129]; [226; 128; 130]; [226; 128; 131];
             [226; 128; 132]; [226; 128; 133]; [226; 128; 134]; [226; 128; 135];
             [226; 128; 136]; [226; 128; 137]; [226; 128; 138];
             [226; 128; 168]; [226; 128; 169]; [226; 128; 175];
             [226; 129; 159];
             [227; 128; 128]]%nat.

(** Whether [c] is one white-space character. *)
Definition is_space (c : string) : bool := existsb (String.eqb c) white_space.

(** [str.upper()] on the letters of ASCII, one byte at a time.  The program
    uses [upper] only to compare the result with [NULL]; no character
    outside ASCII has an upper case made of the letters N, U and L alone, so
    that leaving the other bytes as they are gives that comparison the
    result it has in Python.  (The reading of the keywords of the host,
    further down, uses it on ASCII letters.) *)
Definition upper_char (c : ascii) : ascii :=
  let n := nat_of_ascii c in
  if ((97 <=? n) && (n <=? 122))%nat then ascii_of_nat (n - 32) else c.

Fixpoint upper (s : string) : string :=
  match s with
  | EmptyString => EmptyString
  | String c s' => String (upper_char c) (upper s')
  end.

(** The rest of [s] after the white-space character that [s] starts with,
    when it starts with one; a white-space character takes one, two or
    three bytes. *)
Definition after_space (s : string) : option string :=
  match s with
  | EmptyString => None
  | String a s1 =>
      if is_space (String a EmptyString) then Some s1
      else match s1 with
           | EmptyString => None
           | String b s2 =>
               if is_space (String a (String b EmptyString)) then Some s2
               else match s2 with
                    | EmptyString => None
                    | String c s3 =>
                        if is_space (String a (String b (String c EmptyString)))
                        then Some s3 else None
                    end
           end
  end.

(** [s.lstrip()]: the white-space characters that [s] starts with are
    removed, one after the other. *)
Fixpoint lstrip (s : string) : string :=
  match s with
  | EmptyString => EmptyString
  | String a s1 =>
      if is_space (String a EmptyString) then lstrip s1
      else match s1 with
           | EmptyString => s
           | String b s2 =>
               if is_space (String a (String b EmptyString)) then lstrip s2
               else match s2 with
                    | EmptyString => s
                    | String c s3 =>
                        if is_space (String a (String b (String c EmptyString)))
                        then lstrip s3 else s
                    end
           end
  end.

(** [s.rstrip()], from the end of [s]: what is left of [s] is what is left
    of its tail with the first byte before it, unless that is one
    white-space character, which is removed too. *)
Fixpoint rstrip (s : string) : string :=
  match s with
  | EmptyString => EmptyString
  | String a s1 =>
      let r := String a (rstrip s1) in
      if is_space r then EmptyString else r
  end.

(** [s.strip()] *)
Definition strip (s : string) : string := rstrip (lstrip s).

(** [c in s] for a one-character [c]. *)
Fixpoint contains (c : ascii) (s : string) : bool :=
  match s with
  | EmptyString => false
  | String d s' => if Ascii.eqb c d then true else contains c s'
  end.

(** [s.split(sep)] for a one-character separator; never the empty list. *)
Fixpoint split (sep : ascii) (s : string) : list string :=
  match s with
  | EmptyString => [EmptyString]
  | String c s' =>
      if Ascii.eqb c sep then EmptyString :: split sep s'
      else match split sep s' with
           | h :: t => String c h :: t
           | [] => [String c EmptyString]
           end
  end.


(** [s.endswith(suffix)] *)
Fixpoint endswith (s suffix : string) : bool :=
  if String.eqb s suffix then true
  else match s with
       | EmptyString => false
       | String _ s' => endswith s' suffix
       end.

(** [s.startswith(p)] *)
Definition startswith (s p : string) : bool := String.prefix p s.

(** [sep.join(l)] *)
Definition join (sep : string) (l : list string) : string := String.concat sep l.

(** [s[-1]], when [s] is not empty. *)
Fixpoint last_char (s : string) : option ascii :=
  match s with
  | EmptyString => None
  | String c s' => match last_char s' with None => Some c | r => r end
  end.

End Text.

(** ** Values held by the attributes of a feature *)

(** The Python objects an attribute can be.  [PyBool] is apart from [PyInt]
    because [str(True)] is not [str(1)], although [True == 1].  A float is
    its IEEE-754 value together with the text [str] prints for it.  Every
    other object (the QGIS [NULL], a [QDate], ...) takes part in the program
    only through [str], so it is known by that text. *)
Inductive pyvalue : Type :=
| PyNone
| PyStr (s : string)
| PyBool (b : bool)
| PyInt (n : Z)
| PyFloat (x : spec_float) (repr : string)
| PyObj (repr : string).

#[global] Instance pyvalue_inhabited : Inhabited pyvalue := populate PyNone.

(** [str(v)], also what an f-string writes for [{v}]. *)
Definition py_str (v : pyvalue) : string :=
  match v with
  | PyNone => "None"
  | PyStr s => s
  | PyBool b => if b then "True" else "False"
  | PyInt n => pretty n
  | PyFloat _ repr => repr
  | PyObj repr => repr
  end.

(** Exact comparison of an [int] with a [float], as Python does it. *)
Definition Z_eq_float (z : Z) (x : spec_float) : bool :=
  match x with
  | S754_zero _ => (z =? 0)%Z
  | S754_finite s m e =>
      let v := if s then Z.neg m else Z.pos m in
      if (0 <=? e)%Z then (z =? v * 2 ^ e)%Z else (z * 2 ^ (- e) =? v)%Z
  | S754_infinity _ | S754_nan => false
  end.

Definition Z_of_bool (b : bool) : Z := if b then 1%Z else 0%Z.

(** [a == b] on Python values. *)
Definition py_eq (a b : pyvalue) : bool :=
  match a, b with
  | PyNone, PyNone => true
  | PyStr s, PyStr t => String.eqb s t
  | PyObj s, PyObj t => String.eqb s t
  | PyBool x, PyBool y => Bool.eqb x y
  | PyBool x, PyInt n | PyInt n, PyBool x => (Z_of_bool x =? n)%Z
  | PyInt n, PyInt k => (n =? k)%Z
  | PyBool x, PyFloat f _ | PyFloat f _, PyBool x => Z_eq_float (Z_of_bool x) f
  | PyInt n, PyFloat f _ | PyFloat f _, PyInt n => Z_eq_float n f
  | PyFloat f _, PyFloat g _ => SFeqb f g
  | _, _ => false
  end.

(** [a != b] *)
Definition py_ne (a b : pyvalue) : bool := negb (py_eq a b).

(** ** Value Normalizer: [normalize_value] *)

Definition normalize_value (value : pyvalue) : pyvalue :=
  match value with
  | PyNone => PyNone
  | PyStr s =>
      if String.eqb s "" || String.eqb (Text.upper s) "NULL" then PyNone
      else PyStr (Text.strip s)
  | PyBool _ | PyInt _ | PyFloat _ _ => value
  | PyObj repr =>
      let str_value := Text.strip repr in
      if String.eqb str_value "" || String.eqb (Text.upper str_value) "NULL"
      then PyNone
      else PyStr str_value
  end.

(** The rule of the specification for text, in the specification's words:
    trim first, then map the empty text and NULL (in any case) to null. *)
Definition normalize_text_spec (s : string) : pyvalue :=
  let t := Text.strip s in
  if String.eqb t "" || String.eqb (Text.upper t) "NULL" then PyNone else PyStr t.

(** ** Geometry: the interface the program uses of [QgsGeometry] *)

(** A geometry of type [G] is a non-null [QgsGeometry]; the null geometry,
    which Python takes as false, is [None] in [geometry] below. *)
Class Geometry (G : Type) : Type := {
  isGeosValid : G → bool;
  equals : G → G → bool
}.

(** An instance to run the program on: a geometry is a list of vertices, it
    is valid when it has one, and equality is that of the lists. *)
Definition vertex_equal (p q : Z * Z) : bool :=
  (p.1 =? q.1)%Z && (p.2 =? q.2)%Z.

Fixpoint vertices_equal (a b : list (Z * Z)) : bool :=
  match a, b with
  | [], [] => true
  | p :: a', q :: b' => vertex_equal p q && vertices_equal a' b'
  | _, _ => false
  end.

#[global] Instance vertices_geometry : Geometry (list (Z * Z)) := {
  isGeosValid g := match g with [] => false | _ => true end;
  equals := vertices_equal
}.

(** ** Records (features) *)

Section Features.
Context {G : Type} `{!Geometry G}.

(** A [QgsFeature]: its id, its attributes in schema order under their
    field names, and its geometry. *)
Record feature : Type := Feature {
  id : Z;
  attributes : list (string * pyvalue);
  geometry : option G
}.

#[global] Instance feature_inhabited : Inhabited feature :=
  populate (Feature 0 [] None).

(** [feature.fields().names()] *)
Definition names (f : feature) : list string := (attributes f).*1.

(** [name in names], on a list of texts. *)
Definition name_in (name : string) (l : list string) : bool :=
  existsb (String.eqb name) l.

Fixpoint assoc (name : string) (l : list (string * pyvalue)) : option pyvalue :=
  match l with
  | [] => None
  | (n, v) :: l' => if String.eqb name n then Some v else assoc name l'
  end.

(** [feature[name]]: [None] stands for the [KeyError] of an unknown name. *)
Definition getitem (f : feature) (name : string) : option pyvalue :=
  assoc name (attributes f).

Fixpoint assoc_set (name : string) (v : pyvalue) (l : list (string * pyvalue))
  : list (string * pyvalue) :=
  match l with
  | [] => []
  | (n, w) :: l' =>
      if String.eqb name n then (n, v) :: l' else (n, w) :: assoc_set name v l'
  end.

(** [feature[name] = v] *)
Definition setitem (f : feature) (name : string) (v : pyvalue) : feature :=
  Feature (id f) (assoc_set name v (attributes f)) (geometry f).

(** ** Difference Engine: [compare_features] *)

(** The line appended for a field whose normalised values differ. *)
Definition difference_line (field_name : string) (shared_value user_value : pyvalue)
  : string :=
  field_name +:+ ": '" +:+ py_str shared_value +:+ "' → '"
             +:+ py_str user_value +:+ "'".

Definition geometry_marker : string := "geometry: modificata".

(** One turn of the loop over [shared_feat.fields()].  The two [None]
    branches are the [KeyError]s of the two lookups; [getitem_name_in]
    shows that the loop never reaches them. *)
Definition compare_field (shared_feat user_feat : feature) (key_field : string)
    (field_name : string) : list string :=
  if String.eqb field_name key_field then []
  else if negb (name_in field_name (names user_feat)) then []
  else match getitem shared_feat field_name, getitem user_feat field_name with
       | Some shared_value, Some user_value =>
           let shared_normalized := normalize_value shared_value in
           let user_normalized := normalize_value user_value in
           if py_ne shared_normalized user_normalized
           then [difference_line field_name shared_value user_value]
           else []
       | _, _ => []
       end.

(** The test that guards the geometry marker. *)
Definition geometry_differs (shared_geom user_geom : option G) : bool :=
  match shared_geom, user_geom with
  | Some sg, Some ug => isGeosValid sg && isGeosValid ug && negb (equals sg ug)
  | _, _ => false
  end.

Definition compare_features (shared_feat user_feat : feature) (key_field : string)
  : list string :=
  let differences :=
    flat_map (compare_field shared_feat user_feat key_field) (names shared_feat) in
  let shared_geom := geometry shared_feat in
  let user_geom := geometry user_feat in
  if geometry_differs shared_geom user_geom
  then (differences ++ [geometry_marker])%list
  else differences.

(** ** Classifier: the set operations of [analyze_differences] *)

(** An element of [modified_features]: the dict with the keys
    ['feature'], ['key'] and ['differences']. *)
Record modified_entry : Type := ModifiedEntry {
  m_feature : feature;
  m_key : string;
  m_differences : list string
}.

Section Classifier.
Variables shared_features user_features : gmap string feature.
Variable key_field : string.

Definition new_keys : list string :=
  elements (dom user_features ∖ dom shared_features).

Definition new_features : list feature :=
  (λ key, user_features !!! key) <$> new_keys.

Definition common_keys : list string :=
  elements (dom shared_features ∩ dom user_features).

(** One turn of the loop over [common_keys]. *)
Definition classify_key (key : string) : list modified_entry :=
  let shared_feat := shared_features !!! key in
  let user_feat := user_features !!! key in
  let differences := compare_features shared_feat user_feat key_field in
  match differences with
  | [] => []
  | _ => [ModifiedEntry user_feat key differences]
  end.

Definition modified_features : list modified_entry :=
  flat_map classify_key common_keys.
End Classifier.

End Features.

Arguments feature G : clear implicits.
Arguments modified_entry G : clear implicits.

(** ** What is taken from the interpreter and from the host as given

    Two functions that the program relies on are not in its source and are
    not written out here; every statement below holds whatever they are.
    - [py_repr s] is Python's [repr(s)] of a text: the text between quotes,
      with its escapes.  Which quote is used and what is escaped depends on
      the text, and for the characters outside ASCII on the Unicode tables
      of the interpreter.  [str(e)] of a [KeyError] and of an [OSError] is
      made with it.
    - [host_equal a b] is what the expression language of QGIS makes of
      [a = b] for two values that are not null and not both a text: a number,
      a boolean or a date against a text or against each other. *)
Class Runtime : Type := {
  py_repr : string → string;
  host_equal : pyvalue → pyvalue → bool
}.

(** ** The filter expressions of the host

    [QgsFeatureRequest().setFilterExpression(text)] hands [text] to the
    expression language of QGIS.  The part of that language that the text
    built by the program can fall into is modelled here: column references in
    double quotes, string literals in single quotes, [=], [AND] and [OR].
    In a string literal two single quotes stand for one, and a backslash
    escapes the character after it ([\n], [\t], [\\], [\'], any other
    escaped character reads as [?]); a quoted column name is not empty, and
    two double quotes stand for one in it.  A text outside this part has no reading here
    ([None]) and then selects no record.  Of the comparison [=] two cases
    are written out: it holds for no null value, and two texts are equal
    when they are the same text; every other comparison is [host_equal]. *)

Module Expr.

Inductive token : Type :=
| TColumn (name : string)
| TString (s : string)
| TEq
| TAnd
| TOr.

Inductive operand : Type :=
| Column (name : string)
| Literal (s : string).

(** [a = b] *)
Definition comparison : Type := operand * operand.

(** Without parentheses an expression is a disjunction of conjunctions of
    comparisons, [AND] binding tighter than [OR]. *)
Definition expr : Type := list (list comparison).

(** The states of the lexer. *)
Inductive mode : Type :=
| Start
| InStr (acc : string)        (* inside '...' *)
| InStrEsc (acc : string)     (* after a backslash inside '...' *)
| InStrQuote (acc : string)   (* after a quote inside '...': doubled, or the end *)
| InCol (acc : string)        (* inside "..." *)
| InColQuote (acc : string)   (* after a double quote inside "..." *)
| InWord (acc : string).      (* inside a bare word *)

Definition snoc (acc : string) (c : ascii) : string := acc +:+ String c "".

(** The double quote character. *)
Definition dquote : ascii := "034".

Definition is_white (c : ascii) : bool :=
  let n := nat_of_ascii c in
  ((n =? 32) || (n =? 9) || (n =? 10) || (n =? 13))%nat.

Definition is_letter (c : ascii) : bool :=
  let n := nat_of_ascii c in
  (((65 <=? n) && (n <=? 90)) || ((97 <=? n) && (n <=? 122)))%nat.

(** The character an escape [\c] stands for. *)
Definition unescape (c : ascii) : ascii :=
  if Ascii.eqb c "n" then "010"
  else if Ascii.eqb c "t" then "009"
  else if Ascii.eqb c "\" then "\"
  else if Ascii.eqb c "'" then "'"
  else "?".

(** A bare word: only the two keywords are in the modelled part. *)
Definition word (w : string) : option token :=
  if String.eqb (Text.upper w) "OR" then Some TOr
  else if String.eqb (Text.upper w) "AND" then Some TAnd
  else None.

(** Reading [c] with no token under way. *)
Definition from_start (c : ascii) : option (list token * mode) :=
  if is_white c then Some ([], Start)
  else if Ascii.eqb c "'" then Some ([], InStr "")
  else if Ascii.eqb c dquote then Some ([], InCol "")
  else if Ascii.eqb c "=" then Some ([TEq], Start)
  else if is_letter c then Some ([], InWord (String c ""))
  else None.

(** A column name between double quotes is not empty. *)
Definition column (name : string) : option token :=
  if String.eqb name "" then None else Some (TColumn name).

(** At the end of the text. *)
Definition finish (m : mode) : option (list token) :=
  match m with
  | Start => Some []
  | InStrQuote acc => Some [TString acc]
  | InColQuote acc => t ← column acc; Some [t]
  | InWord acc => t ← word acc; Some [t]
  | InStr _ | InStrEsc _ | InCol _ => None
  end.

Fixpoint scan (m : mode) (text : string) : option (list token) :=
  match text with
  | EmptyString => finish m
  | String c text' =>
      match m with
      | Start =>
          '(toks, m') ← from_start c;
          rest ← scan m' text'; Some (toks ++ rest)%list
      | InStr acc =>
          if Ascii.eqb c "'" then scan (InStrQuote acc) text'
          else if Ascii.eqb c "\" then scan (InStrEsc acc) text'
          else scan (InStr (snoc acc c)) text'
      | InStrEsc acc =>
          if Ascii.eqb c "010" then None
          else scan (InStr (snoc acc (unescape c))) text'
      | InStrQuote acc =>
          if Ascii.eqb c "'" then scan (InStr (snoc acc "'")) text'
          else '(toks, m') ← from_start c;
               rest ← scan m' text'; Some (TString acc :: toks ++ rest)%list
      | InCol acc =>
          if Ascii.eqb c dquote then scan (InColQuote acc) text'
          else scan (InCol (snoc acc c)) text'
      | InColQuote acc =>
          if Ascii.eqb c dquote then scan (InCol (snoc acc dquote)) text'
          else t ← column acc;
               '(toks, m') ← from_start c;
               rest ← scan m' text'; Some (t :: toks ++ rest)%list
      | InWord acc =>
          if is_letter c then scan (InWord (snoc acc c)) text'
          else t ← word acc;
               '(toks, m') ← from_start c;
               rest ← scan m' text'; Some (t :: toks ++ rest)%list
      end
  end.

Definition lex (text : string) : option (list token) := scan Start text.

Definition is_or (t : token) : bool := match t with TOr => true | _ => false end.
Definition is_and (t : token) : bool := match t with TAnd => true | _ => false end.

(** The runs of tokens between the separators [sep]. *)
Fixpoint chunks (sep : token → bool) (toks : list token) : list (list token) :=
  match toks with
  | [] => [[]]
  | t :: toks' =>
      if sep t then [] :: chunks sep toks'
      else match chunks sep toks' with
           | h :: r => (t :: h) :: r
           | [] => [[t]]
           end
  end.

Definition parse_operand (t : token) : option operand :=
  match t with
  | TColumn n => Some (Column n)
  | TString s => Some (Literal s)
  | _ => None
  end.

Definition parse_comparison (toks : list token) : option comparison :=
  match toks with
  | [a; TEq; b] => x ← parse_operand a; y ← parse_operand b; Some (x, y)
  | _ => None
  end.

Definition parse_conjunction (toks : list token) : option (list comparison) :=
  mapM parse_comparison (chunks is_and toks).

Definition parse_tokens (toks : list token) : option expr :=
  mapM parse_conjunction (chunks is_or toks).

(** [QgsExpression(text)] *)
Definition parse (text : string) : option expr :=
  toks ← lex text; parse_tokens toks.

(** The null values: [None] and the [NULL] of QGIS, which is known by the
    text that [str] gives for it. *)
Definition is_null (v : pyvalue) : bool :=
  match v with
  | PyNone => true
  | PyObj repr => String.eqb repr "NULL"
  | _ => false
  end.

Section Eval.
Context {G : Type} `{!Geometry G} {runtime : Runtime}.

(** The value of an operand on a record; a column that the record does not
    have has none. *)
Definition eval_operand (f : feature G) (o : operand) : option pyvalue :=
  match o with
  | Column n => getitem f n
  | Literal s => Some (PyStr s)
  end.

(** [a = b] on two values. *)
Definition values_equal (a b : pyvalue) : bool :=
  if is_null a || is_null b then false
  else match a, b with
       | PyStr s, PyStr t => String.eqb s t
       | _, _ => host_equal a b
       end.

(** [a = b] holds when both sides have a value and the values are equal. *)
Definition eval_comparison (f : feature G) (c : comparison) : bool :=
  match eval_operand f c.1, eval_operand f c.2 with
  | Some x, Some y => values_equal x y
  | _, _ => false
  end.

Definition eval (e : expr) (f : feature G) : bool :=
  existsb (forallb (eval_comparison f)) e.

(** Whether the request with filter [text] selects [f]. *)
Definition selects (text : string) (f : feature G) : bool :=
  match parse text with
  | Some e => eval e f
  | None => false
  end.
End Eval.

End Expr.

(** ** The host: layers, files, clock and feedback *)

(** The exceptions of the run; all of them derive from [Exception]. *)
Inductive exn : Type :=
| QgsProcessingException (msg : string)
| KeyError (key : string)
| RuntimeError (msg : string)
| OSError (msg : string)
| HostError (msg : string).

(** [str(e)]: the message of the exception, and for [KeyError(key)] the
    [repr] of the key. *)
Definition exn_str `{!Runtime} (e : exn) : string :=
  match e with
  | KeyError key => py_repr key
  | QgsProcessingException msg | RuntimeError msg
  | OSError msg | HostError msg => msg
  end.

(** What the storage layer makes of one writing call: it carries the call
    out, it refuses it (the call answers [False]; a refused commit reports
    these messages), or it raises. *)
Inductive outcome : Type :=
| Ok
| Refused (errors : list string)
| Raises (e : exn).

(** [datetime.now()] *)
Record timestamp : Type := Timestamp {
  year : nat; month : nat; day : nat; hour : nat; minute : nat; second : nat
}.

Definition pad2 (n : nat) : string :=
  if (n <? 10)%nat then "0" +:+ pretty n else pretty n.

(** [strftime('%Y-%m-%d %H:%M:%S')] *)
Definition strftime_report (t : timestamp) : string :=
  pretty (year t) +:+ "-" +:+ pad2 (month t) +:+ "-" +:+ pad2 (day t) +:+ " "
    +:+ pad2 (hour t) +:+ ":" +:+ pad2 (minute t) +:+ ":" +:+ pad2 (second t).

(** [strftime('%Y%m%d_%H%M%S')] *)
Definition strftime_backup (t : timestamp) : string :=
  pretty (year t) +:+ pad2 (month t) +:+ pad2 (day t) +:+ "_"
    +:+ pad2 (hour t) +:+ pad2 (minute t) +:+ pad2 (second t).

Section Host.
Context {G : Type} `{!Geometry G}.

(** A [QgsVectorLayer].  [rows] is what the provider has stored;
    [edit_buffer] is [Some] while the layer is in edit mode and then holds
    the rows as edited so far. *)
Record layer : Type := Layer {
  source : string;
  fields : list string;
  rows : list (feature G);
  edit_buffer : option (list (feature G));
  commit_errors : list string
}.

(** The state a run works on.  A layer object is reached through its
    handle, so that the program and the host share it; the content of a
    container file is the rows stored in it; [script] holds the outcomes of
    the writing calls to come, in order (an exhausted script answers [Ok]);
    [pushed] and [progress] are the feedback sink. *)
Record world : Type := World {
  layers : gmap nat layer;
  files : gmap string (list (feature G));
  clock : timestamp;
  script : list outcome;
  pushed : list string;
  progress : Z
}.

Definition set_layers (ls : gmap nat layer) (w : world) : world :=
  World ls (files w) (clock w) (script w) (pushed w) (progress w).
Definition set_files (fs : gmap string (list (feature G))) (w : world) : world :=
  World (layers w) fs (clock w) (script w) (pushed w) (progress w).
Definition set_script (s : list outcome) (w : world) : world :=
  World (layers w) (files w) (clock w) s (pushed w) (progress w).
Definition set_pushed (p : list string) (w : world) : world :=
  World (layers w) (files w) (clock w) (script w) p (progress w).
Definition set_progress (p : Z) (w : world) : world :=
  World (layers w) (files w) (clock w) (script w) (pushed w) p.

Definition set_edit_buffer (b : option (list (feature G))) (l : layer) : layer :=
  Layer (source l) (fields l) (rows l) b (commit_errors l).
Definition set_rows (r : list (feature G)) (l : layer) : layer :=
  Layer (source l) (fields l) r (edit_buffer l) (commit_errors l).
Definition set_commit_errors (e : list string) (l : layer) : layer :=
  Layer (source l) (fields l) (rows l) (edit_buffer l) e.

(** *** The monad of the run: state and exceptions *)

Definition M (A : Type) : Type := world → (exn + A) * world.

Definition ret {A} (a : A) : M A := λ w, (inr a, w).

Definition bind {A B} (m : M A) (k : A → M B) : M B :=
  λ w, match m w with
       | (inr a, w') => k a w'
       | (inl e, w') => (inl e, w')
       end.

(** [raise e] *)
Definition raise {A} (e : exn) : M A := λ w, (inl e, w).

(** [try: body except Exception as e: handler(e)] *)
Definition try_except {A} (body : M A) (handler : exn → M A) : M A :=
  λ w, match body w with
       | (inr a, w') => (inr a, w')
       | (inl e, w') => handler e w'
       end.

Definition gets {A} (f : world → A) : M A := λ w, (inr (f w), w).
Definition modify (f : world → world) : M unit := λ w, (inr tt, f w).

End Host.

Arguments layer G : clear implicits.
Arguments world G : clear implicits.
Arguments M G A : clear implicits.

Declare Scope run_scope.
Delimit Scope run_scope with run.
Notation "x <- m ;; k" := (bind m (λ x, k))
  (at level 100, m at next level, right associativity) : run_scope.
Notation "m ;; k" := (bind m (λ _, k))
  (at level 100, right associativity) : run_scope.

Section Program.
Context {G : Type} `{!Geometry G} {runtime : Runtime}.
Local Open Scope run_scope.

Local Abbreviation layer := (layer G).
Local Abbreviation world := (world G).
Local Abbreviation record := (feature G).

(** *** Calls of the host *)

(** A call through a handle whose layer object is gone raises. *)
Definition deleted_layer : exn :=
  RuntimeError "wrapped C/C++ object of type QgsVectorLayer has been deleted".

Definition get_layer (h : nat) : M G layer :=
  λ w, match layers w !! h with
       | Some l => (inr l, w)
       | None => (inl deleted_layer, w)
       end.

Definition put_layer (h : nat) (l : layer) : M G unit :=
  modify (λ w, set_layers (<[h := l]> (layers w)) w).

(** The next outcome of the script. *)
Definition next_outcome : M G outcome :=
  λ w, match script w with
       | [] => (inr Ok, w)
       | o :: s => (inr o, set_script s w)
       end.

(** A writing call asks the storage layer: [None] when it goes ahead,
    [Some errors] when it is refused; a raised exception propagates. *)
Definition storage_call : M G (option (list string)) :=
  o <- next_outcome ;;
  match o with
  | Ok => ret None
  | Refused errors => ret (Some errors)
  | Raises e => raise e
  end.

(** [feedback.pushInfo(msg)] and [feedback.setProgress(p)] *)
Definition pushInfo (msg : string) : M G unit :=
  modify (λ w, set_pushed (pushed w ++ [msg])%list w).
Definition setProgress (p : Z) : M G unit := modify (set_progress p).

(** [datetime.now()] *)
Definition datetime_now : M G timestamp := gets clock.

(** [os.path.exists(path)] *)
Definition path_exists (path : string) : M G bool :=
  gets (λ w, bool_decide (is_Some (files w !! path))).

(** [shutil.copy2(src, dst)].  The call reports no status: a refusal in the
    script counts as [Ok]. *)
Definition copy2 (src dst : string) : M G unit :=
  _ <- storage_call ;;
  fs <- gets files ;;
  match fs !! src with
  | Some content => modify (λ w, set_files (<[dst := content]> (files w)) w)
  | None => raise (OSError ("[Errno 2] No such file or directory: " +:+ py_repr src))
  end.

(** The rows a reader of the layer sees. *)
Definition current_rows (l : layer) : list record :=
  match edit_buffer l with
  | Some buffer => buffer
  | None => rows l
  end.

(** [layer.source()], [layer.fields()] (the names), [layer.isEditable()],
    [layer.commitErrors()], [layer.getFeatures()] *)
Definition layer_source (h : nat) : M G string := l <- get_layer h ;; ret (source l).
Definition layer_fields (h : nat) : M G (list string) := l <- get_layer h ;; ret (fields l).
Definition isEditable (h : nat) : M G bool :=
  l <- get_layer h ;; ret (bool_decide (is_Some (edit_buffer l))).
Definition commitErrors (h : nat) : M G (list string) :=
  l <- get_layer h ;; ret (commit_errors l).
Definition getFeatures (h : nat) : M G (list record) :=
  l <- get_layer h ;; ret (current_rows l).

(** [list(layer.getFeatures(QgsFeatureRequest().setFilterExpression(text)))] *)
Definition getFeatures_filtered (h : nat) (text : string) : M G (list record) :=
  l <- get_layer h ;; ret (List.filter (Expr.selects text) (current_rows l)).

(** The part of a data source before its first ['|']. *)
Definition file_path_of (source : string) : string :=
  if Text.contains "|" source then hd "" (Text.split "|" source) else source.

(** [layer.startEditing()] *)
Definition startEditing (h : nat) : M G bool :=
  l <- get_layer h ;;
  refused <- storage_call ;;
  match refused, edit_buffer l with
  | None, None => put_layer h (set_edit_buffer (Some (rows l)) l) ;; ret true
  | _, _ => ret false
  end.

(** [layer.commitChanges()]: all of the buffer is stored, or none of it.
    The rows go to the provider and, when the data source is a file that
    exists, to that file. *)
Definition commitChanges (h : nat) : M G bool :=
  l <- get_layer h ;;
  refused <- storage_call ;;
  match refused, edit_buffer l with
  | Some errors, _ => put_layer h (set_commit_errors errors l) ;; ret false
  | None, None =>
      put_layer h (set_commit_errors ["ERROR: layer not editable"] l) ;; ret false
  | None, Some buffer =>
      put_layer h (set_commit_errors [] (set_edit_buffer None (set_rows buffer l))) ;;
      modify (λ w, set_files (alter (λ _, buffer) (file_path_of (source l)) (files w)) w) ;;
      ret true
  end.

(** [layer.rollBack()] *)
Definition rollBack (h : nat) : M G bool :=
  l <- get_layer h ;;
  refused <- storage_call ;;
  match refused, edit_buffer l with
  | None, Some _ => put_layer h (set_edit_buffer None l) ;; ret true
  | _, _ => ret false
  end.

(** [layer.reload()]; as for [copy2], a refusal counts as [Ok]. *)
Definition reload (h : nat) : M G unit :=
  _ <- get_layer h ;; _ <- storage_call ;; ret tt.

(** An added feature gets a fresh negative id in the buffer.  The number
    that the provider gives it on commit is not modelled: the row keeps the
    id of the buffer. *)
Definition fresh_id (buffer : list record) : Z :=
  (foldr Z.min 0 (id <$> buffer) - 1)%Z.

(** [layer.addFeature(f)] *)
Definition addFeature (h : nat) (f : record) : M G bool :=
  l <- get_layer h ;;
  refused <- storage_call ;;
  match refused, edit_buffer l with
  | None, Some buffer =>
      let f' := Feature (fresh_id buffer) (attributes f) (geometry f) in
      put_layer h (set_edit_buffer (Some (buffer ++ [f'])%list) l) ;; ret true
  | _, _ => ret false
  end.

Definition has_id (fid : Z) (f : record) : bool := (id f =? fid)%Z.

(** [layer.changeAttributeValue(fid, i, v)] *)
Definition changeAttributeValue (h : nat) (fid : Z) (i : nat) (v : pyvalue) : M G bool :=
  l <- get_layer h ;;
  refused <- storage_call ;;
  match refused, edit_buffer l with
  | None, Some buffer =>
      if existsb (has_id fid) buffer && (i <? length (fields l))%nat then
        let change f :=
          if has_id fid f
          then Feature (id f) (alter (λ p, (p.1, v)) i (attributes f)) (geometry f)
          else f in
        put_layer h (set_edit_buffer (Some (change <$> buffer)) l) ;; ret true
      else ret false
  | _, _ => ret false
  end.

(** [layer.changeGeometry(fid, g)] *)
Definition changeGeometry (h : nat) (fid : Z) (g : G) : M G bool :=
  l <- get_layer h ;;
  refused <- storage_call ;;
  match refused, edit_buffer l with
  | None, Some buffer =>
      if existsb (has_id fid) buffer then
        let change f :=
          if has_id fid f then Feature (id f) (attributes f) (Some g) else f in
        put_layer h (set_edit_buffer (Some (change <$> buffer)) l) ;; ret true
      else ret false
  | _, _ => ret false
  end.

(** [feature[name]] where an unknown name raises [KeyError(name)]. *)
Definition feature_get (f : record) (name : string) : M G pyvalue :=
  match getitem f name with
  | Some v => ret v
  | None => raise (KeyError name)
  end.

(** [for x in l: body(x)] *)
Fixpoint for_each {A} (l : list A) (body : A → M G unit) : M G unit :=
  match l with
  | [] => ret tt
  | x :: l' => body x ;; for_each l' body
  end.

(** A loop that appends lines to a list. *)
Fixpoint for_lines {A} (l : list A) (body : A → M G (list string)) : M G (list string) :=
  match l with
  | [] => ret []
  | x :: l' => a <- body x ;; b <- for_lines l' body ;; ret (a ++ b)%list
  end.

(** *** Feature Indexer and [analyze_differences] *)

(** The loop [for feature in layer.getFeatures(): d[str(feature[key_field])] = feature],
    a later feature replacing an earlier one under the same key. *)
Fixpoint index_features (features : list record) (key_field : string)
    (d : gmap string record) : M G (gmap string record) :=
  match features with
  | [] => ret d
  | feature :: features' =>
      v <- feature_get feature key_field ;;
      let key_value := py_str v in
      index_features features' key_field (<[key_value := feature]> d)
  end.

(** The line feed. *)
Definition nl : string := String "010" "".

(** [l[:n]] *)
Definition slice_to {A} (n : nat) (l : list A) : list A := take n l.

(** [if l:] *)
Definition nonempty {A} (l : list A) : bool :=
  match l with [] => false | _ => true end.

(** The lines of [generate_report] for one modified entry. *)
Definition report_modified (key_field : string) (mod_feat : modified_entry G)
  : list string :=
  let differences := m_differences mod_feat in
  (["  - " +:+ key_field +:+ ": " +:+ m_key mod_feat]
   ++ ((λ diff, "    " +:+ diff) <$> slice_to 5 differences)
   ++ (if (5 <? length differences)%nat
       then ["    ... e altre " +:+ pretty (length differences - 5)%nat +:+ " differenze"]
       else [])
   ++ [""])%list.

Definition generate_report (new_features : list record)
    (modified_features : list (modified_entry G)) (key_field : string) : M G string :=
  now <- datetime_now ;;
  let header :=
    ["=== RAPPORTO AGGIORNAMENTO GEOPACKAGE ===";
     "Data/Ora: " +:+ strftime_report now;
     "Campo chiave utilizzato: " +:+ key_field;
     ""] in
  new_part <-
    (if nonempty new_features then
       shown <- for_lines (slice_to 10 new_features) (λ feature,
                  key_value <- feature_get feature key_field ;;
                  ret ["  - " +:+ key_field +:+ ": " +:+ py_str key_value]) ;;
       ret (["🆕 NUOVI RECORD DA INSERIRE: " +:+ pretty (length new_features)]
            ++ shown
            ++ (if (10 <? length new_features)%nat
                then ["  ... e altri " +:+ pretty (length new_features - 10)%nat +:+ " record"]
                else [])
            ++ [""])%list
     else ret []) ;;
  let modified_part :=
    if nonempty modified_features then
      (["✏️ RECORD MODIFICATI: " +:+ pretty (length modified_features)]
       ++ flat_map (report_modified key_field) (slice_to 10 modified_features)
       ++ (if (10 <? length modified_features)%nat
           then ["  ... e altri " +:+ pretty (length modified_features - 10)%nat
                 +:+ " record modificati"]
           else []))%list
    else [] in
  let synced :=
    if negb (nonempty new_features) && negb (nonempty modified_features)
    then ["✅ NESSUNA DIFFERENZA TROVATA"; "I layer sono già sincronizzati."]
    else [] in
  ret (Text.join nl (header ++ new_part ++ modified_part ++ synced)%list).

Definition analyze_differences (shared_layer user_layer : nat) (key_field : string)
  : M G (list record * list (modified_entry G) * string) :=
  setProgress 10 ;;
  shared_rows <- getFeatures shared_layer ;;
  shared_features <- index_features shared_rows key_field ∅ ;;
  setProgress 30 ;;
  user_rows <- getFeatures user_layer ;;
  user_features <- index_features user_rows key_field ∅ ;;
  setProgress 50 ;;
  let new := new_features shared_features user_features in
  setProgress 70 ;;
  let modified := modified_features shared_features user_features key_field in
  setProgress 90 ;;
  report <- generate_report new modified key_field ;;
  setProgress 100 ;;
  ret (new, modified, report).

(** *** Update Executor: [update_with_qgis_api_only] *)

(** The value of an attribute that was never set. *)
Definition NULL : pyvalue := PyObj "NULL".

(** [QgsFeature(fields)] *)
Definition QgsFeature (fields : list string) : record :=
  Feature 0 ((λ n, (n, NULL)) <$> fields) None.

(** The loop that copies the fields present in both schemas.  The [None]
    branch is the [KeyError] of [feature[field_name]], which the test on the
    names excludes. *)
Definition copy_fields (fields : list string) (feature new_feat : record) : record :=
  foldl (λ nf field_name,
           if name_in field_name (names feature) then
             match getitem feature field_name with
             | Some v => setitem nf field_name v
             | None => nf
             end
           else nf) new_feat fields.

(** [new_feat.setGeometry(g)] when the geometry of [feature] is not null. *)
Definition copy_geometry (feature new_feat : record) : record :=
  match geometry feature with
  | Some g => Feature (id new_feat) (attributes new_feat) (Some g)
  | None => new_feat
  end.

(** One turn of the loop over [new_features]. *)
Definition add_one (shared_layer : nat) (key_field : string) (feature : record)
  : M G unit :=
  fields <- layer_fields shared_layer ;;
  let new_feat := copy_geometry feature (copy_fields fields feature (QgsFeature fields)) in
  added <- addFeature shared_layer new_feat ;;
  if negb added then
    key_value <- feature_get feature key_field ;;
    pushInfo ("⚠️ Problemi aggiunta record " +:+ py_str key_value)
  else ret tt.

(** Step 4: the additions and the line they leave in the report. *)
Definition add_new_records (shared_layer : nat) (new_features : list record)
    (key_field : string) : M G (list string) :=
  if nonempty new_features then
    pushInfo ("Aggiunta di " +:+ pretty (length new_features) +:+ " nuovi record...") ;;
    for_each new_features (add_one shared_layer key_field) ;;
    ret ["✅ Aggiunti " +:+ pretty (length new_features) +:+ " nuovi record"]
  else ret [].

(** The text handed to [setFilterExpression]: the key field between double
    quotes, [ = ], and the key as it is between single quotes. *)
Definition filter_expression (key_field key_value : string) : string :=
  String Expr.dquote key_field +:+ String Expr.dquote " = '" +:+ key_value +:+ "'".

(** One turn of the loop over [enumerate(shared_layer.fields())]. *)
Definition update_field (shared_layer : nat) (key_field : string)
    (new_feature : record) (fid : Z) (entry : nat * string) : M G unit :=
  let '(i, field_name) := entry in
  if String.eqb field_name key_field then ret tt
  else if name_in field_name (names new_feature) then
    new_value <- feature_get new_feature field_name ;;
    _ <- changeAttributeValue shared_layer fid i new_value ;;
    ret tt
  else ret tt.

(** One turn of the loop over [modified_features]. *)
Definition update_one (shared_layer : nat) (key_field : string)
    (mod_feat_data : modified_entry G) : M G unit :=
  let key_value := m_key mod_feat_data in
  let new_feature := m_feature mod_feat_data in
  existing_features <-
    getFeatures_filtered shared_layer (filter_expression key_field key_value) ;;
  match existing_features with
  | [] => ret tt
  | existing_feat :: _ =>
      let fid := id existing_feat in
      fields <- layer_fields shared_layer ;;
      for_each (imap pair fields) (update_field shared_layer key_field new_feature fid) ;;
      match geometry new_feature with
      | Some g => _ <- changeGeometry shared_layer fid g ;; ret tt
      | None => ret tt
      end
  end.

(** Step 5: the modifications and the line they leave in the report. *)
Definition update_existing (shared_layer : nat)
    (modified_features : list (modified_entry G)) (key_field : string)
  : M G (list string) :=
  if nonempty modified_features then
    pushInfo ("Aggiornamento di " +:+ pretty (length modified_features) +:+ " record...") ;;
    for_each modified_features (update_one shared_layer key_field) ;;
    ret ["✅ Aggiornati " +:+ pretty (length modified_features) +:+ " record"]
  else ret [].

(** Steps 4 and 5: what the inner [try] does before the commit, with the
    [report_lines] gathered so far. *)
Definition apply_changes (shared_layer : nat) (new_features : list record)
    (modified_features : list (modified_entry G)) (key_field : string)
  : M G (list string) :=
  added <- add_new_records shared_layer new_features key_field ;;
  updated <- update_existing shared_layer modified_features key_field ;;
  ret (added ++ updated)%list.

Definition success_line : string := "🎉 AGGIORNAMENTO COMPLETATO CON SUCCESSO!".

Definition commit_error_report (errors : list string) : string :=
  "❌ Errori durante il salvataggio: " +:+ Text.join "; " errors.

(** Step 6: the session-level commit. *)
Definition commit_step (shared_layer : nat) (report_lines : list string) : M G string :=
  pushInfo "Salvando modifiche..." ;;
  committed <- commitChanges shared_layer ;;
  if committed then
    reload shared_layer ;;
    ret (Text.join nl (report_lines ++ [success_line])%list)
  else
    errors <- commitErrors shared_layer ;;
    let error_msg := commit_error_report errors in
    pushInfo error_msg ;;
    _ <- rollBack shared_layer ;;
    ret error_msg.

(** The inner [try ... except]. *)
Definition edit_session (shared_layer : nat) (new_features : list record)
    (modified_features : list (modified_entry G)) (key_field : string) : M G string :=
  try_except
    (report_lines <- apply_changes shared_layer new_features modified_features key_field ;;
     commit_step shared_layer report_lines)
    (λ e, _ <- rollBack shared_layer ;;
          ret ("❌ Errore durante l'aggiornamento: " +:+ exn_str e)).

Definition backup_path_of (file_path : string) (now : timestamp) : string :=
  file_path +:+ ".backup_" +:+ strftime_backup now.

(** Step 1: the backup of the container file. *)
Definition backup_step (shared_layer : nat) : M G unit :=
  source <- layer_source shared_layer ;;
  let file_path := file_path_of source in
  found <- path_exists file_path ;;
  if found && Text.endswith file_path ".gpkg" then
    now <- datetime_now ;;
    let backup_path := backup_path_of file_path now in
    copy2 file_path backup_path ;;
    pushInfo ("Backup creato: " +:+ backup_path)
  else ret tt.

(** Steps 2 and 3: leave a pending edit session, then open one. *)
Definition begin_session (shared_layer : nat) : M G bool :=
  editable <- isEditable shared_layer ;;
  (if editable then _ <- commitChanges shared_layer ;; ret tt else ret tt) ;;
  pushInfo "Iniziando modalità editing..." ;;
  startEditing shared_layer.

(** What follows the backup inside the outer [try]. *)
Definition run_session (shared_layer : nat) (new_features : list record)
    (modified_features : list (modified_entry G)) (key_field : string) : M G string :=
  started <- begin_session shared_layer ;;
  if negb started then ret "❌ Impossibile iniziare editing del layer"
  else edit_session shared_layer new_features modified_features key_field.

Definition update_with_qgis_api_only (shared_layer : nat) (new_features : list record)
    (modified_features : list (modified_entry G)) (key_field : string) : M G string :=
  try_except
    (backup_step shared_layer ;;
     run_session shared_layer new_features modified_features key_field)
    (λ e, ret ("❌ Errore generale: " +:+ exn_str e)).

(** *** [processAlgorithm] *)

(** The parameters as [parameterAsVectorLayer], [parameterAsString] and
    [parameterAsBool] give them; a layer that cannot be resolved is [None]. *)
Record parameters : Type := Parameters {
  SHARED_LAYER : option nat;
  USER_LAYER : option nat;
  KEY_FIELD : string;
  PREVIEW_ONLY : bool
}.

Definition missing_key_message (key_field where_ : string) : string :=
  "Campo chiave " +:+ String Expr.dquote key_field
    +:+ String Expr.dquote " non trovato nel layer " +:+ where_.

(** The value of the output [OUTPUT_REPORT]. *)
Definition processAlgorithm (p : parameters) : M G string :=
  let key_field := KEY_FIELD p in
  let preview_only := PREVIEW_ONLY p in
  match SHARED_LAYER p, USER_LAYER p with
  | Some shared_layer, Some user_layer =>
      shared_fields <- layer_fields shared_layer ;;
      if negb (name_in key_field shared_fields) then
        raise (QgsProcessingException (missing_key_message key_field "condiviso"))
      else
        user_fields <- layer_fields user_layer ;;
        if negb (name_in key_field user_fields) then
          raise (QgsProcessingException (missing_key_message key_field "utente"))
        else
          pushInfo "Inizio analisi delle differenze..." ;;
          analysis <- analyze_differences shared_layer user_layer key_field ;;
          let '(new_features, modified_features, report) := analysis in
          pushInfo report ;;
          if negb preview_only && (nonempty new_features || nonempty modified_features)
          then
            pushInfo "Procedendo con l'aggiornamento..." ;;
            update_report <- update_with_qgis_api_only shared_layer new_features
                               modified_features key_field ;;
            ret (report +:+ nl +:+ update_report)
          else ret report
  | _, _ => raise (QgsProcessingException "Layer non validi")
  end.

(** *** Notions used to state what a run leaves unchanged *)

(** [m] keeps the property [I] of the state, whether it returns or raises. *)
Definition preserves {A} (I : world → Prop) (m : M G A) : Prop :=
  ∀ w, I w → I (m w).2.

(** What a run can change of the datasets: the layer objects, the files, and
    the outcomes of the writing calls still to come. *)
Definition storage (w : world) : gmap nat layer * gmap string (list record) * list outcome :=
  (layers w, files w, script w).

(** Since [w0], where the layer [h] was [l0], only the edit buffer of [h]
    has changed, and [h] is in edit mode. *)
Definition in_session (h : nat) (l0 : layer) (w0 w : world) : Prop :=
  files w = files w0
  ∧ ∃ buffer, layers w = <[h := set_edit_buffer (Some buffer) l0]> (layers w0).

(** The file [backup_path] holds [content], and the layer [h], while it
    lives, has the data source [src]. *)
Definition backed_up (h : nat) (src backup_path : string) (content : list record)
    (w : world) : Prop :=
  files w !! backup_path = Some content
  ∧ ∀ l, layers w !! h = Some l → source l = src.

End Program.

(** ** Data to run the program on *)

Module Example.

(** Geometries as lists of vertices. *)
Definition geom : Type := list (Z * Z).

Definition park_row (fid : Z) (key name : string) : feature geom :=
  Feature fid [("fuuid", PyStr key); ("name", PyStr name)] (Some [(0, 0)%Z]).

Definition now : timestamp := Timestamp 2024 3 5 9 7 1.

(** The shared layer, stored in a container file, holds the record A. *)
Definition shared : layer geom :=
  Layer "/data/shared.gpkg|layername=parks" ["fuuid"; "name"]
        [park_row 1 "A" "Park"] None [].

(** The user layer renames A and adds B. *)
Definition user : layer geom :=
  Layer "/data/user.gpkg|layername=parks" ["fuuid"; "name"]
        [park_row 1 "A" "Parco"; park_row 2 "B" "Lake"] None [].

(** A world whose storage layer acts as [script] says. *)
Definition world_with (script : list outcome) : world geom :=
  World (<[0%nat := shared]> (<[1%nat := user]> ∅))
        (<["/data/shared.gpkg" := rows shared]> ∅)
        now script [] 0.

Definition new_B : list (feature geom) := [park_row 2 "B" "Lake"].

Definition modified_A : list (modified_entry geom) :=
  [ModifiedEntry (park_row 1 "A" "Parco") "A" ["name: 'Park' → 'Parco'"]].

(** A modified entry whose key is not a key of the shared layer. *)
Definition modified_Z : list (modified_entry geom) :=
  [ModifiedEntry (park_row 9 "Z" "Zoo") "Z" ["name: 'Zo' → 'Zoo'"]].





(** A shared layer whose container file has its extension in capitals. *)
Definition capital : layer geom :=
  Layer "/data/shared.GPKG|layername=parks" ["fuuid"; "name"]
        [park_row 1 "A" "Park"] None [].

Definition capital_world : world geom :=
  World (<[0%nat := capital]> ∅)
        (<["/data/shared.GPKG" := rows capital]> ∅)
        now [] [] 0.





(** A layer kept by a database, not by a file. *)
Definition remote : layer geom :=
  Layer "dbname='gis' host=db table=parks" ["fuuid"; "name"]
        [park_row 1 "A" "Park"] None [].

Definition remote_world : world geom :=
  World (<[0%nat := remote]> ∅) ∅ now [] [] 0.

(** An interpreter and a host to run the examples on.  [repr] is written
    out for a text whose characters outside ASCII are all printable: the
    quote is the double quote when the text holds a single quote and no
    double quote, and the single quote otherwise; the quote and the
    backslash get a backslash before them, TAB, LF and CR are written as
    their escapes and the other control characters by their number.  No
    example compares a value that is not a text, and the host of the
    examples takes two such values as different. *)
Definition hex_digit (n : nat) : ascii :=
  nth n (list_ascii_of_string "0123456789abcdef") "0"%char.

Definition repr_char (quote c : ascii) : string :=
  let n := nat_of_ascii c in
  if Ascii.eqb c quote || Ascii.eqb c "\" then String "\" (String c "")
  else if (n =? 9)%nat then "\t"
  else if (n =? 10)%nat then "\n"
  else if (n =? 13)%nat then "\r"
  else if ((n <? 32) || (n =? 127))%nat
       then "\x" +:+ String (hex_digit (n / 16)) (String (hex_digit (n mod 16)) "")
  else String c "".

Fixpoint escaped (quote : ascii) (s : string) : string :=
  match s with
  | EmptyString => EmptyString
  | String c s' => repr_char quote c +:+ escaped quote s'
  end.

Definition repr (s : string) : string :=
  let quote :=
    if Text.contains "'" s && negb (Text.contains Expr.dquote s)
    then Expr.dquote else "'"%char in
  String quote (escaped quote s) +:+ String quote "".

Definition runtime : Runtime := {| py_repr := repr; host_equal := λ _ _, false |}.

(** The rows of the layer [h] after a run. *)
Definition rows_after {A} (h : nat) (r : (exn + A) * world geom)
  : option (list (feature geom)) :=
  rows <$> (layers r.2 !! h).

End Example.

(** ** Notions used in the further properties *)

(** A float that is not a number. *)
Definition is_nan (v : pyvalue) : bool :=
  match v with
  | PyFloat S754_nan _ => true
  | _ => false
  end.

Section Keys.
Context {G : Type} `{!Geometry G}.

(** The key of a record under [key_field]: [str(feature[key_field])], when
    the record has the field. *)
Definition key_text (key_field : string) (f : feature G) : option string :=
  py_str <$> getitem f key_field.

(** The records of a list that have the key [k]. *)
Definition with_key (key_field k : string) (features : list (feature G))
  : list (feature G) :=
  List.filter (λ f, bool_decide (key_text key_field f = Some k)) features.

(** Whether every record of a list has the field [key_field]. *)
Definition all_keyed (key_field : string) (features : list (feature G)) : bool :=
  forallb (λ f, bool_decide (is_Some (getitem f key_field))) features.

End Keys.

Section Sessions.
Context {G : Type} `{!Geometry G}.

Local Abbreviation record := (feature G).

(** The record that [add_one] hands to [addFeature] for [feature], on a
    layer with the fields [fields]. *)
Definition built (fields : list string) (feature : record) : record :=
  copy_geometry feature (copy_fields fields feature (QgsFeature fields)).

(** The row that the edit buffer [buffer] gets for the record [new_feat]. *)
Definition buffered (buffer : list (feature G)) (new_feat : feature G) : feature G :=
  Feature (fresh_id buffer) (attributes new_feat) (geometry new_feat).

(** What identifies a row: its id and its value under the key field. *)
Definition key_view (key_field : string) (r : feature G) : Z * option pyvalue :=
  (id r, getitem r key_field).

(** The storage layer lets the next [n] writing calls go ahead. *)
Definition goes_ahead (n : nat) (s : list outcome) : Prop :=
  Forall (λ o, o = Ok) (take n s).

(** The layer [h] is in edit mode with the fields [fds]; its rows have
    these fields, and the ids and keys [view]. *)
Definition keys_are (h : nat) (key_field : string) (fds : list string)
    (view : list (Z * option pyvalue)) (w : world G) : Prop :=
  ∃ l b, layers w !! h = Some l ∧ edit_buffer l = Some b ∧ fields l = fds
         ∧ key_view key_field <$> b = view
         ∧ Forall (λ r, names r = fds) b.

(** What a run on the layer [h] of [w0], whose data source is [src], leaves
    alone: the other layers, the files other than the container and its
    backup, the clock and the data source of [h]. *)
Definition framed (h : nat) (src : string) (w0 w : world G) : Prop :=
  (∀ h', h' ≠ h → layers w !! h' = layers w0 !! h')
  ∧ (∀ path, path ≠ file_path_of src →
             path ≠ backup_path_of (file_path_of src) (clock w0) →
             files w !! path = files w0 !! path)
  ∧ clock w = clock w0
  ∧ ∃ l, layers w !! h = Some l ∧ source l = src.

End Sessions.

(** * Properties *)

(** ** Text *)

Module TextFacts.
Import Text.

Lemma length_app (s t : string) :
  String.length (s +:+ t) = String.length s + String.length t.
Proof. induction s as [|c s IH]; simpl; [done | by rewrite IH]. Qed.

Lemma app_nonempty_neq (s t : string) : t ≠ "" → s +:+ t ≠ s.
Proof.
  intros Ht Heq. apply (f_equal String.length) in Heq.
  rewrite length_app in Heq. destruct t; [done | simpl in Heq; lia].
Qed.

Lemma last_char_app (s t : string) (c : ascii) :
  last_char t = Some c → last_char (s +:+ t) = Some c.
Proof.
  intros Ht. induction s as [|d s IH]; simpl; [done|]. by rewrite IH.
Qed.

Lemma append_cons (c : ascii) (s t : string) : String c s +:+ t = String c (s +:+ t).
Proof. reflexivity. Qed.

Lemma append_assoc (s t u : string) : (s +:+ t) +:+ u = s +:+ (t +:+ u).
Proof. induction s as [|c s IH]; [done | by rewrite !append_cons, IH]. Qed.

Lemma append_nil_r (s : string) : s +:+ "" = s.
Proof. induction s as [|c s IH]; [done | by rewrite append_cons, IH]. Qed.

Lemma concat_cons (p : string) (l : list string) :
  String.concat "" (p :: l) = p +:+ String.concat "" l.
Proof. destruct l; simpl; [by rewrite append_nil_r | done]. Qed.

(** A white-space character takes one, two or three bytes. *)
Lemma is_space_length (p : string) :
  is_space p = true → (1 ≤ String.length p ≤ 3)%nat.
Proof.
  unfold is_space. rewrite existsb_exists. intros (q & Hq & Heq).
  apply String.eqb_eq in Heq as ->. revert q Hq. apply List.Forall_forall.
  repeat constructor.
Qed.

Lemma after_space_Some (s r : string) :
  after_space s = Some r → ∃ p, s = p +:+ r ∧ is_space p = true.
Proof.
  destruct s as [|a [|b [|c s3]]]; simpl; [done|..].
  - destruct (is_space (String a "")) eqn:E1; [|done].
    intros [= <-]. by exists (String a "").
  - destruct (is_space (String a "")) eqn:E1.
    { intros [= <-]. by exists (String a ""). }
    destruct (is_space (String a (String b ""))) eqn:E2; [|done].
    intros [= <-]. by exists (String a (String b "")).
  - destruct (is_space (String a "")) eqn:E1.
    { intros [= <-]. by exists (String a ""). }
    destruct (is_space (String a (String b ""))) eqn:E2.
    { intros [= <-]. by exists (String a (String b "")). }
    destruct (is_space (String a (String b (String c "")))) eqn:E3; [|done].
    intros [= <-]. by exists (String a (String b (String c ""))).
Qed.

Lemma after_space_None (p r : string) :
  after_space (p +:+ r) = None → is_space p = false.
Proof.
  intros Hn. destruct (is_space p) eqn:Hp; [|done].
  pose proof (is_space_length p Hp) as Hlen.
  destruct p as [|a [|b [|c [|d p]]]]; simpl in Hlen; try lia;
    rewrite ?append_cons in Hn; change ("" +:+ r) with r in Hn.
  - simpl in Hn. by rewrite Hp in Hn.
  - simpl in Hn. rewrite Hp in Hn.
    by destruct (is_space (String a "")).
  - simpl in Hn. rewrite Hp in Hn.
    by destruct (is_space (String a "")), (is_space (String a (String b ""))).
Qed.

Lemma after_space_length (s r : string) :
  after_space s = Some r → (String.length r < String.length s)%nat.
Proof.
  intros (p & -> & Hp)%after_space_Some. rewrite length_app.
  apply is_space_length in Hp. lia.
Qed.

(** [lstrip] removes one white-space character after the other. *)
Lemma lstrip_unfold (s : string) :
  lstrip s = match after_space s with Some r => lstrip r | None => s end.
Proof.
  destruct s as [|a [|b [|c s3]]]; simpl; [done|..].
  - by destruct (is_space (String a "")).
  - by destruct (is_space (String a "")), (is_space (String a (String b ""))).
  - by destruct (is_space (String a "")), (is_space (String a (String b ""))),
         (is_space (String a (String b (String c "")))).
Qed.

(** What [lstrip] leaves does not start with a white-space character. *)
Lemma lstrip_done (s : string) : after_space (lstrip s) = None.
Proof.
  remember (String.length s) as n eqn:Hn. revert s Hn.
  induction (lt_wf n) as [n _ IH]. intros s ->.
  rewrite lstrip_unfold. destruct (after_space s) as [r|] eqn:E; [|done].
  by apply (IH (String.length r) (after_space_length _ _ E)).
Qed.

(** What [lstrip] removes is white space. *)
Lemma lstrip_removed (s : string) :
  ∃ before, Forall (λ p, is_space p = true) before
            ∧ s = String.concat "" before +:+ lstrip s.
Proof.
  remember (String.length s) as n eqn:Hn. revert s Hn.
  induction (lt_wf n) as [n _ IH]. intros s ->.
  rewrite lstrip_unfold. destruct (after_space s) as [r|] eqn:E.
  - destruct (IH (String.length r) (after_space_length _ _ E) r eq_refl)
      as (before & Hsp & Hr).
    destruct (after_space_Some _ _ E) as (p & -> & Hp).
    exists (p :: before). split; [by constructor|].
    by rewrite concat_cons, append_assoc, <- Hr.
  - by exists [].
Qed.

Lemma rstrip_prefix (s : string) : ∃ w, s = rstrip s +:+ w.
Proof.
  induction s as [|a s [w IH]]; [by exists ""|]. simpl.
  destruct (is_space (String a (rstrip s))).
  - by eexists.
  - exists w. by rewrite append_cons, <- IH.
Qed.

(** What [rstrip] leaves does not end in a white-space character. *)
Lemma rstrip_done (s u p : string) :
  is_space p = true → rstrip s ≠ u +:+ p.
Proof.
  intros Hp. revert u. induction s as [|a s IH]; intros u; simpl.
  - destruct u, p; try done.
  - destruct (is_space (String a (rstrip s))) eqn:E.
    + destruct u, p; try done.
    + destruct u as [|b u]; simpl.
      * change ("" +:+ p) with p. intros Heq. congruence.
      * rewrite append_cons. intros [= <- Hr]. by apply (IH u).
Qed.

(** What [rstrip] removes is white space. *)
Lemma rstrip_removed (s : string) :
  ∃ after, Forall (λ p, is_space p = true) after
           ∧ s = rstrip s +:+ String.concat "" after.
Proof.
  induction s as [|a s (after & Hsp & IH)]; [by exists []|]. simpl.
  destruct (is_space (String a (rstrip s))) eqn:E.
  - exists (String a (rstrip s) :: after). split; [by constructor|].
    by rewrite concat_cons, append_cons, <- IH.
  - exists after. split; [done|]. by rewrite append_cons, <- IH.
Qed.

Lemma rstrip_idempotent (s : string) : rstrip (rstrip s) = rstrip s.
Proof.
  induction s as [|a s IH]; [done|]. simpl.
  destruct (is_space (String a (rstrip s))) eqn:E; [done|].
  simpl. by rewrite IH, E.
Qed.

(** What [strip] leaves does not start with a white-space character. *)
Lemma strip_start (s : string) : after_space (strip s) = None.
Proof.
  unfold strip. pose proof (lstrip_done s) as Hl.
  destruct (rstrip_prefix (lstrip s)) as [w Hw].
  destruct (after_space (rstrip (lstrip s))) as [r|] eqn:E; [|done].
  destruct (after_space_Some _ _ E) as (p & Hr & Hp).
  rewrite Hw, Hr, append_assoc in Hl.
  apply after_space_None in Hl. congruence.
Qed.

(** Trimming what is trimmed changes nothing. *)
Lemma strip_idempotent (s : string) : strip (strip s) = strip s.
Proof.
  pose proof (strip_start s) as Hs. unfold strip in *.
  rewrite (lstrip_unfold (rstrip (lstrip s))), Hs. apply rstrip_idempotent.
Qed.

(** [strip] removes white-space characters from both ends of a text, and
    what it leaves neither starts nor ends with one. *)
Lemma strip_spec (s : string) :
  (∃ before after,
     Forall (λ p, is_space p = true) before
     ∧ Forall (λ p, is_space p = true) after
     ∧ s = String.concat "" before +:+ strip s +:+ String.concat "" after)
  ∧ ∀ p u, is_space p = true → strip s ≠ p +:+ u ∧ strip s ≠ u +:+ p.
Proof.
  split.
  - destruct (lstrip_removed s) as (before & Hb & Hs).
    destruct (rstrip_removed (lstrip s)) as (after & Ha & Hl).
    exists before, after. split; [done|]. split; [done|].
    unfold strip. by rewrite <- Hl.
  - intros p u Hp. split.
    + intros Heq. pose proof (strip_start s) as Hn. rewrite Heq in Hn.
      apply after_space_None in Hn. congruence.
    + by apply rstrip_done.
Qed.

End TextFacts.

(** ** Value Normalizer *)

(** On text that carries no surrounding white space the program follows the
    rule of the specification. *)
Lemma normalize_value_trimmed (s : string) :
  Text.strip s = s → normalize_value (PyStr s) = normalize_text_spec s.
Proof.
  intros Hs. unfold normalize_value, normalize_text_spec. simpl. by rewrite Hs.
Qed.

(** The branch for the other types trims before it tests, as the rule of the
    specification does. *)
Lemma normalize_value_object (repr : string) :
  normalize_value (PyObj repr) = normalize_text_spec repr.
Proof. reflexivity. Qed.

(** Away from text with surrounding white space, normalising twice is
    normalising once. *)
Lemma normalize_value_idempotent_trimmed (v : pyvalue) :
  (∀ s, v = PyStr s → Text.strip s = s) →
  normalize_value (normalize_value v) = normalize_value v.
Proof.
  intros Hv. destruct v as [|s|b|n|x r|r]; try reflexivity.
  - simpl. destruct (_ || _) eqn:E; [done|]. rewrite (Hv s eq_refl). simpl.
    by rewrite E, (Hv s eq_refl).
  - simpl. destruct (_ || _) eqn:E; [done|]. simpl.
    by rewrite E, TextFacts.strip_idempotent.
Qed.

(** Numbers pass through unchanged. *)
Lemma normalize_value_number (v : pyvalue) :
  match v with PyBool _ | PyInt _ | PyFloat _ _ => normalize_value v = v | _ => True end.
Proof. by destruct v. Qed.

(** C2.  For text the program tests for the empty text and for NULL before it
    trims: text made of white space only normalises to the empty text, and
    NULL between spaces to the text NULL, where the rule of the specification
    gives null for both; the branch for the other types gives null there. *)
Theorem normalize_value_tests_before_trim :
  normalize_value (PyStr "   ") = PyStr ""
  ∧ normalize_value (PyStr " NULL ") = PyStr "NULL"
  ∧ normalize_text_spec "   " = PyNone
  ∧ normalize_text_spec " NULL " = PyNone
  ∧ normalize_value (PyObj "   ") = PyNone
  ∧ normalize_value (PyObj " NULL ") = PyNone.
Proof. repeat split; reflexivity. Qed.

(** C3.  Normalising twice is not normalising once: NULL between spaces
    normalises to the text NULL, which normalises to null, and the two
    results are different values. *)
Theorem normalize_value_twice_differs :
  normalize_value (PyStr " NULL ") = PyStr "NULL"
  ∧ normalize_value (normalize_value (PyStr " NULL ")) = PyNone
  ∧ py_eq (normalize_value (normalize_value (PyStr " NULL ")))
          (normalize_value (PyStr " NULL ")) = false
  ∧ normalize_value (PyStr "   ") = PyStr ""
  ∧ normalize_value (normalize_value (PyStr "   ")) = PyNone.
Proof. repeat split; reflexivity. Qed.

(** ** Difference Engine *)

Section FeatureFacts.
Context {G : Type} `{!Geometry G} {runtime : Runtime}.

Lemma name_in_elem (name : string) (l : list string) :
  name_in name l = true ↔ name ∈ l.
Proof.
  unfold name_in. rewrite existsb_exists. split.
  - intros (x & Hx & Heq). apply String.eqb_eq in Heq. subst.
    by apply list_elem_of_In.
  - intros Hin. exists name. split; [by apply list_elem_of_In | apply String.eqb_refl].
Qed.

(** [feature[name]] raises no [KeyError] for a name of the feature. *)
Lemma getitem_name_in (f : feature G) (name : string) :
  name ∈ names f → is_Some (getitem f name).
Proof.
  unfold names, getitem. induction (attributes f) as [|[n v] l IH]; simpl.
  - intros H; by apply elem_of_nil in H.
  - intros H. destruct (String.eqb name n) eqn:E; [by eexists|].
    apply elem_of_cons in H as [->|H]; [by rewrite String.eqb_refl in E | auto].
Qed.

Lemma difference_line_last (n : string) (a b : pyvalue) :
  Text.last_char (difference_line n a b) = Some "'"%char.
Proof.
  unfold difference_line. repeat apply TextFacts.last_char_app. reflexivity.
Qed.

Lemma compare_field_not_marker (s u : feature G) (k name : string) :
  geometry_marker ∉ compare_field s u k name.
Proof.
  unfold compare_field. intros Hin.
  repeat (case_match; try by apply elem_of_nil in Hin).
  apply list_elem_of_singleton in Hin.
  apply (f_equal Text.last_char) in Hin. rewrite difference_line_last in Hin.
  discriminate.
Qed.

Lemma field_differences_not_marker (s u : feature G) (k : string) (l : list string) :
  geometry_marker ∉ flat_map (compare_field s u k) l.
Proof.
  intros Hin. apply list_elem_of_In, in_flat_map in Hin as (name & _ & Hin).
  by apply list_elem_of_In, compare_field_not_marker in Hin.
Qed.

(** C7.  The geometry marker is among the differences exactly when both
    records have a geometry, both geometries are valid and the two are not
    equal; and the comparison raises nothing: the two lookups of a field that
    the loop reaches find their field. *)
Theorem geometry_marker_iff (shared_feat user_feat : feature G) (key_field : string) :
  (geometry_marker ∈ compare_features shared_feat user_feat key_field ↔
     ∃ sg ug, geometry shared_feat = Some sg ∧ geometry user_feat = Some ug
              ∧ isGeosValid sg = true ∧ isGeosValid ug = true
              ∧ equals sg ug = false)
  ∧ (∀ field_name, field_name ∈ names shared_feat →
       name_in field_name (names user_feat) = true →
       is_Some (getitem shared_feat field_name)
       ∧ is_Some (getitem user_feat field_name)).
Proof.
  split.
  - unfold compare_features, geometry_differs.
    destruct (geometry shared_feat) as [sg|], (geometry user_feat) as [ug|];
      try (split; [intros H; by apply field_differences_not_marker in H
                  | intros (? & ? & ? & ? & _); discriminate]).
    destruct (isGeosValid sg) eqn:Hs, (isGeosValid ug) eqn:Hu,
             (equals sg ug) eqn:He; simpl;
      try (split; [intros H; by apply field_differences_not_marker in H
                  | intros (? & ? & [= <-] & [= <-] & ? & ? & ?); congruence]).
    split; [intros _; by exists sg, ug|].
    intros _. apply elem_of_app. right. by apply list_elem_of_singleton.
  - intros name Hs Hu. split; [by apply getitem_name_in|].
    by apply getitem_name_in, name_in_elem.
Qed.

(** ** Classifier *)

Section ClassifierFacts.
Variables shared_features user_features : gmap string (feature G).
Variable key_field : string.

Lemma new_keys_spec (k : string) :
  k ∈ new_keys shared_features user_features ↔
  is_Some (user_features !! k) ∧ shared_features !! k = None.
Proof.
  unfold new_keys. rewrite elem_of_elements, elem_of_difference.
  by rewrite elem_of_dom, not_elem_of_dom.
Qed.

Lemma common_keys_spec (k : string) :
  k ∈ common_keys shared_features user_features ↔
  is_Some (shared_features !! k) ∧ is_Some (user_features !! k).
Proof.
  unfold common_keys. rewrite elem_of_elements, elem_of_intersection.
  by rewrite !elem_of_dom.
Qed.

Lemma classify_key_spec (k : string) (e : modified_entry G) :
  e ∈ classify_key shared_features user_features key_field k ↔
  e = ModifiedEntry (user_features !!! k) k
        (compare_features (shared_features !!! k) (user_features !!! k) key_field)
  ∧ m_differences e ≠ [].
Proof.
  unfold classify_key.
  destruct (compare_features _ _ _) as [|d ds] eqn:E.
  - split; [intros H; by apply elem_of_nil in H|]. by intros [-> H].
  - rewrite list_elem_of_singleton. split; [by intros -> | by intros [-> _]].
Qed.

Lemma modified_keys_sublist (l : list string) :
  sublist (m_key <$> flat_map (classify_key shared_features user_features key_field) l) l.
Proof.
  induction l as [|k l IH]; simpl; [constructor|].
  rewrite fmap_app. unfold classify_key at 1.
  destruct (compare_features _ _ _); simpl.
  - by apply sublist_cons.
  - by apply sublist_skip.
Qed.

(** C1.  The keys of the new records are, without repetition, the keys of the
    user index that the shared index lacks, and the new records are the user
    records under those keys, in the same order; the modified entries are,
    one for each key, the entries [(key, user record, differences)] of the
    keys of both indices whose comparison is not empty; a key that the user
    index lacks is the key of no output. *)
Theorem classification_exact :
  let keys := new_keys shared_features user_features in
  let new := new_features shared_features user_features in
  let modified := modified_features shared_features user_features key_field in
  (NoDup keys
   ∧ (∀ k, k ∈ keys ↔ (is_Some (user_features !! k) ∧ shared_features !! k = None))
   ∧ Forall2 (λ k f, user_features !! k = Some f) keys new
   ∧ (∀ f, f ∈ new ↔ ∃ k, user_features !! k = Some f ∧ shared_features !! k = None))
  ∧ (NoDup (m_key <$> modified)
     ∧ (∀ e, e ∈ modified ↔
          ∃ s, shared_features !! m_key e = Some s
               ∧ user_features !! m_key e = Some (m_feature e)
               ∧ m_differences e = compare_features s (m_feature e) key_field
               ∧ m_differences e ≠ []))
  ∧ (∀ k, user_features !! k = None → (k ∉ keys) ∧ (k ∉ m_key <$> modified)).
Proof.
  intros keys new modified.
  assert (Hnew : Forall2 (λ k f, user_features !! k = Some f) keys new).
  { unfold new, new_features. apply Forall2_fmap_r, Forall_Forall2_diag.
    apply Forall_forall. intros k Hk. apply new_keys_spec in Hk as [Hk _].
    by apply lookup_lookup_total. }
  assert (Hmod : ∀ e, e ∈ modified ↔
            ∃ s, shared_features !! m_key e = Some s
                 ∧ user_features !! m_key e = Some (m_feature e)
                 ∧ m_differences e = compare_features s (m_feature e) key_field
                 ∧ m_differences e ≠ []).
  { intros e. unfold modified, modified_features.
    rewrite list_elem_of_In, in_flat_map. split.
    - intros (k & Hk & He). apply list_elem_of_In in Hk, He.
      apply common_keys_spec in Hk as [Hs Hu].
      apply classify_key_spec in He as [-> Hne]. simpl in *.
      exists (shared_features !!! k).
      by rewrite !lookup_lookup_total.
    - intros (s & Hs & Hu & Hd & Hne). exists (m_key e).
      rewrite <- !list_elem_of_In. split.
      + apply common_keys_spec. by rewrite Hs, Hu.
      + apply classify_key_spec. split; [|done].
        rewrite (lookup_total_correct _ _ _ Hs), (lookup_total_correct _ _ _ Hu).
        destruct e; simpl in *. by rewrite Hd. }
  split; [|split].
  - split; [apply NoDup_elements|]. split; [apply new_keys_spec|].
    split; [done|]. intros f. split.
    + intros Hf. apply list_elem_of_lookup in Hf as [i Hi].
      destruct (Forall2_lookup_r _ _ _ _ _ Hnew Hi) as (k & Hk & Hkf).
      exists k. split; [done|].
      apply list_elem_of_lookup_2, new_keys_spec in Hk. tauto.
    + intros (k & Hk & Hs).
      assert (Hin : k ∈ keys) by (apply new_keys_spec; eauto).
      apply list_elem_of_lookup in Hin as [i Hi].
      destruct (Forall2_lookup_l _ _ _ _ _ Hnew Hi) as (f' & Hf' & Hkf).
      assert (f' = f) by congruence. subst. by eapply list_elem_of_lookup_2.
  - split; [|done].
    apply (sublist_NoDup _ (common_keys shared_features user_features));
      [apply NoDup_elements | apply modified_keys_sublist].
  - intros k Hk. split.
    + intros Hin. apply new_keys_spec in Hin as [[? ?] _]. congruence.
    + intros Hin. apply list_elem_of_fmap in Hin as (e & -> & He).
      apply Hmod in He as (s & _ & Hu & _). congruence.
Qed.

End ClassifierFacts.
End FeatureFacts.

(** ** The filter expression of the modification step *)

Module ExprFacts.
Import Text Expr.


Lemma app_cons (c : ascii) (s t : string) : String c s +:+ t = String c (s +:+ t).
Proof. reflexivity. Qed.

Lemma app_nil_r (s : string) : s +:+ "" = s.
Proof. induction s as [|c s IH]; [done | by rewrite app_cons, IH]. Qed.

Lemma app_assoc (s t u : string) : (s +:+ t) +:+ u = s +:+ (t +:+ u).
Proof. induction s as [|c s IH]; [done | by rewrite !app_cons, IH]. Qed.



Lemma contains_cons_false (c d : ascii) (s : string) :
  contains c (String d s) = false → Ascii.eqb d c = false ∧ contains c s = false.
Proof.
  change (contains c (String d s))
    with (if Ascii.eqb c d then true else contains c s).
  rewrite (Ascii.eqb_sym c d). by destruct (Ascii.eqb d c).
Qed.










End ExprFacts.

Section FilterFacts.
Context {G : Type} `{!Geometry G} {runtime : Runtime}.



End FilterFacts.

Section FilterExamples.
#[local] Existing Instance Example.runtime.


End FilterExamples.

(** ** Runs: what the calls of the host keep *)

Section RunFacts.
Context {G : Type} `{!Geometry G} {runtime : Runtime}.
Local Open Scope run_scope.

(** The state after a writing call has asked the storage layer: only the
    script has moved on. *)
Lemma storage_call_world (w : world G) :
  ∃ s, (storage_call w).2 = set_script s w.
Proof.
  unfold storage_call, bind, next_outcome.
  destruct (script w) as [|[] s] eqn:E; simpl; eauto.
  exists []. destruct w; simpl in *. by rewrite E.
Qed.

(** How a sequence runs. *)
Lemma bind_run {A B} (m : M G A) (k : A → M G B) (w w' : world G) (a : A) :
  m w = (inr a, w') → bind m k w = k a w'.
Proof. intros Hm. unfold bind. by rewrite Hm. Qed.

Lemma bind_raise {A B} (m : M G A) (k : A → M G B) (w w' : world G) (e : exn) :
  m w = (inl e, w') → bind m k w = (inl e, w').
Proof. intros Hm. unfold bind. by rewrite Hm. Qed.

Lemma get_layer_run (h : nat) (l : layer G) (w : world G) :
  layers w !! h = Some l → get_layer h w = (inr l, w).
Proof. intros Hl. unfold get_layer. by rewrite Hl. Qed.

Lemma layer_fields_run (h : nat) (l : layer G) (w : world G) :
  layers w !! h = Some l → layer_fields h w = (inr (fields l), w).
Proof. intros Hl. unfold layer_fields. by rewrite (bind_run _ _ _ _ _ (get_layer_run _ _ _ Hl)). Qed.

Lemma layer_source_run (h : nat) (l : layer G) (w : world G) :
  layers w !! h = Some l → layer_source h w = (inr (source l), w).
Proof. intros Hl. unfold layer_source. by rewrite (bind_run _ _ _ _ _ (get_layer_run _ _ _ Hl)). Qed.


Lemma pushInfo_run (msg : string) (w : world G) :
  pushInfo msg w = (inr tt, set_pushed (pushed w ++ [msg])%list w).
Proof. reflexivity. Qed.

Section Structure.
Variable I : world G → Prop.

Lemma preserves_ret {A} (a : A) : preserves I (ret a).
Proof. by intros w. Qed.

Lemma preserves_raise {A} (e : exn) : preserves I (raise (A := A) e).
Proof. by intros w. Qed.

Lemma preserves_gets {A} (f : world G → A) : preserves I (gets f).
Proof. by intros w. Qed.

Lemma preserves_bind {A B} (m : M G A) (k : A → M G B) :
  preserves I m → (∀ a, preserves I (k a)) → preserves I (bind m k).
Proof.
  intros Hm Hk w HI. unfold bind. specialize (Hm w HI).
  destruct (m w) as [[e|a] w']; simpl in *; [done | by apply Hk].
Qed.

Lemma preserves_try_except {A} (body : M G A) (handler : exn → M G A) :
  preserves I body → (∀ e, preserves I (handler e)) →
  preserves I (try_except body handler).
Proof.
  intros Hb Hh w HI. unfold try_except. specialize (Hb w HI).
  destruct (body w) as [[e|a] w']; simpl in *; [by apply Hh | done].
Qed.

Lemma preserves_for_each {A} (l : list A) (body : A → M G unit) :
  (∀ x, preserves I (body x)) → preserves I (for_each l body).
Proof.
  intros Hb. induction l as [|x l IH]; simpl.
  - apply preserves_ret.
  - apply preserves_bind; [apply Hb | by intros _].
Qed.

Lemma preserves_for_lines {A} (l : list A) (body : A → M G (list string)) :
  (∀ x, preserves I (body x)) → preserves I (for_lines l body).
Proof.
  intros Hb. induction l as [|x l IH]; simpl.
  - apply preserves_ret.
  - apply preserves_bind; [apply Hb | intros a].
    apply preserves_bind; [apply IH | intros b; apply preserves_ret].
Qed.

Lemma preserves_feature_get (f : feature G) (name : string) :
  preserves I (feature_get f name).
Proof. unfold feature_get. destruct (getitem f name); by intros w. Qed.

Lemma preserves_get_layer (h : nat) : preserves I (get_layer h).
Proof. intros w HI. unfold get_layer. by destruct (layers w !! h). Qed.

Lemma preserves_datetime_now : preserves I datetime_now.
Proof. by intros w. Qed.

Lemma preserves_path_exists (path : string) : preserves I (path_exists path).
Proof. by intros w. Qed.

(** The calls that read a layer. *)
Lemma preserves_layer_source (h : nat) : preserves I (layer_source h).
Proof. apply preserves_bind; [apply preserves_get_layer | intros; apply preserves_ret]. Qed.

Lemma preserves_layer_fields (h : nat) : preserves I (layer_fields h).
Proof. apply preserves_bind; [apply preserves_get_layer | intros; apply preserves_ret]. Qed.

Lemma preserves_isEditable (h : nat) : preserves I (isEditable h).
Proof. apply preserves_bind; [apply preserves_get_layer | intros; apply preserves_ret]. Qed.

Lemma preserves_commitErrors (h : nat) : preserves I (commitErrors h).
Proof. apply preserves_bind; [apply preserves_get_layer | intros; apply preserves_ret]. Qed.

Lemma preserves_getFeatures (h : nat) : preserves I (getFeatures h).
Proof. apply preserves_bind; [apply preserves_get_layer | intros; apply preserves_ret]. Qed.

Lemma preserves_getFeatures_filtered (h : nat) (text : string) :
  preserves I (getFeatures_filtered h text).
Proof. apply preserves_bind; [apply preserves_get_layer | intros; apply preserves_ret]. Qed.

(** *** Properties that the feedback and the script do not touch *)

Hypothesis I_pushed : ∀ w p, I w → I (set_pushed p w).
Hypothesis I_progress : ∀ w p, I w → I (set_progress p w).
Hypothesis I_script : ∀ w s, I w → I (set_script s w).

Lemma preserves_pushInfo (msg : string) : preserves I (pushInfo msg).
Proof. intros w HI. by apply I_pushed. Qed.

Lemma preserves_setProgress (p : Z) : preserves I (setProgress p).
Proof. intros w HI. by apply I_progress. Qed.

Lemma preserves_next_outcome : preserves I next_outcome.
Proof.
  intros w HI. unfold next_outcome. destruct (script w); simpl; [done|].
  by apply I_script.
Qed.

Lemma preserves_storage_call : preserves I storage_call.
Proof.
  apply preserves_bind; [apply preserves_next_outcome|].
  intros []; [apply preserves_ret | apply preserves_ret | apply preserves_raise].
Qed.

Lemma preserves_index_features (features : list (feature G)) (key_field : string)
    (d : gmap string (feature G)) :
  preserves I (index_features features key_field d).
Proof.
  revert d. induction features as [|f features IH]; intros d; simpl.
  - apply preserves_ret.
  - apply preserves_bind; [apply preserves_feature_get | intros v; apply IH].
Qed.

Lemma preserves_generate_report (new : list (feature G))
    (modified : list (modified_entry G)) (key_field : string) :
  preserves I (generate_report new modified key_field).
Proof.
  unfold generate_report.
  apply preserves_bind; [apply preserves_datetime_now | intros now].
  apply preserves_bind; [| intros; apply preserves_ret].
  destruct (nonempty new); [|apply preserves_ret].
  apply preserves_bind; [| intros; apply preserves_ret].
  apply preserves_for_lines. intros f.
  apply preserves_bind; [apply preserves_feature_get | intros; apply preserves_ret].
Qed.

Lemma preserves_analyze_differences (shared_layer user_layer : nat) (key_field : string) :
  preserves I (analyze_differences shared_layer user_layer key_field).
Proof.
  unfold analyze_differences.
  repeat first
    [ apply preserves_ret
    | apply preserves_setProgress
    | apply preserves_getFeatures
    | apply preserves_index_features
    | apply preserves_generate_report
    | apply preserves_bind; [|intros ?] ].
Qed.

(** *** Properties that a change of the edit buffer of [h] does not break *)

Variable h : nat.
Hypothesis I_buffer : ∀ w l buffer,
  I w → layers w !! h = Some l → is_Some (edit_buffer l) →
  I (set_layers (<[h := set_edit_buffer (Some buffer) l]> (layers w)) w).

Lemma preserves_addFeature (f : feature G) : preserves I (addFeature h f).
Proof.
  intros w HI. unfold addFeature, bind, get_layer.
  destruct (layers w !! h) as [l|] eqn:Hl; [|done].
  pose proof (preserves_storage_call w HI) as Hc.
  destruct (storage_call_world w) as [s Hw].
  destruct (storage_call w) as [[e|[errors|]] w1]; simpl in *; try done.
  destruct (edit_buffer l) as [buffer|] eqn:Hb; simpl; [|done].
  apply I_buffer; [done | by subst w1 | by rewrite Hb].
Qed.

Lemma preserves_changeAttributeValue (fid : Z) (i : nat) (v : pyvalue) :
  preserves I (changeAttributeValue h fid i v).
Proof.
  intros w HI. unfold changeAttributeValue, bind, get_layer.
  destruct (layers w !! h) as [l|] eqn:Hl; [|done].
  pose proof (preserves_storage_call w HI) as Hc.
  destruct (storage_call_world w) as [s Hw].
  destruct (storage_call w) as [[e|[errors|]] w1]; simpl in *; try done.
  destruct (edit_buffer l) as [buffer|] eqn:Hb; simpl; [|done].
  destruct (existsb _ _ && _); simpl; [|done].
  apply I_buffer; [done | by subst w1 | by rewrite Hb].
Qed.

Lemma preserves_changeGeometry (fid : Z) (g : G) :
  preserves I (changeGeometry h fid g).
Proof.
  intros w HI. unfold changeGeometry, bind, get_layer.
  destruct (layers w !! h) as [l|] eqn:Hl; [|done].
  pose proof (preserves_storage_call w HI) as Hc.
  destruct (storage_call_world w) as [s Hw].
  destruct (storage_call w) as [[e|[errors|]] w1]; simpl in *; try done.
  destruct (edit_buffer l) as [buffer|] eqn:Hb; simpl; [|done].
  destruct (existsb _ _); simpl; [|done].
  apply I_buffer; [done | by subst w1 | by rewrite Hb].
Qed.

Lemma preserves_add_one (key_field : string) (f : feature G) :
  preserves I (add_one h key_field f).
Proof.
  unfold add_one.
  apply preserves_bind; [apply preserves_layer_fields | intros fs].
  apply preserves_bind; [apply preserves_addFeature | intros added].
  destruct (negb added); [|apply preserves_ret].
  apply preserves_bind; [apply preserves_feature_get | intros; apply preserves_pushInfo].
Qed.

Lemma preserves_update_field (key_field : string) (f : feature G) (fid : Z)
    (entry : nat * string) :
  preserves I (update_field h key_field f fid entry).
Proof.
  unfold update_field. destruct entry as [i name].
  destruct (String.eqb name key_field); [apply preserves_ret|].
  destruct (name_in name (names f)); [|apply preserves_ret].
  apply preserves_bind; [apply preserves_feature_get | intros v].
  apply preserves_bind; [apply preserves_changeAttributeValue | intros; apply preserves_ret].
Qed.

Lemma preserves_update_one (key_field : string) (e : modified_entry G) :
  preserves I (update_one h key_field e).
Proof.
  unfold update_one.
  apply preserves_bind; [apply preserves_getFeatures_filtered | intros [|existing ?]];
    [apply preserves_ret|].
  apply preserves_bind; [apply preserves_layer_fields | intros fs].
  apply preserves_bind;
    [apply preserves_for_each; intros; apply preserves_update_field | intros _].
  destruct (geometry (m_feature e)); [|apply preserves_ret].
  apply preserves_bind; [apply preserves_changeGeometry | intros; apply preserves_ret].
Qed.

Lemma preserves_add_new_records (new : list (feature G)) (key_field : string) :
  preserves I (add_new_records h new key_field).
Proof.
  unfold add_new_records. destruct (nonempty new); [|apply preserves_ret].
  apply preserves_bind; [apply preserves_pushInfo | intros _].
  apply preserves_bind;
    [apply preserves_for_each; intros; apply preserves_add_one
    | intros; apply preserves_ret].
Qed.

Lemma preserves_update_existing (modified : list (modified_entry G)) (key_field : string) :
  preserves I (update_existing h modified key_field).
Proof.
  unfold update_existing. destruct (nonempty modified); [|apply preserves_ret].
  apply preserves_bind; [apply preserves_pushInfo | intros _].
  apply preserves_bind;
    [apply preserves_for_each; intros; apply preserves_update_one
    | intros; apply preserves_ret].
Qed.

(** Steps 4 and 5 keep every property that the feedback, the script and the
    changes of the edit buffer keep. *)
Lemma preserves_apply_changes (new : list (feature G))
    (modified : list (modified_entry G)) (key_field : string) :
  preserves I (apply_changes h new modified key_field).
Proof.
  unfold apply_changes.
  apply preserves_bind; [apply preserves_add_new_records | intros added].
  apply preserves_bind; [apply preserves_update_existing | intros; apply preserves_ret].
Qed.

(** *** Properties that no call on [h] breaks *)

Hypothesis I_layer : ∀ w l l',
  I w → layers w !! h = Some l → source l' = source l →
  I (set_layers (<[h := l']> (layers w)) w).
Hypothesis I_commit : ∀ w l buffer,
  I w → layers w !! h = Some l →
  I (set_files (alter (λ _, buffer) (file_path_of (source l)) (files w)) w).

Lemma preserves_startEditing : preserves I (startEditing h).
Proof.
  intros w HI. unfold startEditing, bind, get_layer.
  destruct (layers w !! h) as [l|] eqn:Hl; [|done].
  pose proof (preserves_storage_call w HI) as Hc.
  destruct (storage_call_world w) as [s Hw].
  destruct (storage_call w) as [[e|[errors|]] w1]; simpl in *; try done.
  destruct (edit_buffer l); simpl; [done|].
  apply (I_layer _ l); [done | by subst w1 | done].
Qed.

Lemma preserves_rollBack : preserves I (rollBack h).
Proof.
  intros w HI. unfold rollBack, bind, get_layer.
  destruct (layers w !! h) as [l|] eqn:Hl; [|done].
  pose proof (preserves_storage_call w HI) as Hc.
  destruct (storage_call_world w) as [s Hw].
  destruct (storage_call w) as [[e|[errors|]] w1]; simpl in *; try done.
  destruct (edit_buffer l); simpl; [|done].
  apply (I_layer _ l); [done | by subst w1 | done].
Qed.

Lemma preserves_reload : preserves I (reload h).
Proof.
  apply preserves_bind; [apply preserves_get_layer | intros _].
  apply preserves_bind; [apply preserves_storage_call | intros; apply preserves_ret].
Qed.

Lemma preserves_commitChanges : preserves I (commitChanges h).
Proof.
  intros w HI. unfold commitChanges, bind, get_layer.
  destruct (layers w !! h) as [l|] eqn:Hl; [|done].
  pose proof (preserves_storage_call w HI) as Hc.
  destruct (storage_call_world w) as [s Hw].
  destruct (storage_call w) as [[e|[errors|]] w1]; simpl in *; try done.
  - apply (I_layer _ l); [done | by subst w1 | done].
  - assert (Hl1 : layers w1 !! h = Some l) by (by subst w1).
    destruct (edit_buffer l) as [buffer|]; simpl.
    + pose proof (I_layer w1 l
        (set_commit_errors [] (set_edit_buffer None (set_rows buffer l)))
        Hc Hl1 eq_refl) as H1.
      apply (I_commit _ (set_commit_errors [] (set_edit_buffer None (set_rows buffer l)))
               buffer) in H1; [done|].
      simpl. by rewrite lookup_insert_eq.
    + apply (I_layer _ l); [done | done | done].
Qed.

Lemma preserves_commit_step (report_lines : list string) :
  preserves I (commit_step h report_lines).
Proof.
  unfold commit_step.
  apply preserves_bind; [apply preserves_pushInfo | intros _].
  apply preserves_bind; [apply preserves_commitChanges | intros [|]].
  - apply preserves_bind; [apply preserves_reload | intros; apply preserves_ret].
  - apply preserves_bind; [apply preserves_commitErrors | intros errors].
    apply preserves_bind; [apply preserves_pushInfo | intros _].
    apply preserves_bind; [apply preserves_rollBack | intros; apply preserves_ret].
Qed.

Lemma preserves_edit_session (new : list (feature G))
    (modified : list (modified_entry G)) (key_field : string) :
  preserves I (edit_session h new modified key_field).
Proof.
  unfold edit_session. apply preserves_try_except.
  - apply preserves_bind; [apply preserves_apply_changes | intros lines].
    apply preserves_commit_step.
  - intros e.
    apply preserves_bind; [apply preserves_rollBack | intros; apply preserves_ret].
Qed.

Lemma preserves_begin_session : preserves I (begin_session h).
Proof.
  unfold begin_session.
  apply preserves_bind; [apply preserves_isEditable | intros editable].
  apply preserves_bind.
  { destruct editable; [|apply preserves_ret].
    apply preserves_bind; [apply preserves_commitChanges | intros; apply preserves_ret]. }
  intros _. apply preserves_bind; [apply preserves_pushInfo | intros _].
  apply preserves_startEditing.
Qed.

(** Everything that follows the backup keeps a property that no call on
    [h] breaks. *)
Lemma preserves_run_session (new : list (feature G))
    (modified : list (modified_entry G)) (key_field : string) :
  preserves I (run_session h new modified key_field).
Proof.
  unfold run_session.
  apply preserves_bind; [apply preserves_begin_session | intros started].
  destruct (negb started); [apply preserves_ret | apply preserves_edit_session].
Qed.

End Structure.
End RunFacts.

(** ** [processAlgorithm]: validation and preview *)

Section AlgorithmFacts.
Context {G : Type} `{!Geometry G} {runtime : Runtime}.
Local Open Scope run_scope.

(** C8.  When a layer parameter resolves to no layer, or the key field is
    not a field of the shared or of the user layer, the run raises a
    [QgsProcessingException] and leaves the state as it found it: nothing is
    indexed, reported to the feedback, or written. *)
Theorem configuration_error_first (p : parameters) (w : world G) :
  (SHARED_LAYER p = None ∨ USER_LAYER p = None
   ∨ ∃ hs hu ls lu,
       SHARED_LAYER p = Some hs ∧ USER_LAYER p = Some hu
       ∧ layers w !! hs = Some ls ∧ layers w !! hu = Some lu
       ∧ (name_in (KEY_FIELD p) (fields ls) = false
          ∨ name_in (KEY_FIELD p) (fields lu) = false)) →
  ∃ msg, processAlgorithm p w = (inl (QgsProcessingException msg), w)
         ∧ (msg = "Layer non validi"
            ∨ msg = missing_key_message (KEY_FIELD p) "condiviso"
            ∨ msg = missing_key_message (KEY_FIELD p) "utente").
Proof.
  destruct p as [sl ul kf pv]. simpl.
  intros [-> | [-> | (hs & hu & ls & lu & -> & -> & Hs & Hu & Hk)]].
  - exists "Layer non validi". split; [reflexivity | by left].
  - exists "Layer non validi". split; [by destruct sl | by left].
  - unfold processAlgorithm. simpl.
    rewrite (bind_run _ _ _ _ _ (layer_fields_run _ _ _ Hs)).
    destruct (name_in kf (fields ls)) eqn:Es; simpl.
    + rewrite (bind_run _ _ _ _ _ (layer_fields_run _ _ _ Hu)).
      destruct Hk as [Hk|Hk]; [done|]. rewrite Hk. simpl.
      eexists. split; [reflexivity | by right; right].
    + eexists. split; [reflexivity | by right; left].
Qed.

(** The analysis writes nothing. *)
Lemma analyze_differences_storage (hs hu : nat) (key_field : string) (w : world G) :
  storage (analyze_differences hs hu key_field w).2 = storage w.
Proof.
  by apply (preserves_analyze_differences (λ w', storage w' = storage w)).
Qed.

(** In preview mode no run writes: whether it returns or raises, the
    layers, the files and the script are as before. *)
Lemma preview_never_writes (p : parameters) (w : world G) :
  PREVIEW_ONLY p = true → storage (processAlgorithm p w).2 = storage w.
Proof.
  intros Hp.
  assert (Hkeep : preserves (λ w', storage w' = storage w) (processAlgorithm p));
    [|by apply Hkeep].
  unfold processAlgorithm. rewrite Hp.
  destruct (SHARED_LAYER p) as [hs|], (USER_LAYER p) as [hu|];
    try apply preserves_raise.
  apply preserves_bind; [apply preserves_layer_fields | intros sf].
  destruct (negb _); [apply preserves_raise|].
  apply preserves_bind; [apply preserves_layer_fields | intros uf].
  destruct (negb _); [apply preserves_raise|].
  apply preserves_bind; [by apply preserves_pushInfo | intros _].
  apply preserves_bind;
    [by apply preserves_analyze_differences | intros [[new modified] report]].
  apply preserves_bind; [by apply preserves_pushInfo | intros _].
  apply preserves_ret.
Qed.

(** C6.  Once the parameters are valid: in preview mode, and when the
    analysis finds no new and no modified record, the run returns the report
    of the analysis alone, and the layers, the files and the script of the
    storage layer are as before the run: the update executor made no call. *)
Theorem no_update_in_preview_or_without_changes (p : parameters) (w w1 : world G)
    (hs hu : nat) (ls lu : layer G) (new : list (feature G))
    (modified : list (modified_entry G)) (report : string) :
  SHARED_LAYER p = Some hs → USER_LAYER p = Some hu →
  layers w !! hs = Some ls → layers w !! hu = Some lu →
  name_in (KEY_FIELD p) (fields ls) = true →
  name_in (KEY_FIELD p) (fields lu) = true →
  analyze_differences hs hu (KEY_FIELD p)
    (pushInfo "Inizio analisi delle differenze..." w).2
    = (inr (new, modified, report), w1) →
  PREVIEW_ONLY p = true ∨ (new = [] ∧ modified = []) →
  processAlgorithm p w = (inr report, (pushInfo report w1).2)
  ∧ storage (processAlgorithm p w).2 = storage w.
Proof.
  destruct p as [sl ul kf pv]. simpl.
  intros -> -> Hs Hu Ks Ku Ha Hno.
  assert (Hrun : processAlgorithm (Parameters (Some hs) (Some hu) kf pv) w
                 = (inr report, (pushInfo report w1).2)).
  { unfold processAlgorithm. simpl.
    rewrite (bind_run _ _ _ _ _ (layer_fields_run _ _ _ Hs)), Ks. simpl.
    rewrite (bind_run _ _ _ _ _ (layer_fields_run _ _ _ Hu)), Ku. simpl.
    rewrite (bind_run _ _ _ _ _ (pushInfo_run _ _)).
    rewrite (bind_run _ _ _ _ _ Ha).
    rewrite (bind_run _ _ _ _ _ (pushInfo_run _ _)).
    destruct Hno as [-> | [-> ->]]; [done | by destruct pv]. }
  split; [done|]. rewrite Hrun. change (storage w1 = storage w).
  apply (f_equal snd) in Ha. simpl in Ha. subst w1.
  by rewrite analyze_differences_storage.
Qed.

End AlgorithmFacts.

Section AlgorithmExamples.
#[local] Existing Instance Example.runtime.

(** A run on a key field that the shared layer lacks. *)
Lemma configuration_error_first_witness :
  ∃ msg,
    processAlgorithm (Parameters (Some 0%nat) (Some 1%nat) "fid" false)
      (Example.world_with [])
    = (inl (QgsProcessingException msg), Example.world_with [])
    ∧ (msg = "Layer non validi"
       ∨ msg = missing_key_message "fid" "condiviso"
       ∨ msg = missing_key_message "fid" "utente").
Proof.
  apply (configuration_error_first
           (Parameters (Some 0%nat) (Some 1%nat) "fid" false)).
  right. right. exists 0%nat, 1%nat, Example.shared, Example.user.
  repeat split; try reflexivity. by left.
Defined.

(** A preview of the two example layers: one new and one modified record are
    found, and the storage is as before. *)
Lemma no_update_in_preview_witness :
  let p := Parameters (Some 0%nat) (Some 1%nat) "fuuid" true in
  ∃ report w1,
    processAlgorithm p (Example.world_with [])
      = (inr report, (pushInfo report w1).2)
    ∧ storage (processAlgorithm p (Example.world_with [])).2
      = storage (Example.world_with []).
Proof.
  intros p. eexists _, _.
  eapply (no_update_in_preview_or_without_changes p (Example.world_with []) _
            0%nat 1%nat Example.shared Example.user);
    [reflexivity | reflexivity | reflexivity | reflexivity | reflexivity
    | reflexivity | vm_compute; reflexivity | by left].
Defined.

End AlgorithmExamples.

(** ** Update Executor *)

Section ExecutorFacts.
Context {G : Type} `{!Geometry G} {runtime : Runtime}.
Local Open Scope run_scope.

Lemma bind_inr_inv {A B} (m : M G A) (k : A → M G B) (w w' : world G) (b : B) :
  bind m k w = (inr b, w') →
  ∃ a w1, m w = (inr a, w1) ∧ k a w1 = (inr b, w').
Proof.
  unfold bind. destruct (m w) as [[e|a] w1]; [done|]. intros Hk. by exists a, w1.
Qed.

(** A report of failure starts with the cross mark. *)
Lemma failure_mark (s : string) : Text.startswith ("❌" +:+ s) "❌" = true.
Proof. by destruct s. Qed.

(** Closes a goal whose hypothesis [Hne] says that the report of failure
    that goes on with [s] does not start with the cross mark. *)
Ltac failure_report Hne s :=
  let Hm := fresh "Hm" in
  match type of Hne with
  | Text.startswith ?t _ = false =>
      assert (Hm : Text.startswith t "❌" = true) by exact (failure_mark s);
      congruence
  end.

Lemma storage_call_ok (w : world G) (s : list outcome) :
  script w = Ok :: s → storage_call w = (inr None, set_script s w).
Proof. intros Hs. unfold storage_call, bind, next_outcome. by rewrite Hs. Qed.

Lemma storage_call_refused (w : world G) (errors : list string) (s : list outcome) :
  script w = Refused errors :: s →
  storage_call w = (inr (Some errors), set_script s w).
Proof. intros Hs. unfold storage_call, bind, next_outcome. by rewrite Hs. Qed.

Lemma storage_call_raises (w : world G) (e : exn) (s : list outcome) :
  script w = Raises e :: s → storage_call w = (inl e, set_script s w).
Proof. intros Hs. unfold storage_call, bind, next_outcome. by rewrite Hs. Qed.

(** *** The lines of the report *)

Lemma add_new_records_lines (h : nat) (new : list (feature G)) (key_field : string)
    (w w1 : world G) (lines : list string) :
  add_new_records h new key_field w = (inr lines, w1) →
  lines = if nonempty new
          then ["✅ Aggiunti " +:+ pretty (length new) +:+ " nuovi record"]
          else [].
Proof.
  unfold add_new_records. destruct (nonempty new); [|by intros [= <- _]].
  rewrite (bind_run _ _ _ _ _ (pushInfo_run _ _)). unfold bind.
  destruct (for_each _ _ _) as [[e|[]] w2]; by intros [= <- _].
Qed.

Lemma update_existing_lines (h : nat) (modified : list (modified_entry G))
    (key_field : string) (w w1 : world G) (lines : list string) :
  update_existing h modified key_field w = (inr lines, w1) →
  lines = if nonempty modified
          then ["✅ Aggiornati " +:+ pretty (length modified) +:+ " record"]
          else [].
Proof.
  unfold update_existing. destruct (nonempty modified); [|by intros [= <- _]].
  rewrite (bind_run _ _ _ _ _ (pushInfo_run _ _)). unfold bind.
  destruct (for_each _ _ _) as [[e|[]] w2]; by intros [= <- _].
Qed.

Lemma apply_changes_lines (h : nat) (new : list (feature G))
    (modified : list (modified_entry G)) (key_field : string)
    (w w1 : world G) (lines : list string) :
  apply_changes h new modified key_field w = (inr lines, w1) →
  lines = ((if nonempty new
            then ["✅ Aggiunti " +:+ pretty (length new) +:+ " nuovi record"]
            else [])
           ++ (if nonempty modified
               then ["✅ Aggiornati " +:+ pretty (length modified) +:+ " record"]
               else []))%list.
Proof.
  unfold apply_changes. intros Hrun.
  apply bind_inr_inv in Hrun as (added & w2 & Ha & Hrun).
  apply bind_inr_inv in Hrun as (updated & w3 & Hu & Hrun).
  apply add_new_records_lines in Ha. apply update_existing_lines in Hu.
  injection Hrun as <- _. by subst.
Qed.

Lemma commit_step_success (h : nat) (lines : list string) (w w' : world G) (t : string) :
  commit_step h lines w = (inr t, w') →
  Text.startswith t "❌" = false →
  t = Text.join nl (lines ++ [success_line])%list.
Proof.
  unfold commit_step. rewrite (bind_run _ _ _ _ _ (pushInfo_run _ _)).
  intros Hrun. apply bind_inr_inv in Hrun as ([|] & w2 & _ & Hrun).
  - apply bind_inr_inv in Hrun as (_ & w3 & _ & Hrun). by injection Hrun as <- _.
  - apply bind_inr_inv in Hrun as (errors & w3 & _ & Hrun).
    rewrite (bind_run _ _ _ _ _ (pushInfo_run _ _)) in Hrun.
    apply bind_inr_inv in Hrun as (_ & w4 & _ & Hrun).
    injection Hrun as <- _. intros Hne.
    failure_report Hne (" Errori durante il salvataggio: " +:+ Text.join "; " errors).
Qed.

(** C9.  A report that is not a report of failure is made of the line of
    the additions, when there are new records, with the length of the list
    of new records, the line of the updates, when there are modified
    entries, with the length of that list, and the line of success: whatever
    the storage layer answered to the single additions and changes, and
    whether the keys were found or not. *)
Theorem success_report_counts (h : nat) (new : list (feature G))
    (modified : list (modified_entry G)) (key_field : string)
    (w w' : world G) (t : string) :
  update_with_qgis_api_only h new modified key_field w = (inr t, w') →
  Text.startswith t "❌" = false →
  t = Text.join nl
        ((if nonempty new
          then ["✅ Aggiunti " +:+ pretty (length new) +:+ " nuovi record"]
          else [])
         ++ (if nonempty modified
             then ["✅ Aggiornati " +:+ pretty (length modified) +:+ " record"]
             else [])
         ++ [success_line])%list.
Proof.
  unfold update_with_qgis_api_only, try_except. intros Hrun Hne.
  destruct (bind _ _ w) as [[e|t0] w0] eqn:E.
  { injection Hrun as <- _.
    failure_report Hne (" Errore generale: " +:+ exn_str e). }
  injection Hrun as -> ->.
  apply bind_inr_inv in E as (_ & wb & _ & E). unfold run_session in E.
  apply bind_inr_inv in E as ([|] & ws & _ & E); simpl in E.
  - unfold edit_session, try_except in E.
    destruct (bind _ _ ws) as [[e|t1] w2] eqn:E2.
    + apply bind_inr_inv in E as (_ & w3 & _ & E). injection E as <- _.
      failure_report Hne (" Errore durante l'aggiornamento: " +:+ exn_str e).
    + injection E as -> ->.
      apply bind_inr_inv in E2 as (lines & w3 & Hl & Hc).
      apply apply_changes_lines in Hl. apply commit_step_success in Hc; [|done].
      subst. by rewrite <- app_assoc.
  - injection E as <- _.
    failure_report Hne " Impossibile iniziare editing del layer".
Qed.

(** *** The session-level commit *)

Lemma commitChanges_refused (h : nat) (l : layer G) (w : world G)
    (errors : list string) (s : list outcome) :
  layers w !! h = Some l → script w = Refused errors :: s →
  commitChanges h w
  = (inr false,
     set_layers (<[h := set_commit_errors errors l]> (layers w)) (set_script s w)).
Proof.
  intros Hl Hs. unfold commitChanges.
  rewrite (bind_run _ _ _ _ _ (get_layer_run _ _ _ Hl)).
  by rewrite (bind_run _ _ _ _ _ (storage_call_refused _ _ _ Hs)).
Qed.

Lemma rollBack_ok (h : nat) (l : layer G) (w : world G)
    (buffer : list (feature G)) (s : list outcome) :
  layers w !! h = Some l → edit_buffer l = Some buffer → script w = Ok :: s →
  rollBack h w
  = (inr true,
     set_layers (<[h := set_edit_buffer None l]> (layers w)) (set_script s w)).
Proof.
  intros Hl Hb Hs. unfold rollBack.
  rewrite (bind_run _ _ _ _ _ (get_layer_run _ _ _ Hl)).
  rewrite (bind_run _ _ _ _ _ (storage_call_ok _ _ Hs)). by rewrite Hb.
Qed.

(** A session that has just been opened: the buffer holds the stored rows. *)
Lemma startEditing_true (h : nat) (w w0 : world G) :
  startEditing h w = (inr true, w0) →
  ∃ l0, layers w0 !! h = Some l0 ∧ edit_buffer l0 = Some (rows l0).
Proof.
  unfold startEditing, bind, get_layer.
  destruct (layers w !! h) as [l|]; [|done].
  destruct (storage_call w) as [[e|[errors|]] w1]; simpl; try done.
  destruct (edit_buffer l); simpl; [done|]. intros [= <-].
  exists (set_edit_buffer (Some (rows l)) l). simpl.
  by rewrite lookup_insert_eq.
Qed.

Lemma begin_session_true (h : nat) (w w0 : world G) :
  begin_session h w = (inr true, w0) →
  ∃ l0, layers w0 !! h = Some l0 ∧ edit_buffer l0 = Some (rows l0).
Proof.
  unfold begin_session. intros Hrun.
  apply bind_inr_inv in Hrun as (editable & w1 & _ & Hrun).
  apply bind_inr_inv in Hrun as (_ & w2 & _ & Hrun).
  rewrite (bind_run _ _ _ _ _ (pushInfo_run _ _)) in Hrun.
  by apply startEditing_true in Hrun.
Qed.

Lemma in_session_pushed (h : nat) (l0 : layer G) (w0 w : world G) (p : list string) :
  in_session h l0 w0 w → in_session h l0 w0 (set_pushed p w).
Proof. by intros [? ?]. Qed.

Lemma in_session_script (h : nat) (l0 : layer G) (w0 w : world G) (s : list outcome) :
  in_session h l0 w0 w → in_session h l0 w0 (set_script s w).
Proof. by intros [? ?]. Qed.

Lemma in_session_buffer (h : nat) (l0 : layer G) (w0 w : world G) (l : layer G)
    (buffer : list (feature G)) :
  in_session h l0 w0 w → layers w !! h = Some l → is_Some (edit_buffer l) →
  in_session h l0 w0
    (set_layers (<[h := set_edit_buffer (Some buffer) l]> (layers w)) w).
Proof.
  intros [Hf [b Hl]] Hh _. split; [done|]. exists buffer. simpl.
  rewrite Hl in Hh |- *. rewrite lookup_insert_eq in Hh. injection Hh as <-.
  by rewrite insert_insert_eq.
Qed.

Lemma set_edit_buffer_id (l : layer G) (buffer : list (feature G)) :
  edit_buffer l = Some buffer → set_edit_buffer (Some buffer) l = l.
Proof. destruct l; simpl. by intros ->. Qed.

(** Steps 4 and 5 change nothing but the edit buffer of the layer. *)
Lemma apply_changes_in_session (h : nat) (new : list (feature G))
    (modified : list (modified_entry G)) (key_field : string)
    (l0 : layer G) (w0 : world G) :
  layers w0 !! h = Some l0 → is_Some (edit_buffer l0) →
  in_session h l0 w0 (apply_changes h new modified key_field w0).2.
Proof.
  intros Hl [b Hb].
  apply (preserves_apply_changes (in_session h l0 w0)).
  - intros. by apply in_session_pushed.
  - intros. by apply in_session_script.
  - intros. by apply in_session_buffer.
  - split; [done|]. exists b.
    rewrite (set_edit_buffer_id _ _ Hb). by rewrite insert_id.
Qed.

(** *** The backup *)

Lemma backup_path_fresh (file_path : string) (now : timestamp) :
  backup_path_of file_path now ≠ file_path.
Proof.
  unfold backup_path_of. apply TextFacts.app_nonempty_neq.
  change (".backup_" +:+ strftime_backup now)
    with (String "." ("backup_" +:+ strftime_backup now)).
  discriminate.
Qed.

(** What follows the backup keeps the backup file. *)
Lemma run_session_backed_up (h : nat) (new : list (feature G))
    (modified : list (modified_entry G)) (key_field : string)
    (src backup_path : string) (content : list (feature G)) :
  backup_path ≠ file_path_of src →
  preserves (backed_up h src backup_path content)
            (run_session h new modified key_field).
Proof.
  intros Hne. apply preserves_run_session.
  - by intros w p [? ?].
  - by intros w s [? ?].
  - intros w l buffer [Hf Hs] Hl _. split; [done|].
    intros l'. simpl. rewrite lookup_insert_eq. intros [= <-]. simpl. by apply Hs.
  - intros w l l' [Hf Hs] Hl Hsrc. split; [done|].
    intros l''. simpl. rewrite lookup_insert_eq. intros [= <-].
    rewrite Hsrc. by apply Hs.
  - intros w l buffer [Hf Hs] Hl. split; [|done]. simpl.
    rewrite lookup_alter_ne; [done|]. rewrite (Hs l Hl). congruence.
Qed.

(** What follows the backup creates and removes no file. *)
Lemma run_session_files (h : nat) (new : list (feature G))
    (modified : list (modified_entry G)) (key_field : string) (w0 : world G) :
  preserves (λ w, dom (files w) = dom (files w0))
            (run_session h new modified key_field).
Proof.
  apply preserves_run_session; try done.
  intros w l buffer Hd _. simpl. by rewrite dom_alter_L.
Qed.

Lemma copy2_run (src dst : string) (w w1 : world G) (o : option (list string))
    (content : list (feature G)) :
  storage_call w = (inr o, w1) → files w1 !! src = Some content →
  copy2 src dst w = (inr tt, set_files (<[dst := content]> (files w1)) w1).
Proof.
  intros Hc Hf. unfold copy2. rewrite (bind_run _ _ _ _ _ Hc).
  rewrite (bind_run _ _ w1 w1 (files w1)) by reflexivity. by rewrite Hf.
Qed.

Lemma copy2_raise (src dst : string) (w w1 : world G) (e : exn) :
  storage_call w = (inl e, w1) → copy2 src dst w = (inl e, w1).
Proof. intros Hc. unfold copy2. by rewrite (bind_raise _ _ _ _ _ Hc). Qed.

(** The backup of a container file that exists. *)
Lemma backup_step_done (h : nat) (w : world G) (l : layer G)
    (content : list (feature G)) :
  layers w !! h = Some l →
  files w !! file_path_of (source l) = Some content →
  Text.endswith (file_path_of (source l)) ".gpkg" = true →
  (∀ e, head (script w) ≠ Some (Raises e)) →
  ∃ wb, backup_step h w = (inr tt, wb)
        ∧ backed_up h (source l)
            (backup_path_of (file_path_of (source l)) (clock w)) content wb.
Proof.
  intros Hl Hf Hend Hok.
  assert (Hcall : ∃ o s, storage_call w = (inr o, set_script s w)).
  { unfold storage_call, bind, next_outcome.
    destruct (script w) as [|[| |e] s] eqn:Es; simpl.
    - exists None, []. destruct w; simpl in *. by rewrite Es.
    - by exists None, s.
    - by eexists _, s.
    - by destruct (Hok e). }
  destruct Hcall as (o & s & Hcall).
  unfold backup_step.
  rewrite (bind_run _ _ _ _ _ (layer_source_run _ _ _ Hl)).
  unfold path_exists, datetime_now.
  rewrite (bind_run _ _ w w (bool_decide (is_Some (files w !! file_path_of (source l)))))
    by reflexivity.
  rewrite Hf, bool_decide_eq_true_2 by eauto. rewrite Hend. simpl.
  rewrite (bind_run _ _ w w (clock w)) by reflexivity.
  rewrite (bind_run _ _ _ _ _ (copy2_run _ _ _ _ _ _ Hcall Hf)).
  eexists. split; [reflexivity|]. split.
  - simpl. by rewrite lookup_insert_eq.
  - simpl. intros l'. rewrite Hl. by intros [= <-].
Qed.

(** C5, as amended.  For a shared layer whose data source names a file
    that exists and whose path ends in [.gpkg]: when the copy goes through,
    the file with the suffix [.backup_] and the time stamp holds, after the
    run, what the container file held before the run, whatever the run then
    wrote; when the copy raises, the run ends with a report of failure and
    has changed no layer and no file.  For a data source that names no file
    that exists, or a file whose path does not end in [.gpkg], the backup
    step returns with the state untouched, and the run creates no file. *)
Theorem backup_before_mutation (h : nat) (new : list (feature G))
    (modified : list (modified_entry G)) (key_field : string)
    (w : world G) (l : layer G) :
  layers w !! h = Some l →
  let file_path := file_path_of (source l) in
  let backup_path := backup_path_of file_path (clock w) in
  (∀ content,
     files w !! file_path = Some content →
     Text.endswith file_path ".gpkg" = true →
     (∀ e, head (script w) ≠ Some (Raises e)) →
     files (update_with_qgis_api_only h new modified key_field w).2 !! backup_path
     = Some content)
  ∧ (∀ content e s,
       files w !! file_path = Some content →
       Text.endswith file_path ".gpkg" = true →
       script w = Raises e :: s →
       update_with_qgis_api_only h new modified key_field w
       = (inr ("❌ Errore generale: " +:+ exn_str e), set_script s w))
  ∧ (files w !! file_path = None ∨ Text.endswith file_path ".gpkg" = false →
     backup_step h w = (inr tt, w)
     ∧ dom (files (update_with_qgis_api_only h new modified key_field w).2)
       = dom (files w)).
Proof.
  intros Hl file_path backup_path. split; [|split].
  - intros content Hf Hend Hok.
    destruct (backup_step_done h w l content Hl Hf Hend Hok) as (wb & Hb & Hbk).
    pose proof (run_session_backed_up h new modified key_field (source l)
                  backup_path content (backup_path_fresh _ _) wb Hbk) as [Hfile _].
    unfold update_with_qgis_api_only, try_except.
    rewrite (bind_run _ _ _ _ _ Hb).
    by destruct (run_session _ _ _ _ wb) as [[e|t] w'].
  - intros content e s Hf Hend Hs.
    assert (Hb : backup_step h w = (inl e, set_script s w)).
    { unfold backup_step.
      rewrite (bind_run _ _ _ _ _ (layer_source_run _ _ _ Hl)).
      unfold path_exists, datetime_now.
      rewrite (bind_run _ _ w w (bool_decide (is_Some (files w !! file_path_of (source l)))))
        by reflexivity.
      fold file_path. rewrite Hf, bool_decide_eq_true_2 by eauto. rewrite Hend. simpl.
      rewrite (bind_run _ _ w w (clock w)) by reflexivity.
      by rewrite (bind_raise _ _ _ _ _
                    (copy2_raise _ _ _ _ _ (storage_call_raises _ _ _ Hs))). }
    unfold update_with_qgis_api_only, try_except.
    by rewrite (bind_raise _ _ _ _ _ Hb).
  - intros Hno.
    assert (Hb : backup_step h w = (inr tt, w)).
    { unfold backup_step.
      rewrite (bind_run _ _ _ _ _ (layer_source_run _ _ _ Hl)).
      unfold path_exists.
      rewrite (bind_run _ _ w w (bool_decide (is_Some (files w !! file_path_of (source l)))))
        by reflexivity.
      fold file_path. destruct Hno as [Hno|Hno]; rewrite Hno.
      - by rewrite bool_decide_eq_false_2 by (by intros [? ?]).
      - by rewrite andb_false_r. }
    split; [done|].
    unfold update_with_qgis_api_only, try_except.
    rewrite (bind_run _ _ _ _ _ Hb).
    pose proof (run_session_files h new modified key_field w w eq_refl) as Hd.
    by destruct (run_session _ _ _ _ w) as [[e|t] w'].
Qed.

End ExecutorFacts.

(** ** The program on the example data *)

Section ExecutorExamples.
#[local] Existing Instance Example.runtime.

(** The two layers of the example: B is new and A is modified. *)
Example analysis_of_example :
  (analyze_differences 0 1 "fuuid" (Example.world_with [])).1
  = inr (Example.new_B, Example.modified_A,
         Text.join nl
           ["=== RAPPORTO AGGIORNAMENTO GEOPACKAGE ===";
            "Data/Ora: 2024-03-05 09:07:01";
            "Campo chiave utilizzato: fuuid";
            "";
            "🆕 NUOVI RECORD DA INSERIRE: 1";
            "  - fuuid: B";
            "";
            "✏️ RECORD MODIFICATI: 1";
            "  - fuuid: A";
            "    name: 'Park' → 'Parco'";
            ""]).
Proof. vm_compute. reflexivity. Qed.

(** A run in which the storage layer refuses the addition of B, and in which
    the key Z of the modified entry is no key of the layer: the layer keeps
    its rows, and the report counts one addition and one update. *)
Lemma success_report_counts_witness :
  let run := update_with_qgis_api_only 0 Example.new_B Example.modified_Z "fuuid"
               (Example.world_with [Ok; Ok; Refused []]) in
  Example.rows_after 0 run = Some [Example.park_row 1 "A" "Park"]
  ∧ ∃ t, run.1 = inr t
         ∧ t = Text.join nl
                 ["✅ Aggiunti 1 nuovi record"; "✅ Aggiornati 1 record"; success_line].
Proof.
  intros run. split; [vm_compute; reflexivity|].
  eexists. split; [vm_compute; reflexivity|].
  apply (success_report_counts 0 Example.new_B Example.modified_Z "fuuid"
           (Example.world_with [Ok; Ok; Refused []]) run.2);
    vm_compute; reflexivity.
Defined.

(** The backup of the example container holds the row of A as it was, after
    a run that has renamed A and added B. *)
Lemma backup_before_mutation_witness :
  let run := update_with_qgis_api_only 0 Example.new_B Example.modified_A "fuuid"
               (Example.world_with []) in
  files run.2 !! backup_path_of "/data/shared.gpkg" Example.now
  = Some [Example.park_row 1 "A" "Park"]
  ∧ files run.2 !! "/data/shared.gpkg"
    = Some [Example.park_row 1 "A" "Parco"; Example.park_row (-1) "B" "Lake"].
Proof.
  intros run. split; [|vm_compute; reflexivity].
  refine (proj1 (backup_before_mutation 0 Example.new_B Example.modified_A "fuuid"
                   (Example.world_with []) Example.shared eq_refl)
            [Example.park_row 1 "A" "Park"] _ _ _);
    [vm_compute; reflexivity | vm_compute; reflexivity | intros e; discriminate].
Defined.

(** C5, the claim as it stands fails for a container file that the test
    of the program does not take for one.  The shared layer is stored in
    the file [/data/shared.GPKG], which exists; the run renames A and adds
    B, and writes both to that file; there is no backup: afterwards the
    container is the only file. *)
Lemma backup_claim_counterexample :
  let run := update_with_qgis_api_only 0 Example.new_B Example.modified_A "fuuid"
               Example.capital_world in
  files Example.capital_world !! "/data/shared.GPKG"
  = Some [Example.park_row 1 "A" "Park"]
  ∧ run.1 = inr (Text.join nl ["✅ Aggiunti 1 nuovi record";
                               "✅ Aggiornati 1 record"; success_line])
  ∧ map_to_list (files run.2)
    = [("/data/shared.GPKG",
        [Example.park_row 1 "A" "Parco"; Example.park_row (-1) "B" "Lake"])]
  ∧ files run.2 !! backup_path_of "/data/shared.GPKG" Example.now = None.
Proof. repeat split; vm_compute; reflexivity. Qed.


End ExecutorExamples.

(** * Further properties *)

(** ** Value Normalizer and file paths *)

(** What [normalize_value] returns is null, a number as it was given, or a
    text without surrounding white space: a text that [strip] leaves as it
    is, and that neither starts nor ends with a white-space character of
    Unicode; it is never another object. *)
Theorem normalize_value_range (v : pyvalue) :
  match normalize_value v with
  | PyNone => True
  | PyStr t =>
      Text.strip t = t
      ∧ ∀ p u, Text.is_space p = true → t ≠ p +:+ u ∧ t ≠ u +:+ p
  | PyBool _ | PyInt _ | PyFloat _ _ => normalize_value v = v
  | PyObj _ => False
  end.
Proof.
  destruct v as [|s|b|n|x r|r]; simpl; try done.
  - destruct (_ || _); [done|].
    split; [apply TextFacts.strip_idempotent | apply TextFacts.strip_spec].
  - destruct (_ || _); [done|].
    split; [apply TextFacts.strip_idempotent | apply TextFacts.strip_spec].
Qed.

Module PathFacts.
Import Text.

Lemma split_head_no_sep (sep : ascii) (s : string) :
  contains sep (hd "" (split sep s)) = false.
Proof.
  induction s as [|c s IH]; [done|]. simpl.
  destruct (Ascii.eqb c sep) eqn:E; [done|].
  destruct (split sep s) as [|h t]; simpl in *.
  - by rewrite Ascii.eqb_sym, E.
  - by rewrite Ascii.eqb_sym, E.
Qed.

Lemma split_app_sep (sep : ascii) (p rest : string) :
  contains sep p = false →
  split sep (p +:+ String sep rest) = p :: split sep rest.
Proof.
  induction p as [|c p IH]; intros Hp.
  - change (split sep (String sep rest) = "" :: split sep rest). simpl.
    by rewrite Ascii.eqb_refl.
  - apply ExprFacts.contains_cons_false in Hp as [Hc Hp].
    rewrite ExprFacts.app_cons. simpl. rewrite Hc. by rewrite IH.
Qed.

Lemma contains_app_sep (sep : ascii) (p rest : string) :
  contains sep (p +:+ String sep rest) = true.
Proof.
  induction p as [|c p IH].
  - change (contains sep (String sep rest) = true). simpl. by rewrite Ascii.eqb_refl.
  - rewrite ExprFacts.app_cons. simpl. rewrite IH. by destruct (Ascii.eqb sep c).
Qed.

End PathFacts.

(** The file path taken from a data source holds no bar; a source of the
    form [path|options], with no bar in [path], gives [path]; a source
    without bar is its own file path. *)
Theorem file_path_of_source (path options source : string) :
  Text.contains "|" (file_path_of source) = false
  ∧ (Text.contains "|" path = false →
     file_path_of (path +:+ String "|" options) = path)
  ∧ (Text.contains "|" source = false → file_path_of source = source).
Proof.
  unfold file_path_of. split; [|split].
  - destruct (Text.contains "|" source) eqn:E; [|done].
    apply PathFacts.split_head_no_sep.
  - intros Hp. rewrite PathFacts.contains_app_sep.
    by rewrite PathFacts.split_app_sep.
  - by intros ->.
Qed.

(** The path of a GeoPackage layer as QGIS writes it. *)
Lemma file_path_of_source_witness :
  file_path_of ("/data/shared.gpkg" +:+ String "|" "layername=parks")
  = "/data/shared.gpkg".
Proof.
  apply (file_path_of_source "/data/shared.gpkg" "layername=parks" ""). reflexivity.
Defined.

(** ** Difference Engine *)

Section CompareFacts.
Context {G : Type} `{!Geometry G} {runtime : Runtime}.

Lemma SFeqb_refl (x : spec_float) : x ≠ S754_nan → SFeqb x x = true.
Proof.
  intros Hx. unfold SFeqb, SFcompare.
  destruct x as [s|s| |s m e]; try done.
  - by destruct s.
  - rewrite Z.compare_refl.
    change (Pos.compare_cont Eq m m) with (Pos.compare m m).
    rewrite Pos.compare_refl. by destruct s.
Qed.

(** [v == v], except for a float that is not a number. *)
Lemma py_eq_refl (v : pyvalue) : is_nan v = false → py_eq v v = true.
Proof.
  destruct v as [|s|b|n|x r|r]; simpl; intros Hv; try done.
  - apply String.eqb_refl.
  - by destruct b.
  - apply Z.eqb_refl.
  - apply SFeqb_refl. by intros ->.
  - apply String.eqb_refl.
Qed.

Lemma normalize_value_nan (v : pyvalue) :
  is_nan v = false → is_nan (normalize_value v) = false.
Proof.
  destruct v as [|s|b|n|x r|r]; simpl; try done; by destruct (_ || _).
Qed.

Lemma compare_field_self (r : feature G) (key_field name : string) :
  (∀ v, getitem r name = Some v → is_nan v = false) →
  compare_field r r key_field name = [].
Proof.
  intros Hv. unfold compare_field.
  destruct (String.eqb name key_field); [done|].
  destruct (negb _); [done|].
  destruct (getitem r name) as [v|]; [|done].
  unfold py_ne. by rewrite py_eq_refl by (apply normalize_value_nan; auto).
Qed.

(** A record against itself: no difference, when no attribute is a float
    that is not a number and the geometry, if valid, equals itself. *)
Lemma compare_features_self (r : feature G) (key_field : string) :
  (∀ name v, getitem r name = Some v → is_nan v = false) →
  (∀ g, geometry r = Some g → isGeosValid g = true → equals g g = true) →
  compare_features r r key_field = [].
Proof.
  intros Hv Hg. unfold compare_features.
  assert (Hf : flat_map (compare_field r r key_field) (names r) = []).
  { induction (names r) as [|n l IH]; [done|]. simpl.
    rewrite compare_field_self by eauto. done. }
  rewrite Hf. unfold geometry_differs.
  destruct (geometry r) as [g|] eqn:E; [|done].
  destruct (isGeosValid g) eqn:Ev; [|done].
  by rewrite (Hg g eq_refl Ev).
Qed.

(** Comparing a record with itself gives no difference when none of its
    attributes is a float that is not a number and its geometry, if valid,
    equals itself; an attribute that is such a float, outside the key field,
    is reported as a difference of the record with itself. *)
Theorem compare_features_reflexive (r : feature G) (key_field : string) :
  ((∀ name v, getitem r name = Some v → is_nan v = false) →
   (∀ g, geometry r = Some g → isGeosValid g = true → equals g g = true) →
   compare_features r r key_field = [])
  ∧ (∀ name v, name ≠ key_field → getitem r name = Some v → is_nan v = true →
     difference_line name v v ∈ compare_features r r key_field).
Proof.
  split; [apply compare_features_self|].
  intros name v Hne Hget Hnan.
  assert (Hin : name ∈ names r).
  { unfold names, getitem in *. induction (attributes r) as [|[n x] l IH]; [done|].
    simpl in *. destruct (String.eqb name n) eqn:E.
    - apply String.eqb_eq in E as ->. apply elem_of_cons. by left.
    - apply elem_of_cons. right. by apply IH. }
  assert (Hline : difference_line name v v ∈ compare_field r r key_field name).
  { unfold compare_field.
    rewrite (proj2 (String.eqb_neq name key_field) Hne).
    rewrite (proj2 (name_in_elem name (names r)) Hin). simpl. rewrite Hget.
    destruct v as [|s|b|n|x rp|rp]; try done.
    destruct x; try done. simpl. apply list_elem_of_singleton. done. }
  unfold compare_features.
  assert (Hfm : difference_line name v v
                ∈ flat_map (compare_field r r key_field) (names r)).
  { apply list_elem_of_In, in_flat_map. exists name.
    split; by apply list_elem_of_In. }
  destruct (geometry_differs _ _); [apply elem_of_app; by left | done].
Qed.

(** The lines of a comparison: the geometry marker under its test, and one
    line, with the two values as they are, for each field of the shared
    record, other than the key field, that the user record has too and whose
    normalised values differ.  The key field and the fields that the user
    record lacks give no line. *)
Theorem compare_features_lines (shared_feat user_feat : feature G)
    (key_field line : string) :
  line ∈ compare_features shared_feat user_feat key_field ↔
  (line = geometry_marker
   ∧ geometry_differs (geometry shared_feat) (geometry user_feat) = true)
  ∨ ∃ name shared_value user_value,
      name ∈ names shared_feat ∧ name ≠ key_field ∧ name ∈ names user_feat
      ∧ getitem shared_feat name = Some shared_value
      ∧ getitem user_feat name = Some user_value
      ∧ py_ne (normalize_value shared_value) (normalize_value user_value) = true
      ∧ line = difference_line name shared_value user_value.
Proof.
  assert (Hfield : ∀ name,
    line ∈ compare_field shared_feat user_feat key_field name ↔
    ∃ sv uv, name ≠ key_field ∧ name ∈ names user_feat
             ∧ getitem shared_feat name = Some sv ∧ getitem user_feat name = Some uv
             ∧ py_ne (normalize_value sv) (normalize_value uv) = true
             ∧ line = difference_line name sv uv).
  { intros name. unfold compare_field.
    destruct (String.eqb name key_field) eqn:Ek.
    { apply String.eqb_eq in Ek. split; [by intros ?%elem_of_nil|].
      by intros (? & ? & ? & _). }
    apply String.eqb_neq in Ek.
    destruct (name_in name (names user_feat)) eqn:Eu; simpl.
    2:{ split; [by intros ?%elem_of_nil|]. intros (? & ? & _ & Hin & _).
        apply name_in_elem in Hin. congruence. }
    apply name_in_elem in Eu.
    destruct (getitem shared_feat name) as [sv|];
      [|split; [by intros ?%elem_of_nil | by intros (? & ? & _ & _ & ? & _)]].
    destruct (getitem user_feat name) as [uv|];
      [|split; [by intros ?%elem_of_nil | by intros (? & ? & _ & _ & _ & ? & _)]].
    destruct (py_ne _ _) eqn:Ene.
    - rewrite list_elem_of_singleton. split; [intros ->; by exists sv, uv|].
      by intros (? & ? & _ & _ & [= <-] & [= <-] & _ & ->).
    - split; [by intros ?%elem_of_nil|].
      intros (? & ? & _ & _ & [= <-] & [= <-] & ? & _). congruence. }
  assert (Hfields :
    line ∈ flat_map (compare_field shared_feat user_feat key_field) (names shared_feat) ↔
    ∃ name sv uv, name ∈ names shared_feat ∧ name ≠ key_field ∧ name ∈ names user_feat
      ∧ getitem shared_feat name = Some sv ∧ getitem user_feat name = Some uv
      ∧ py_ne (normalize_value sv) (normalize_value uv) = true
      ∧ line = difference_line name sv uv).
  { rewrite list_elem_of_In, in_flat_map. split.
    - intros (name & Hn & Hl). apply list_elem_of_In in Hn, Hl.
      apply Hfield in Hl as (sv & uv & ?). exists name, sv, uv. tauto.
    - intros (name & sv & uv & Hn & Hrest). exists name.
      rewrite <- !list_elem_of_In. split; [done|]. apply Hfield. by exists sv, uv. }
  unfold compare_features.
  destruct (geometry_differs _ _) eqn:Eg.
  - rewrite elem_of_app, list_elem_of_singleton, Hfields. split.
    + intros [H | ->]; [by right | by left].
    + intros [[-> _] | H]; [by right | by left].
  - rewrite Hfields. split; [by right|]. by intros [[_ ?] | H].
Qed.

End CompareFacts.

(** A record of the example against itself. *)
Lemma compare_features_reflexive_witness :
  compare_features (Example.park_row 1 "A" "Park") (Example.park_row 1 "A" "Park")
    "fuuid" = [].
Proof.
  apply (proj1 (compare_features_reflexive (Example.park_row 1 "A" "Park") "fuuid")).
  - intros name v. unfold getitem. simpl.
    repeat (destruct (String.eqb name _); [by intros [= <-]|]). done.
  - intros g [= <-] _. reflexivity.
Defined.

(** ** Feature Indexer and Classifier *)

Section IndexFacts.
Context {G : Type} `{!Geometry G} {runtime : Runtime}.
Local Open Scope run_scope.

Lemma all_keyed_cons (key_field : string) (f : feature G) (fs : list (feature G)) :
  all_keyed key_field (f :: fs) = true →
  (∃ v, getitem f key_field = Some v) ∧ all_keyed key_field fs = true.
Proof.
  unfold all_keyed. simpl. intros [Hf Hfs]%andb_true_iff.
  apply bool_decide_eq_true in Hf as [v Hv]. split; [by exists v | done].
Qed.

Lemma feature_get_run (f : feature G) (name : string) (v : pyvalue) (w : world G) :
  getitem f name = Some v → feature_get f name w = (inr v, w).
Proof. intros Hv. unfold feature_get. by rewrite Hv. Qed.

(** The index of keyed records, from any dict [d]. *)
Lemma index_features_keyed (features : list (feature G)) (key_field : string)
    (d : gmap string (feature G)) (w : world G) :
  all_keyed key_field features = true →
  ∃ d', index_features features key_field d w = (inr d', w)
        ∧ (∀ k, d' !! k = match last (with_key key_field k features) with
                          | Some f => Some f
                          | None => d !! k
                          end)
        ∧ dom d' = dom d ∪ list_to_set (omap (key_text key_field) features).
Proof.
  revert d. induction features as [|f fs IH]; intros d Hk.
  - exists d. split; [done|]. split; [done|]. simpl. set_solver.
  - apply all_keyed_cons in Hk as [[v Hv] Hfs].
    destruct (IH (<[py_str v := f]> d) Hfs) as (d' & Hrun & Hlook & Hdom).
    assert (Hkt : key_text key_field f = Some (py_str v))
      by (unfold key_text; by rewrite Hv).
    exists d'. split; [|split].
    + simpl. by rewrite (bind_run _ _ _ _ _ (feature_get_run _ _ _ _ Hv)).
    + intros k. rewrite Hlook. unfold with_key. simpl. rewrite Hkt.
      destruct (bool_decide (Some (py_str v) = Some k)) eqn:E.
      * apply bool_decide_eq_true in E as [= <-]. rewrite last_cons.
        destruct (last _); [done|]. by rewrite lookup_insert_eq.
      * apply bool_decide_eq_false in E.
        destruct (last _); [done|]. rewrite lookup_insert_ne; [done|]. congruence.
    + rewrite Hdom, dom_insert_L. simpl. rewrite Hkt. simpl. set_solver.
Qed.

(** A record without the key field stops the indexing. *)
Lemma index_features_unkeyed (features : list (feature G)) (key_field : string)
    (d : gmap string (feature G)) (w : world G) :
  all_keyed key_field features = false →
  index_features features key_field d w
  = (inl (KeyError key_field), w).
Proof.
  revert d. induction features as [|f fs IH]; intros d; [done|].
  unfold all_keyed. simpl. intros Hk.
  destruct (getitem f key_field) as [v|] eqn:Hv.
  - rewrite (bind_run _ _ _ _ _ (feature_get_run _ _ _ _ Hv)). apply IH.
    rewrite bool_decide_eq_true_2 in Hk by eauto. done.
  - unfold bind, feature_get. by rewrite Hv.
Qed.

Lemma size_list_to_set_le (l : list string) :
  (size (list_to_set l : gset string) ≤ length l)%nat.
Proof.
  induction l as [|x l IH]; [by rewrite list_to_set_nil, size_empty|].
  rewrite list_to_set_cons, size_union_alt, size_singleton.
  assert (Hsub : (list_to_set l ∖ {[x]} : gset string) ⊆ list_to_set l)
    by apply subseteq_difference_l, reflexivity.
  apply subseteq_size in Hsub. simpl. lia.
Qed.

Lemma length_omap_keyed (key_field : string) (features : list (feature G)) :
  all_keyed key_field features = true →
  length (omap (key_text key_field) features) = length features.
Proof.
  induction features as [|f fs IH]; [done|].
  intros [[v Hv] Hfs]%all_keyed_cons.
  assert (Hkt : key_text key_field f = Some (py_str v))
    by (unfold key_text; by rewrite Hv).
  simpl. rewrite Hkt. simpl. f_equal. by apply IH.
Qed.

(** The index that [analyze_differences] builds from the records of a layer.
    When every record has the key field, the indexing returns, leaves the
    state as it is, and the dict holds under each key the last record with
    that key: its keys are the key texts of the records, it has at most as
    many entries as there are records, and as many when no two records
    share a key.  When a record lacks the key field, the indexing raises
    [KeyError] for that field. *)
Theorem index_features_result (features : list (feature G)) (key_field : string)
    (w : world G) :
  if all_keyed key_field features
  then ∃ d, index_features features key_field ∅ w = (inr d, w)
            ∧ (∀ k, d !! k = last (with_key key_field k features))
            ∧ dom d = list_to_set (omap (key_text key_field) features)
            ∧ (size d ≤ length features)%nat
            ∧ (NoDup (omap (key_text key_field) features) →
               size d = length features)
  else index_features features key_field ∅ w
       = (inl (KeyError key_field), w).
Proof.
  destruct (all_keyed key_field features) eqn:Hk;
    [|by apply index_features_unkeyed].
  destruct (index_features_keyed features key_field ∅ w Hk)
    as (d & Hrun & Hlook & Hdom).
  exists d. split; [done|]. split.
  { intros k. rewrite Hlook. destruct (last _); [done | apply lookup_empty]. }
  assert (Hd : dom d = list_to_set (omap (key_text key_field) features))
    by (rewrite Hdom; set_solver).
  split; [done|]. rewrite <- size_dom, Hd. split.
  - rewrite <- (length_omap_keyed key_field features Hk).
    apply size_list_to_set_le.
  - intros Hnd. rewrite size_list_to_set by done.
    by apply length_omap_keyed.
Qed.

(** ** The classification as a partition *)

(** The keys of the user index fall into the new keys and the common keys,
    and into one of them only; there are as many new records and common keys
    as the user index has entries; a modified entry has a common key, which
    is no new key, and there are at most as many modified entries as common
    keys. *)
Theorem classification_partition (shared_features user_features : gmap string (feature G))
    (key_field : string) :
  (∀ k, is_Some (user_features !! k) ↔
        k ∈ new_keys shared_features user_features
        ∨ k ∈ common_keys shared_features user_features)
  ∧ (∀ k, k ∈ new_keys shared_features user_features →
          k ∉ common_keys shared_features user_features)
  ∧ (length (new_features shared_features user_features)
     + length (common_keys shared_features user_features))%nat
    = size user_features
  ∧ (∀ e, e ∈ modified_features shared_features user_features key_field →
          m_key e ∈ common_keys shared_features user_features
          ∧ m_key e ∉ new_keys shared_features user_features)
  ∧ (length (modified_features shared_features user_features key_field)
     ≤ length (common_keys shared_features user_features))%nat.
Proof.
  assert (Hdisj : ∀ k, k ∈ new_keys shared_features user_features →
                       k ∉ common_keys shared_features user_features).
  { intros k [_ Hs]%new_keys_spec [[? Hs'] _]%common_keys_spec. congruence. }
  assert (Hsub := modified_keys_sublist shared_features user_features key_field
                    (common_keys shared_features user_features)).
  fold (modified_features shared_features user_features key_field) in Hsub.
  split; [|split; [done|split; [|split]]].
  - intros k. rewrite new_keys_spec, common_keys_spec.
    destruct (shared_features !! k) eqn:E; split; try tauto.
    intros Hu. right. split; [eauto | done].
  - unfold new_features. rewrite length_fmap. unfold new_keys, common_keys.
    change ((size (dom user_features ∖ dom shared_features)
             + size (dom shared_features ∩ dom user_features))%nat
            = size user_features).
    rewrite <- size_union by set_solver. rewrite <- size_dom. f_equal.
    apply set_eq. intros k.
    destruct (decide (k ∈ dom shared_features)); set_solver.
  - intros e He.
    assert (Hin : m_key e ∈ m_key <$> modified_features shared_features
                                        user_features key_field)
      by (apply list_elem_of_fmap; by exists e).
    apply (λ H, elem_of_sublist _ _ _ H Hsub) in Hin. split; [done|].
    intros Hn. by apply Hdisj in Hn.
  - rewrite <- (length_fmap m_key). by apply sublist_length.
Qed.

End IndexFacts.

(** ** The analysis as a whole *)

Section AnalysisFacts.
Context {G : Type} `{!Geometry G} {runtime : Runtime}.
Local Open Scope run_scope.

Lemma setProgress_run (p : Z) (w : world G) :
  setProgress p w = (inr tt, set_progress p w).
Proof. reflexivity. Qed.

Lemma getFeatures_run (h : nat) (l : layer G) (w : world G) :
  layers w !! h = Some l → getFeatures h w = (inr (current_rows l), w).
Proof.
  intros Hl. unfold getFeatures.
  by rewrite (bind_run _ _ _ _ _ (get_layer_run _ _ _ Hl)).
Qed.

Lemma all_keyed_elem (key_field : string) (features : list (feature G)) (f : feature G) :
  all_keyed key_field features = true → f ∈ features →
  is_Some (getitem f key_field).
Proof.
  unfold all_keyed. rewrite forallb_forall. intros Hall Hf.
  apply list_elem_of_In, Hall in Hf. by apply bool_decide_eq_true in Hf.
Qed.

Lemma all_keyed_intro (key_field : string) (features : list (feature G)) :
  (∀ f, f ∈ features → is_Some (getitem f key_field)) →
  all_keyed key_field features = true.
Proof.
  intros Hall. unfold all_keyed. apply forallb_forall. intros f Hf.
  apply bool_decide_eq_true, Hall. by apply list_elem_of_In.
Qed.

Lemma with_key_last (key_field k : string) (features : list (feature G))
    (f : feature G) :
  last (with_key key_field k features) = Some f →
  f ∈ features ∧ key_text key_field f = Some k.
Proof.
  intros Hlast. apply last_Some_elem_of, list_elem_of_In in Hlast.
  unfold with_key in Hlast. apply filter_In in Hlast as [Hin Hk].
  split; [by apply list_elem_of_In | by apply bool_decide_eq_true in Hk].
Qed.

(** The index of a layer whose records all have the key field. *)
Lemma index_features_empty (features : list (feature G)) (key_field : string)
    (w : world G) :
  all_keyed key_field features = true →
  ∃ d, index_features features key_field ∅ w = (inr d, w)
       ∧ ∀ k, d !! k = last (with_key key_field k features).
Proof.
  intros Hk.
  destruct (index_features_keyed features key_field ∅ w Hk) as (d & Hrun & Hlook & _).
  exists d. split; [done|]. intros k. rewrite Hlook.
  destruct (last _); [done | apply lookup_empty].
Qed.

(** The loop of the report over records that have the key field. *)
Lemma for_lines_keyed (features : list (feature G)) (key_field : string)
    (w : world G) :
  all_keyed key_field features = true →
  ∃ lines,
    for_lines features
      (λ feature, key_value <- feature_get feature key_field ;;
                  ret ["  - " +:+ key_field +:+ ": " +:+ py_str key_value]) w
    = (inr lines, w).
Proof.
  induction features as [|f fs IH]; [by eexists|].
  intros [[v Hv] Hfs]%all_keyed_cons. destruct (IH Hfs) as [lines Hlines].
  eexists. simpl.
  rewrite (bind_run _ _ w w ["  - " +:+ key_field +:+ ": " +:+ py_str v])
    by (by rewrite (bind_run _ _ _ _ _ (feature_get_run _ _ _ _ Hv))).
  rewrite (bind_run _ _ _ _ _ Hlines). reflexivity.
Qed.

(** The report is written, and the state is as before, when the first ten
    new records have the key field. *)
Lemma generate_report_keyed (new : list (feature G))
    (modified : list (modified_entry G)) (key_field : string) (w : world G) :
  all_keyed key_field (slice_to 10 new) = true →
  ∃ report, generate_report new modified key_field w = (inr report, w).
Proof.
  intros Hk. unfold generate_report, datetime_now.
  rewrite (bind_run _ _ w w (clock w)) by reflexivity.
  destruct (nonempty new).
  - destruct (for_lines_keyed _ _ w Hk) as [lines Hlines].
    eexists. unfold bind in Hlines |- *. cbv beta in Hlines |- *.
    rewrite Hlines. reflexivity.
  - eexists. reflexivity.
Qed.

(** The report depends on the state through the clock only, and leaves the
    state as it is. *)
Lemma for_lines_state (features : list (feature G)) (key_field : string) :
  ∃ r, ∀ w : world G,
    for_lines features
      (λ feature, key_value <- feature_get feature key_field ;;
                  ret ["  - " +:+ key_field +:+ ": " +:+ py_str key_value]) w
    = (r, w).
Proof.
  induction features as [|f fs [r IH]]; [by eexists|]. simpl.
  unfold bind at 1 2, feature_get.
  destruct (getitem f key_field) as [v|]; [|by eexists].
  destruct r as [e|b].
  - exists (inl e). intros w. simpl. unfold bind. by rewrite IH.
  - eexists. intros w. simpl. unfold bind. by rewrite IH.
Qed.

Lemma generate_report_state (new : list (feature G))
    (modified : list (modified_entry G)) (key_field : string) :
  ∃ r, ∀ w : world G, generate_report new modified key_field w = (r (clock w), w).
Proof.
  exists (λ now, (generate_report new modified key_field (World ∅ ∅ now [] [] 0)).1).
  intros w. unfold generate_report, datetime_now.
  rewrite !(bind_run _ _ _ _ _ (eq_refl : gets clock _ = (inr _, _))).
  destruct (nonempty new); [|reflexivity].
  destruct (for_lines_state (slice_to 10 new) key_field) as [r Hl].
  pose proof (Hl w) as Hw. pose proof (Hl (World ∅ ∅ (clock w) [] [] 0)) as H0.
  unfold bind in Hw, H0 |- *. cbv beta in Hw, H0 |- *. rewrite Hw, H0.
  by destruct r.
Qed.

(** The records of an index are records of the layer. *)
Lemma indexed_record (features : list (feature G)) (key_field : string)
    (d : gmap string (feature G)) (k : string) (f : feature G) :
  (∀ k, d !! k = last (with_key key_field k features)) →
  d !! k = Some f → f ∈ features.
Proof. intros Hd Hk. rewrite Hd in Hk. by apply with_key_last in Hk as [? _]. Qed.

Lemma new_features_indexed (ds du : gmap string (feature G)) (f : feature G) :
  f ∈ new_features ds du → ∃ k, du !! k = Some f.
Proof.
  unfold new_features. intros (k & -> & Hk)%list_elem_of_fmap.
  apply new_keys_spec in Hk as [[f Hf] _]. exists k.
  by rewrite (lookup_total_correct _ _ _ Hf).
Qed.

(** The run of the analysis on two layers whose records all have the key
    field. *)
Lemma analyze_differences_keyed (hs hu : nat) (key_field : string) (w : world G)
    (ls lu : layer G) :
  layers w !! hs = Some ls → layers w !! hu = Some lu →
  all_keyed key_field (current_rows ls) = true →
  all_keyed key_field (current_rows lu) = true →
  ∃ ds du report,
    (∀ k, ds !! k = last (with_key key_field k (current_rows ls)))
    ∧ (∀ k, du !! k = last (with_key key_field k (current_rows lu)))
    ∧ generate_report (new_features ds du) (modified_features ds du key_field)
        key_field w = (inr report, w)
    ∧ analyze_differences hs hu key_field w
      = (inr (new_features ds du, modified_features ds du key_field, report),
         set_progress 100 w).
Proof.
  intros Hs Hu Ks Ku.
  destruct (index_features_empty _ _ (set_progress 10 w) Ks) as (ds & Hds & Hls).
  destruct (index_features_empty _ _ (set_progress 30 w) Ku) as (du & Hdu & Hlu).
  assert (Hnew : all_keyed key_field (slice_to 10 (new_features ds du)) = true).
  { apply all_keyed_intro. intros f Hf. apply subseteq_take in Hf.
    apply new_features_indexed in Hf as [k Hf].
    apply (all_keyed_elem _ _ _ Ku). by apply (indexed_record _ _ _ _ _ Hlu Hf). }
  destruct (generate_report_keyed _ (modified_features ds du key_field) _ w Hnew)
    as [report Hrep].
  assert (Hrep' : generate_report (new_features ds du)
                    (modified_features ds du key_field) key_field (set_progress 90 w)
                  = (inr report, set_progress 90 w)).
  { destruct (generate_report_state (new_features ds du)
                (modified_features ds du key_field) key_field) as [r Hr].
    rewrite Hr in Hrep |- *. simpl. by injection Hrep as ->. }
  exists ds, du, report. split; [done|]. split; [done|]. split; [done|].
  unfold analyze_differences.
  rewrite (bind_run _ _ _ _ _ (setProgress_run _ _)).
  rewrite (bind_run _ _ _ _ _ (getFeatures_run hs ls (set_progress 10 w) Hs)).
  rewrite (bind_run _ _ _ _ _ Hds).
  rewrite (bind_run _ _ _ _ _ (setProgress_run _ _)).
  rewrite (bind_run _ _ _ _ _ (getFeatures_run hu lu (set_progress 30 w) Hu)).
  rewrite (bind_run _ _ _ _ _ Hdu).
  rewrite !(bind_run _ _ _ _ _ (setProgress_run _ _)).
  rewrite (bind_run _ _ _ _ _ Hrep').
  by rewrite (bind_run _ _ _ _ _ (setProgress_run _ _)).
Qed.

(** The analysis of two live layers.  When every record of both layers has
    the key field, the analysis returns the classification of the two
    indices, each of which holds under a key the last record of its layer
    with that key; the new records and the records of the modified entries
    are records of the user layer; the only change of the state is the
    progress, at 100.  When a record of the shared layer lacks the key field
    the analysis raises [KeyError] with the progress at 10, and when a
    record of the user layer does, with the progress at 30. *)
Theorem analyze_differences_result (hs hu : nat) (key_field : string) (w : world G)
    (ls lu : layer G) :
  layers w !! hs = Some ls → layers w !! hu = Some lu →
  if all_keyed key_field (current_rows ls) then
    if all_keyed key_field (current_rows lu) then
      ∃ ds du report,
        (∀ k, ds !! k = last (with_key key_field k (current_rows ls)))
        ∧ (∀ k, du !! k = last (with_key key_field k (current_rows lu)))
        ∧ (∀ f, f ∈ new_features ds du → f ∈ current_rows lu)
        ∧ (∀ e, e ∈ modified_features ds du key_field →
                m_feature e ∈ current_rows lu)
        ∧ analyze_differences hs hu key_field w
          = (inr (new_features ds du, modified_features ds du key_field, report),
             set_progress 100 w)
    else analyze_differences hs hu key_field w
         = (inl (KeyError key_field), set_progress 30 w)
  else analyze_differences hs hu key_field w
       = (inl (KeyError key_field), set_progress 10 w).
Proof.
  intros Hs Hu.
  destruct (all_keyed key_field (current_rows ls)) eqn:Ks.
  2:{ unfold analyze_differences.
      rewrite (bind_run _ _ _ _ _ (setProgress_run _ _)).
      rewrite (bind_run _ _ _ _ _ (getFeatures_run hs ls (set_progress 10 w) Hs)).
      by rewrite (bind_raise _ _ _ _ _ (index_features_unkeyed _ _ _ _ Ks)). }
  destruct (all_keyed key_field (current_rows lu)) eqn:Ku.
  2:{ destruct (index_features_empty _ _ (set_progress 10 w) Ks) as (ds & Hds & _).
      unfold analyze_differences.
      rewrite (bind_run _ _ _ _ _ (setProgress_run _ _)).
      rewrite (bind_run _ _ _ _ _ (getFeatures_run hs ls (set_progress 10 w) Hs)).
      rewrite (bind_run _ _ _ _ _ Hds).
      rewrite (bind_run _ _ _ _ _ (setProgress_run _ _)).
      rewrite (bind_run _ _ _ _ _ (getFeatures_run hu lu (set_progress 30 w) Hu)).
      by rewrite (bind_raise _ _ _ _ _ (index_features_unkeyed _ _ _ _ Ku)). }
  destruct (analyze_differences_keyed hs hu key_field w ls lu Hs Hu Ks Ku)
    as (ds & du & report & Hls & Hlu & _ & Hrun).
  exists ds, du, report. split; [done|]. split; [done|]. split; [|split; [|done]].
  - intros f [k Hf]%new_features_indexed. by apply (indexed_record _ _ _ _ _ Hlu Hf).
  - intros e He. unfold modified_features in He.
    apply list_elem_of_In, in_flat_map in He as (k & Hk & He).
    apply list_elem_of_In in Hk, He.
    apply common_keys_spec in Hk as [_ [f Hf]].
    apply classify_key_spec in He as [-> _]. simpl.
    rewrite (lookup_total_correct _ _ _ Hf).
    by apply (indexed_record _ _ _ _ _ Hlu Hf).
Qed.

Lemma flat_map_nil {A B} (f : A → list B) (l : list A) :
  (∀ x, x ∈ l → f x = []) → flat_map f l = [].
Proof.
  induction l as [|x l IH]; [done|]. intros Hf. simpl.
  rewrite Hf by (apply elem_of_cons; by left).
  apply IH. intros y Hy. apply Hf, elem_of_cons. by right.
Qed.

(** The analysis of a layer against a layer with the same records, or
    against itself: when the records have the key field, none of their
    attributes is a float that is not a number, and their valid geometries
    equal themselves, there is no new record and no modified record, and the
    report is the one of two layers in step. *)
Theorem analysis_of_equal_layers (hs hu : nat) (key_field : string) (w : world G)
    (ls lu : layer G) :
  layers w !! hs = Some ls → layers w !! hu = Some lu →
  current_rows lu = current_rows ls →
  all_keyed key_field (current_rows ls) = true →
  (∀ f name v, f ∈ current_rows ls → getitem f name = Some v → is_nan v = false) →
  (∀ f g, f ∈ current_rows ls → geometry f = Some g → isGeosValid g = true →
          equals g g = true) →
  analyze_differences hs hu key_field w
  = (inr ([], [],
          Text.join nl
            ["=== RAPPORTO AGGIORNAMENTO GEOPACKAGE ===";
             "Data/Ora: " +:+ strftime_report (clock w);
             "Campo chiave utilizzato: " +:+ key_field;
             "";
             "✅ NESSUNA DIFFERENZA TROVATA";
             "I layer sono già sincronizzati."]),
     set_progress 100 w).
Proof.
  intros Hs Hu Hrows Ks Hnan Hgeo.
  assert (Ku : all_keyed key_field (current_rows lu) = true) by (by rewrite Hrows).
  destruct (analyze_differences_keyed hs hu key_field w ls lu Hs Hu Ks Ku)
    as (ds & du & report & Hls & Hlu & Hrep & Hrun).
  assert (du = ds) as ->.
  { apply map_eq. intros k. by rewrite Hls, Hlu, Hrows. }
  assert (Hnew : new_features ds ds = []).
  { unfold new_features, new_keys.
    replace (dom ds ∖ dom ds) with (∅ : gset string) by set_solver.
    by rewrite elements_empty. }
  assert (Hmod : modified_features ds ds key_field = []).
  { unfold modified_features. apply flat_map_nil. intros k Hk.
    apply common_keys_spec in Hk as [[f Hf] _].
    unfold classify_key. rewrite (lookup_total_correct _ _ _ Hf).
    assert (Hin : f ∈ current_rows ls) by (by apply (indexed_record _ _ _ _ _ Hls Hf)).
    rewrite compare_features_self; [done | by eauto | by eauto]. }
  rewrite Hrun, Hnew, Hmod. rewrite Hnew, Hmod in Hrep.
  by injection Hrep as <-.
Qed.

End AnalysisFacts.

Section AnalysisExamples.
#[local] Existing Instance Example.runtime.

(** The analysis of the two example layers, and of the shared one against
    itself. *)
Lemma analyze_differences_result_witness :
  ∃ ds du report,
    (∀ k, ds !! k = last (with_key "fuuid" k (current_rows Example.shared)))
    ∧ (∀ k, du !! k = last (with_key "fuuid" k (current_rows Example.user)))
    ∧ (∀ f, f ∈ new_features ds du → f ∈ current_rows Example.user)
    ∧ (∀ e, e ∈ modified_features ds du "fuuid" →
            m_feature e ∈ current_rows Example.user)
    ∧ analyze_differences 0 1 "fuuid" (Example.world_with [])
      = (inr (new_features ds du, modified_features ds du "fuuid", report),
         set_progress 100 (Example.world_with [])).
Proof.
  exact (analyze_differences_result 0 1 "fuuid" (Example.world_with [])
           Example.shared Example.user eq_refl eq_refl).
Defined.

Lemma analysis_of_equal_layers_witness :
  ∃ report,
    analyze_differences 0 0 "fuuid" (Example.world_with [])
    = (inr ([], [], report), set_progress 100 (Example.world_with [])).
Proof.
  eexists.
  apply (analysis_of_equal_layers 0 0 "fuuid" (Example.world_with [])
           Example.shared Example.shared eq_refl eq_refl eq_refl eq_refl).
  - intros f name v [->|[]%elem_of_nil]%elem_of_cons. unfold getitem. simpl.
    repeat (destruct (String.eqb name _); [by intros [= <-]|]). done.
  - intros f g [->|[]%elem_of_nil]%elem_of_cons [= <-] _. reflexivity.
Defined.

End AnalysisExamples.

(** ** The record built for an addition *)

Section BuiltRecordFacts.
Context {G : Type} `{!Geometry G} {runtime : Runtime}.

Lemma assoc_set_names (name : string) (v : pyvalue) (l : list (string * pyvalue)) :
  (assoc_set name v l).*1 = l.*1.
Proof.
  induction l as [|[n x] l IH]; [done|]. simpl.
  destruct (String.eqb name n); simpl; [done | f_equal; apply IH].
Qed.

Lemma assoc_assoc_set (name m : string) (v : pyvalue) (l : list (string * pyvalue)) :
  assoc m (assoc_set name v l)
  = if String.eqb m name then (λ _, v) <$> assoc m l else assoc m l.
Proof.
  induction l as [|[n x] l IH]; simpl; [by destruct (String.eqb m name)|].
  destruct (String.eqb name n) eqn:En; simpl.
  - apply String.eqb_eq in En as ->. by destruct (String.eqb m n).
  - rewrite IH. destruct (String.eqb m n) eqn:Em; [|done].
    apply String.eqb_eq in Em as ->.
    rewrite String.eqb_sym in En. by rewrite En.
Qed.

Lemma getitem_Some_name (f : feature G) (name : string) (v : pyvalue) :
  getitem f name = Some v → name ∈ names f.
Proof.
  unfold names, getitem. induction (attributes f) as [|[n x] l IH]; [done|].
  simpl. destruct (String.eqb name n) eqn:E.
  - apply String.eqb_eq in E as ->. intros _. apply elem_of_cons. by left.
  - intros Hv. apply elem_of_cons. right. by apply IH.
Qed.

Lemma assoc_default_names (fields : list string) (name : string) :
  assoc name ((λ n, (n, NULL)) <$> fields)
  = if name_in name fields then Some NULL else None.
Proof.
  induction fields as [|n l IH]; [done|]. simpl.
  by destruct (String.eqb name n).
Qed.

(** What the loop over the fields does to a record [nf], whatever [nf] is. *)
Lemma copy_fields_spec (fields : list string) (feature nf : feature G) :
  names (copy_fields fields feature nf) = names nf
  ∧ id (copy_fields fields feature nf) = id nf
  ∧ geometry (copy_fields fields feature nf) = geometry nf
  ∧ ∀ name,
      getitem (copy_fields fields feature nf) name
      = (λ old, if name_in name fields then default old (getitem feature name) else old)
          <$> getitem nf name.
Proof.
  unfold copy_fields. revert nf. induction fields as [|field fs IH]; intros nf; simpl.
  { repeat split; try done. intros name. by destruct (getitem nf name). }
  set (nf' := if name_in field (names feature)
              then match getitem feature field with
                   | Some v => setitem nf field v
                   | None => nf
                   end
              else nf).
  assert (Hstep : names nf' = names nf ∧ id nf' = id nf ∧ geometry nf' = geometry nf
          ∧ ∀ name, getitem nf' name
                    = (λ old, if String.eqb name field
                              then default old (getitem feature name) else old)
                        <$> getitem nf name).
  { unfold nf'. destruct (name_in field (names feature)) eqn:Ein.
    - apply name_in_elem, getitem_name_in in Ein as [v Hv]. rewrite Hv.
      repeat split; try done.
      + unfold names, setitem. simpl. apply assoc_set_names.
      + intros name. unfold getitem, setitem. simpl. rewrite assoc_assoc_set.
        destruct (String.eqb name field) eqn:E.
        * apply String.eqb_eq in E as ->. unfold getitem in Hv. rewrite Hv.
          by destruct (assoc field (attributes nf)).
        * by destruct (assoc name (attributes nf)).
    - repeat split; try done. intros name.
      destruct (String.eqb name field) eqn:E.
      + apply String.eqb_eq in E as ->.
        assert (Hnone : getitem feature field = None).
        { destruct (getitem feature field) as [v|] eqn:Hv; [|done].
          apply getitem_Some_name, name_in_elem in Hv. congruence. }
        rewrite Hnone. by destruct (getitem nf field).
      + by destruct (getitem nf name). }
  destruct Hstep as (Hn & Hi & Hg & Hv).
  destruct (IH nf') as (Hn' & Hi' & Hg' & Hv').
  split; [congruence|]. split; [congruence|]. split; [congruence|].
  intros name. rewrite Hv', Hv.
  destruct (getitem nf name) as [old|]; [|done]. simpl. f_equal.
  unfold name_in. simpl.
  by destruct (String.eqb name field), (existsb (String.eqb name) fs),
       (getitem feature name).
Qed.

(** The record that an addition hands to the shared layer has the fields of
    the shared layer, in their order; under each of them the value of the
    user record, or the null of an attribute never set when the user record
    has no such field; nothing under any other name, so that the fields
    that only the user layer has are left out; and the geometry of the user
    record. *)
Theorem new_record_follows_shared_schema (fields : list string) (feature : feature G) :
  let new_feat := copy_geometry feature (copy_fields fields feature (QgsFeature fields)) in
  names new_feat = fields
  ∧ geometry new_feat = geometry feature
  ∧ (∀ name, name ∈ fields →
             getitem new_feat name = Some (default NULL (getitem feature name)))
  ∧ (∀ name, name ∉ fields → getitem new_feat name = None).
Proof.
  intros new_feat.
  destruct (copy_fields_spec fields feature (QgsFeature fields)) as (Hn & _ & Hg & Hv).
  assert (Hnames : names new_feat = fields).
  { unfold new_feat, copy_geometry.
    transitivity (names (copy_fields fields feature (QgsFeature fields)));
      [by destruct (geometry feature)|].
    rewrite Hn. unfold names, QgsFeature. simpl.
    rewrite <- list_fmap_compose. apply list_fmap_id. }
  assert (Hget : ∀ name, getitem new_feat name
                         = getitem (copy_fields fields feature (QgsFeature fields)) name).
  { intros name. unfold new_feat, copy_geometry. by destruct (geometry feature). }
  split; [done|]. split; [|split].
  - unfold new_feat, copy_geometry.
    destruct (geometry feature) eqn:E; [done|]. by rewrite Hg.
  - intros name Hin. rewrite Hget, Hv. unfold getitem at 2, QgsFeature. simpl.
    rewrite assoc_default_names.
    apply name_in_elem in Hin. rewrite Hin. simpl.
    by destruct (getitem feature name).
  - intros name Hin. rewrite Hget, Hv. unfold getitem at 2, QgsFeature. simpl.
    rewrite assoc_default_names.
    destruct (name_in name fields) eqn:E; [|done].
    by apply name_in_elem in E.
Qed.

End BuiltRecordFacts.

(** ** Step 4: the additions *)

Section AdditionFacts.
Context {G : Type} `{!Geometry G} {runtime : Runtime}.
Local Open Scope run_scope.

Lemma set_script_nil (w : world G) : script w = [] → set_script [] w = w.
Proof. destruct w; simpl. by intros ->. Qed.

(** A writing call that the storage layer lets go ahead. *)
Lemma storage_call_goes (w : world G) :
  goes_ahead 1 (script w) →
  storage_call w = (inr None, set_script (tail (script w)) w).
Proof.
  unfold goes_ahead, storage_call, bind, next_outcome.
  destruct (script w) as [|o s] eqn:E; simpl.
  - intros _. by rewrite set_script_nil.
  - intros Ho. apply Forall_cons in Ho as [-> _]. done.
Qed.

Lemma goes_ahead_S (n : nat) (s : list outcome) :
  goes_ahead (S n) s → goes_ahead 1 s ∧ goes_ahead n (tail s).
Proof.
  unfold goes_ahead. destruct s as [|o s]; simpl.
  - intros _. split; [done|]. by rewrite take_nil.
  - intros [-> Hs]%Forall_cons. split; [|done]. rewrite take_0. by apply Forall_cons.
Qed.

Lemma fresh_id_below (b : list (feature G)) (r : feature G) :
  r ∈ b → (fresh_id b < id r)%Z.
Proof.
  unfold fresh_id. induction b as [|x b IH]; [by intros ?%elem_of_nil|].
  rewrite fmap_cons. cbn [foldr].
  intros [->|Hr]%elem_of_cons; [lia|]. specialize (IH Hr). lia.
Qed.

Lemma fresh_id_fresh (b : list (feature G)) : fresh_id b ∉ id <$> b.
Proof.
  intros (r & Hid & Hr)%list_elem_of_fmap. apply fresh_id_below in Hr. lia.
Qed.

Lemma addFeature_layer (h : nat) (f : feature G) (w : world G) (l : layer G)
    (b : list (feature G)) :
  layers w !! h = Some l → edit_buffer l = Some b →
  (goes_ahead 1 (script w)
   ∧ addFeature h f w
     = (inr true,
        set_layers (<[h := set_edit_buffer (Some (b ++ [buffered b f])%list) l]> (layers w))
          (set_script (tail (script w)) w)))
  ∨ (¬ goes_ahead 1 (script w)
     ∧ ∃ s, (addFeature h f w = (inr false, set_script s w)
             ∨ ∃ e, addFeature h f w = (inl e, set_script s w))).
Proof.
  intros Hl Hb. unfold addFeature.
  rewrite (bind_run _ _ _ _ _ (get_layer_run _ _ _ Hl)).
  destruct (script w) as [|[|errors|e] s] eqn:E.
  - left. assert (Hgo : goes_ahead 1 (script w)) by (rewrite E; by apply Forall_nil).
    split; [by apply Forall_nil|].
    rewrite (bind_run _ _ _ _ _ (storage_call_goes _ Hgo)). by rewrite Hb, E.
  - left. assert (Hgo : goes_ahead 1 (script w))
      by (rewrite E; unfold goes_ahead; simpl; by repeat constructor).
    split; [unfold goes_ahead; simpl; by repeat constructor|].
    rewrite (bind_run _ _ _ _ _ (storage_call_goes _ Hgo)). by rewrite Hb, E.
  - right. split; [by intros [[=] _]%Forall_cons|]. exists s. left.
    by rewrite (bind_run _ _ _ _ _ (storage_call_refused _ _ _ E)).
  - right. split; [by intros [[=] _]%Forall_cons|]. exists s. right. exists e.
    by rewrite (bind_raise _ _ _ _ _ (storage_call_raises _ _ _ E)).
Qed.

(** One turn of the loop of the additions. *)
Lemma add_one_layer (h : nat) (key_field : string) (f : feature G) (w : world G)
    (l : layer G) (b : list (feature G)) :
  layers w !! h = Some l → edit_buffer l = Some b →
  (goes_ahead 1 (script w)
   ∧ add_one h key_field f w
     = (inr tt,
        set_layers
          (<[h := set_edit_buffer (Some (b ++ [buffered b (built (fields l) f)])%list) l]>
             (layers w))
          (set_script (tail (script w)) w)))
  ∨ (¬ goes_ahead 1 (script w)
     ∧ layers (add_one h key_field f w).2 = layers w
     ∧ files (add_one h key_field f w).2 = files w).
Proof.
  intros Hl Hb. unfold add_one.
  rewrite (bind_run _ _ _ _ _ (layer_fields_run _ _ _ Hl)).
  fold (built (fields l) f).
  destruct (addFeature_layer h (built (fields l) f) w l b Hl Hb)
    as [[Hgo Hadd] | [Hno [s [Hadd | [e Hadd]]]]].
  - left. split; [done|]. by rewrite (bind_run _ _ _ _ _ Hadd).
  - right. split; [done|]. rewrite (bind_run _ _ _ _ _ Hadd). simpl.
    unfold bind, feature_get. by destruct (getitem f key_field).
  - right. split; [done|]. by rewrite (bind_raise _ _ _ _ _ Hadd).
Qed.

(** The loop of the additions, from a layer in edit mode. *)
Lemma add_loop (h : nat) (key_field : string) (new : list (feature G)) :
  ∀ (w : world G) (l : layer G) (b : list (feature G)),
    layers w !! h = Some l → edit_buffer l = Some b →
    ∃ kept added,
      layers (for_each new (add_one h key_field) w).2
      = <[h := set_edit_buffer (Some (b ++ added)%list) l]> (layers w)
      ∧ files (for_each new (add_one h key_field) w).2 = files w
      ∧ sublist kept new
      ∧ Forall2 (λ f r, attributes r = attributes (built (fields l) f)
                        ∧ geometry r = geometry (built (fields l) f)) kept added
      ∧ (NoDup (id <$> b) → NoDup (id <$> (b ++ added)%list))
      ∧ (goes_ahead (length new) (script w) →
         kept = new ∧ (for_each new (add_one h key_field) w).1 = inr tt).
Proof.
  induction new as [|f new IH]; intros w l b Hl Hb.
  { exists [], []. simpl. rewrite app_nil_r, (set_edit_buffer_id _ _ Hb), insert_id by done.
    repeat split; try done; constructor. }
  simpl.
  destruct (add_one_layer h key_field f w l b Hl Hb) as [[Hgo Hadd] | (Hno & Hlay & Hfil)].
  - rewrite (bind_run _ _ _ _ _ Hadd).
    set (r := buffered b (built (fields l) f)) in *.
    set (l1 := set_edit_buffer (Some (b ++ [r])%list) l).
    set (w1 := set_layers (<[h := l1]> (layers w)) (set_script (tail (script w)) w)).
    destruct (IH w1 l1 (b ++ [r])%list) as (kept & added & Hlay & Hfil & Hsub & Hbuilt & Hnd & Hall).
    { simpl. by rewrite lookup_insert_eq. }
    { done. }
    exists (f :: kept), (r :: added).
    split; [|split; [|split; [|split; [|split]]]].
    + rewrite Hlay. simpl. rewrite insert_insert_eq. by rewrite <- app_assoc.
    + by rewrite Hfil.
    + by apply sublist_skip.
    + apply Forall2_cons. split; [done | exact Hbuilt].
    + intros Hb0. rewrite (app_assoc b [r] added : (b ++ r :: added = (b ++ [r]) ++ added)%list).
      apply Hnd. rewrite fmap_app. simpl. apply NoDup_app. split; [done|]. split.
      * intros x Hx [= ->]%list_elem_of_singleton. by apply (fresh_id_fresh b).
      * apply NoDup_singleton.
    + intros [_ Hrest]%goes_ahead_S.
      destruct (Hall Hrest) as [-> Hres]. by split.
  - destruct (add_one h key_field f w) as [[e|[]] w'] eqn:Hrun; simpl in Hlay, Hfil.
    + rewrite (bind_raise _ _ _ _ _ Hrun). simpl. exists [], [].
      rewrite app_nil_r, (set_edit_buffer_id _ _ Hb), insert_id by done.
      split; [done|]. split; [done|]. split; [apply sublist_nil_l|].
      split; [constructor|]. split; [done|].
      by intros [Hgo _]%goes_ahead_S.
    + rewrite (bind_run _ _ _ _ _ Hrun).
      destruct (IH w' l b) as (kept & added & Hlay' & Hfil' & Hsub & Hbuilt & Hnd & _).
      { by rewrite Hlay. }
      { done. }
      exists kept, added.
      split; [by rewrite Hlay', Hlay|]. split; [by rewrite Hfil', Hfil|].
      split; [by apply sublist_cons|]. split; [done|]. split; [done|].
      by intros [Hgo _]%goes_ahead_S.
Qed.

(** Step 4 is the loop, after a message to the feedback. *)
Lemma add_new_records_loop (h : nat) (new : list (feature G)) (key_field : string)
    (w : world G) :
  ∃ w0, layers w0 = layers w ∧ files w0 = files w ∧ script w0 = script w
        ∧ (add_new_records h new key_field w).2
          = (for_each new (add_one h key_field) w0).2
        ∧ ((for_each new (add_one h key_field) w0).1 = inr tt →
           ∃ lines, (add_new_records h new key_field w).1 = inr lines).
Proof.
  unfold add_new_records. destruct new as [|f new].
  { exists w. repeat split; try done. by eexists. }
  change (nonempty (f :: new)) with true. cbv iota.
  rewrite (bind_run _ _ _ _ _ (pushInfo_run _ _)).
  set (w0 := set_pushed _ w). exists w0.
  split; [done|]. split; [done|]. split; [done|].
  unfold bind. destruct (for_each _ _ w0) as [[e|[]] w1]; simpl; [done|].
  split; [done|]. intros _. by eexists.
Qed.

(** The additions only append to the edit buffer.  From a layer in edit
    mode, whatever the storage layer answers: the rows that the buffer had
    are still there, in their order, and what follows them are rows built
    for new records, in the order of the new records, each with the
    attributes and the geometry of the record built for it; no file has
    changed; the ids of the rows stay distinct.  When the storage layer lets
    every addition go ahead, there is one such row for every new record and
    the step returns. *)
Theorem additions_append (h : nat) (new : list (feature G)) (key_field : string)
    (w : world G) (l : layer G) (b : list (feature G)) :
  layers w !! h = Some l → edit_buffer l = Some b →
  ∃ kept added,
    layers (add_new_records h new key_field w).2
    = <[h := set_edit_buffer (Some (b ++ added)%list) l]> (layers w)
    ∧ files (add_new_records h new key_field w).2 = files w
    ∧ sublist kept new
    ∧ Forall2 (λ f r, attributes r = attributes (built (fields l) f)
                      ∧ geometry r = geometry (built (fields l) f)) kept added
    ∧ (NoDup (id <$> b) → NoDup (id <$> (b ++ added)%list))
    ∧ (goes_ahead (length new) (script w) →
       kept = new ∧ ∃ lines, (add_new_records h new key_field w).1 = inr lines).
Proof.
  intros Hl Hb.
  destruct (add_new_records_loop h new key_field w) as (w0 & Hl0 & Hf0 & Hs0 & Hst & Hres).
  destruct (add_loop h key_field new w0 l b) as (kept & added & Hlay & Hfil & Hsub & Hbuilt & Hnd & Hall);
    [by rewrite Hl0 | done |].
  exists kept, added. rewrite Hst, Hlay, Hfil, Hl0, Hf0.
  repeat split; try done.
  - rewrite <- Hs0 in H. by apply Hall in H as [? _].
  - rewrite <- Hs0 in H. apply Hall in H as [_ Hr]. by apply Hres.
Qed.

End AdditionFacts.

Section AdditionExamples.
#[local] Existing Instance Example.runtime.

(** The addition of B to the shared layer of the example, in edit mode. *)
Lemma additions_append_witness :
  let l := set_edit_buffer (Some (rows Example.shared)) Example.shared in
  let w := set_layers (<[0%nat := l]> (layers (Example.world_with [])))
             (Example.world_with []) in
  ∃ kept added,
    layers (add_new_records 0 Example.new_B "fuuid" w).2
    = <[0%nat := set_edit_buffer (Some (rows Example.shared ++ added)%list) l]> (layers w)
    ∧ files (add_new_records 0 Example.new_B "fuuid" w).2 = files w
    ∧ sublist kept Example.new_B
    ∧ Forall2 (λ f r, attributes r = attributes (built (fields l) f)
                      ∧ geometry r = geometry (built (fields l) f)) kept added
    ∧ (NoDup (id <$> rows Example.shared) →
       NoDup (id <$> (rows Example.shared ++ added)%list))
    ∧ (goes_ahead (length Example.new_B) (script w) →
       kept = Example.new_B
       ∧ ∃ lines, (add_new_records 0 Example.new_B "fuuid" w).1 = inr lines).
Proof.
  intros l w.
  exact (additions_append 0 Example.new_B "fuuid" w l (rows Example.shared)
           eq_refl eq_refl).
Defined.

End AdditionExamples.

(** ** Step 5: the modifications *)

Section UpdateFacts.
Context {G : Type} `{!Geometry G} {runtime : Runtime}.
Local Open Scope run_scope.

Lemma built_names (fds : list string) (f : feature G) : names (built fds f) = fds.
Proof.
  unfold built, copy_geometry.
  destruct (copy_fields_spec fds f (QgsFeature fds)) as (Hn & _).
  transitivity (names (copy_fields fds f (QgsFeature fds)));
    [by destruct (geometry f)|].
  rewrite Hn. unfold names, QgsFeature. simpl.
  rewrite <- list_fmap_compose. apply list_fmap_id.
Qed.

(** A change of the attribute at an index whose name is not [m] leaves the
    value under [m] as it is. *)
Lemma assoc_alter_other (m : string) (v : pyvalue) (l : list (string * pyvalue)) :
  ∀ i, (∀ p, l !! i = Some p → p.1 ≠ m) →
       assoc m (alter (λ p, (p.1, v)) i l) = assoc m l.
Proof.
  induction l as [|[n x] l IH]; intros i Hi; [by destruct i|].
  destruct i as [|i]; simpl.
  - destruct (String.eqb m n) eqn:E; [|done].
    apply String.eqb_eq in E as ->. by destruct (Hi (n, x) eq_refl).
  - destruct (String.eqb m n); [done|]. apply IH. intros p Hp. by apply Hi.
Qed.

Lemma names_alter (v : pyvalue) (l : list (string * pyvalue)) (i : nat) :
  (alter (λ p, (p.1, v)) i l).*1 = l.*1.
Proof.
  revert i. induction l as [|[n x] l IH]; intros [|i]; simpl; try done.
  f_equal. apply IH.
Qed.

Section Keys.
Variables (h : nat) (key_field : string) (fds : list string).
Variable view : list (Z * option pyvalue).

Local Abbreviation J := (keys_are (G := G) h key_field fds view).

Lemma keys_are_pushed (w : world G) (p : list string) :
  J w → J (set_pushed p w).
Proof. intros (l & b & ?). by exists l, b. Qed.

Lemma keys_are_script (w : world G) (s : list outcome) :
  J w → J (set_script s w).
Proof. intros (l & b & ?). by exists l, b. Qed.

(** A buffer of rows that look the same takes the place of the buffer. *)
Lemma keys_are_buffer (w : world G) (l : layer G) (b b' : list (feature G)) :
  layers w !! h = Some l → edit_buffer l = Some b →
  J w →
  key_view key_field <$> b' = key_view key_field <$> b →
  Forall (λ r, names r = fds) b' →
  J
    (set_layers (<[h := set_edit_buffer (Some b') l]> (layers w)) w).
Proof.
  intros Hl Hb (l0 & b0 & Hl0 & Hb0 & Hf & Hv & Hc) Hv' Hc'.
  assert (l0 = l) as -> by congruence. assert (b0 = b) as -> by congruence.
  exists (set_edit_buffer (Some b') l), b'. simpl. rewrite lookup_insert_eq.
  repeat split; try done. by rewrite Hv'.
Qed.

Lemma changeAttributeValue_keys (fid : Z) (i : nat) (v : pyvalue) :
  (∀ name, fds !! i = Some name → name ≠ key_field) →
  preserves (J) (changeAttributeValue h fid i v).
Proof.
  intros Hi w HJ. pose proof HJ as (l & b & Hl & Hb & Hf & Hv & Hc).
  unfold changeAttributeValue, bind, get_layer. rewrite Hl.
  destruct (storage_call_world w) as [s Hw].
  destruct (storage_call w) as [[e|[errors|]] w1]; simpl in *; subst w1;
    try by apply keys_are_script.
  rewrite Hb. destruct (existsb _ _ && _); simpl; [|by apply keys_are_script].
  apply (keys_are_buffer (set_script s w) l b); [done | done | by apply keys_are_script | |].
  - rewrite <- list_fmap_compose. apply list_fmap_ext. intros j r Hr. simpl.
    destruct (has_id fid r); [|done]. unfold key_view, getitem. simpl. f_equal.
    apply assoc_alter_other. intros p Hp.
    assert (Hn : names r = fds)
      by (eapply Forall_lookup_1 in Hc; [exact Hc | exact Hr]).
    apply Hi. rewrite <- Hn. unfold names. by rewrite list_lookup_fmap, Hp.
  - apply Forall_fmap. eapply Forall_impl; [exact Hc|]. intros r Hn. simpl.
    destruct (has_id fid r); [|done]. unfold names. simpl. by rewrite names_alter.
Qed.

Lemma changeGeometry_keys (fid : Z) (g : G) :
  preserves (J) (changeGeometry h fid g).
Proof.
  intros w HJ. pose proof HJ as (l & b & Hl & Hb & Hf & Hv & Hc).
  unfold changeGeometry, bind, get_layer. rewrite Hl.
  destruct (storage_call_world w) as [s Hw].
  destruct (storage_call w) as [[e|[errors|]] w1]; simpl in *; subst w1;
    try by apply keys_are_script.
  rewrite Hb. destruct (existsb _ _); simpl; [|by apply keys_are_script].
  apply (keys_are_buffer (set_script s w) l b); [done | done | by apply keys_are_script | |].
  - rewrite <- list_fmap_compose. apply list_fmap_ext. intros j r Hr. simpl.
    by destruct (has_id fid r).
  - apply Forall_fmap. eapply Forall_impl; [exact Hc|]. intros r Hn. simpl.
    by destruct (has_id fid r).
Qed.

(** One turn of the loop over the fields: the key field is skipped. *)
Lemma update_field_keys (f : feature G) (fid : Z) (i : nat) (name : string) :
  fds !! i = Some name →
  preserves (J) (update_field h key_field f fid (i, name)).
Proof.
  intros Hi. unfold update_field.
  destruct (String.eqb name key_field) eqn:E; [apply preserves_ret|].
  apply String.eqb_neq in E.
  destruct (name_in name (names f)); [|apply preserves_ret].
  apply preserves_bind; [apply preserves_feature_get | intros v].
  apply preserves_bind; [|intros; apply preserves_ret].
  apply changeAttributeValue_keys. intros name' Hn. congruence.
Qed.

Lemma preserves_for_each_elem {A} (I : world G → Prop) (l : list A)
    (body : A → M G unit) :
  (∀ x, x ∈ l → preserves I (body x)) → preserves I (for_each l body).
Proof.
  induction l as [|x l IH]; intros Hb; simpl; [apply preserves_ret|].
  apply preserves_bind.
  - apply Hb, elem_of_cons. by left.
  - intros _. apply IH. intros y Hy. apply Hb, elem_of_cons. by right.
Qed.

Lemma update_one_keys (e : modified_entry G) :
  preserves (J) (update_one h key_field e).
Proof.
  intros w HJ. pose proof HJ as (l & b & Hl & Hb & Hf & Hv & Hc).
  unfold update_one, getFeatures_filtered.
  rewrite (bind_run _ _ w w (List.filter
             (Expr.selects (filter_expression key_field (m_key e))) (current_rows l)))
    by (by rewrite (bind_run _ _ _ _ _ (get_layer_run _ _ _ Hl))).
  destruct (List.filter _ _) as [|existing rest]; [done|].
  rewrite (bind_run _ _ _ _ _ (layer_fields_run _ _ _ Hl)). rewrite Hf.
  revert w HJ Hl.
  change (preserves (J)
            (for_each (imap pair fds)
               (update_field h key_field (m_feature e) (id existing)) ;;
             match geometry (m_feature e) with
             | Some g => _ <- changeGeometry h (id existing) g ;; ret tt
             | None => ret tt
             end)) with
    (∀ w, J w →
          J
            ((for_each (imap pair fds)
                (update_field h key_field (m_feature e) (id existing)) ;;
              match geometry (m_feature e) with
              | Some g => _ <- changeGeometry h (id existing) g ;; ret tt
              | None => ret tt
              end) w).2).
  intros w HJ _. revert w HJ.
  apply preserves_bind.
  - apply preserves_for_each_elem. intros [i name] Hin.
    apply elem_of_lookup_imap in Hin as (j & y & [= -> ->] & Hj).
    by apply update_field_keys.
  - intros _. destruct (geometry (m_feature e)); [|apply preserves_ret].
    apply preserves_bind; [apply changeGeometry_keys | intros; apply preserves_ret].
Qed.

Lemma update_existing_keys (modified : list (modified_entry G)) :
  preserves (J) (update_existing h modified key_field).
Proof.
  unfold update_existing. destruct (nonempty modified); [|apply preserves_ret].
  apply preserves_bind;
    [apply preserves_pushInfo; intros; by apply keys_are_pushed | intros _].
  apply preserves_bind; [|intros; apply preserves_ret].
  apply preserves_for_each. intros e. apply update_one_keys.
Qed.

End Keys.

(** Steps 4 and 5 keep the rows that the layer had, with their ids and their
    keys.  From a layer in edit mode whose rows have the fields of the
    layer, and whatever the storage layer answers and whichever records the
    filters select: afterwards the layer is in edit mode, the rows it had
    are the first rows of the buffer, in their order, each with its id and
    with its value under the key field; every row has the fields of the
    layer; and nothing else of the layer, no other layer and no file has
    changed. *)
Theorem changes_keep_ids_and_keys (h : nat) (new : list (feature G))
    (modified : list (modified_entry G)) (key_field : string)
    (w : world G) (l : layer G) (b : list (feature G)) :
  layers w !! h = Some l → edit_buffer l = Some b →
  Forall (λ r, names r = fields l) b →
  ∃ b',
    layers (apply_changes h new modified key_field w).2
    = <[h := set_edit_buffer (Some b') l]> (layers w)
    ∧ files (apply_changes h new modified key_field w).2 = files w
    ∧ key_view key_field <$> take (length b) b' = key_view key_field <$> b
    ∧ Forall (λ r, names r = fields l) b'.
Proof.
  intros Hl Hb Hc.
  destruct (apply_changes_in_session h new modified key_field l w Hl
              ltac:(by rewrite Hb)) as [Hfiles [b' Hlay]].
  exists b'. split; [done|]. split; [done|].
  destruct (add_new_records_loop h new key_field w) as (w0 & Hl0 & Hf0 & Hs0 & Hst & _).
  destruct (add_loop h key_field new w0 l b) as (kept & added & Hlay1 & _ & _ & Hbuilt & _);
    [by rewrite Hl0 | done |].
  rewrite <- Hst, Hl0 in Hlay1.
  set (view := key_view key_field <$> (b ++ added)%list).
  assert (Hadded : Forall (λ r, names r = fields l) added).
  { clear -Hbuilt. induction Hbuilt as [|f r kept added [Ha _] _ IH]; constructor; [|done].
    unfold names. rewrite Ha. apply built_names. }
  assert (H1 : keys_are h key_field (fields l) view
                 (add_new_records h new key_field w).2).
  { exists (set_edit_buffer (Some (b ++ added)%list) l), (b ++ added)%list.
    rewrite Hlay1, lookup_insert_eq. repeat split; try done.
    apply Forall_app. by split. }
  assert (H2 : keys_are h key_field (fields l) view
                 (apply_changes h new modified key_field w).2).
  { unfold apply_changes, bind.
    destruct (add_new_records h new key_field w) as [[e|lines] w1]; simpl in *; [done|].
    pose proof (update_existing_keys h key_field (fields l) view modified w1 H1) as H2.
    by destruct (update_existing h modified key_field w1) as [[e|lines'] w2]. }
  destruct H2 as (l2 & b2 & Hl2 & Hb2 & _ & Hv2 & Hc2).
  rewrite Hlay, lookup_insert_eq in Hl2. injection Hl2 as <-.
  simpl in Hb2. injection Hb2 as <-.
  split; [|done].
  rewrite fmap_take, Hv2. unfold view. rewrite fmap_app.
  apply take_app_length'. by rewrite length_fmap.
Qed.

End UpdateFacts.

Section UpdateExamples.
#[local] Existing Instance Example.runtime.

(** The rename of A in the shared layer of the example, in edit mode: the row
    of A keeps its id and its key. *)
Lemma changes_keep_ids_and_keys_witness :
  let l := set_edit_buffer (Some (rows Example.shared)) Example.shared in
  let w := set_layers (<[0%nat := l]> (layers (Example.world_with [])))
             (Example.world_with []) in
  ∃ b',
    layers (apply_changes 0 Example.new_B Example.modified_A "fuuid" w).2
    = <[0%nat := set_edit_buffer (Some b') l]> (layers w)
    ∧ files (apply_changes 0 Example.new_B Example.modified_A "fuuid" w).2 = files w
    ∧ key_view "fuuid" <$> take (length (rows Example.shared)) b'
      = key_view "fuuid" <$> rows Example.shared
    ∧ Forall (λ r, names r = fields l) b'.
Proof.
  intros l w.
  apply (changes_keep_ids_and_keys 0 Example.new_B Example.modified_A "fuuid" w l
           (rows Example.shared) eq_refl eq_refl).
  repeat constructor.
Defined.

End UpdateExamples.

(** ** The edit session: commit, rollback and what is left behind *)

Section SessionFacts.
Context {G : Type} `{!Geometry G} {runtime : Runtime}.
Local Open Scope run_scope.

(** Closes a goal whose hypothesis [Hne] says that the report of failure
    that goes on with [s] does not start with the cross mark. *)
Ltac failure_text Hne s :=
  let Hm := fresh "Hm" in
  match type of Hne with
  | Text.startswith ?t _ = false =>
      assert (Hm : Text.startswith t "❌" = true) by exact (failure_mark s);
      congruence
  end.

(** A writing call that does not raise leaves all but the script. *)
Lemma storage_call_returns (w : world G) :
  (∀ e, head (script w) ≠ Some (Raises e)) →
  ∃ o s, storage_call w = (inr o, set_script s w).
Proof.
  intros Hok. unfold storage_call, bind, next_outcome.
  destruct (script w) as [|[| |e] s] eqn:Es; simpl.
  - exists None, []. by rewrite set_script_nil.
  - by exists None, s.
  - by eexists _, s.
  - by destruct (Hok e).
Qed.

Lemma goes_ahead_returns (s : list outcome) :
  goes_ahead 1 s → ∀ e, head s ≠ Some (Raises e).
Proof.
  unfold goes_ahead. destruct s as [|o s]; simpl; [done|].
  intros [-> _]%Forall_cons. done.
Qed.

Lemma isEditable_run (h : nat) (l : layer G) (w : world G) :
  layers w !! h = Some l →
  isEditable h w = (inr (bool_decide (is_Some (edit_buffer l))), w).
Proof.
  intros Hl. unfold isEditable.
  by rewrite (bind_run _ _ _ _ _ (get_layer_run _ _ _ Hl)).
Qed.

(** The commit that the storage layer lets go ahead. *)
Lemma commitChanges_goes (h : nat) (l : layer G) (w : world G) (b : list (feature G)) :
  layers w !! h = Some l → edit_buffer l = Some b → goes_ahead 1 (script w) →
  ∃ w1, commitChanges h w = (inr true, w1)
        ∧ layers w1 = <[h := Layer (source l) (fields l) b None []]> (layers w)
        ∧ files w1 = alter (λ _, b) (file_path_of (source l)) (files w)
        ∧ script w1 = tail (script w)
        ∧ pushed w1 = pushed w ∧ clock w1 = clock w.
Proof.
  intros Hl Hb Hgo. unfold commitChanges.
  rewrite (bind_run _ _ _ _ _ (get_layer_run _ _ _ Hl)).
  rewrite (bind_run _ _ _ _ _ (storage_call_goes _ Hgo)). rewrite Hb.
  eexists. split; [reflexivity|]. by repeat split.
Qed.

(** A commit that has returned true has stored the buffer. *)
Lemma commitChanges_true (h : nat) (w w1 : world G) :
  commitChanges h w = (inr true, w1) →
  ∃ l b, layers w !! h = Some l ∧ edit_buffer l = Some b
         ∧ layers w1 = <[h := Layer (source l) (fields l) b None []]> (layers w)
         ∧ files w1 = alter (λ _, b) (file_path_of (source l)) (files w).
Proof.
  unfold commitChanges, bind, get_layer.
  destruct (layers w !! h) as [l|] eqn:Hl; [|done].
  destruct (storage_call_world w) as [s Hw].
  destruct (storage_call w) as [[e|[errors|]] w0]; simpl in *; subst w0; try done.
  destruct (edit_buffer l) as [b|] eqn:Hb; simpl; [|done].
  intros [= <-]. by exists l, b.
Qed.

(** [reload] touches neither the layers nor the files. *)
Lemma reload_state (h : nat) (w : world G) :
  layers (reload h w).2 = layers w ∧ files (reload h w).2 = files w.
Proof.
  unfold reload, bind, get_layer.
  destruct (layers w !! h); [|done].
  destruct (storage_call_world w) as [s Hw].
  destruct (storage_call w) as [[e|o] w0]; simpl in *; by subst w0.
Qed.

(** The rollback that the storage layer lets go ahead. *)
Lemma rollBack_goes (h : nat) (l : layer G) (w : world G) (b : list (feature G)) :
  layers w !! h = Some l → edit_buffer l = Some b → goes_ahead 1 (script w) →
  rollBack h w
  = (inr true,
     set_layers (<[h := set_edit_buffer None l]> (layers w))
       (set_script (tail (script w)) w)).
Proof.
  intros Hl Hb Hgo. unfold rollBack.
  rewrite (bind_run _ _ _ _ _ (get_layer_run _ _ _ Hl)).
  rewrite (bind_run _ _ _ _ _ (storage_call_goes _ Hgo)). by rewrite Hb.
Qed.

(** The rollback of a layer that is not in edit mode does nothing. *)
Lemma rollBack_idle (h : nat) (l : layer G) (w : world G) :
  layers w !! h = Some l → edit_buffer l = None →
  (∀ e, head (script w) ≠ Some (Raises e)) →
  ∃ s, rollBack h w = (inr false, set_script s w).
Proof.
  intros Hl Hb Hok. destruct (storage_call_returns w Hok) as (o & s & Hc).
  exists s. unfold rollBack.
  rewrite (bind_run _ _ _ _ _ (get_layer_run _ _ _ Hl)).
  rewrite (bind_run _ _ _ _ _ Hc). rewrite Hb. by destruct o.
Qed.

(** [startEditing] on a layer that is in edit mode already. *)
Lemma startEditing_editable (h : nat) (l : layer G) (w : world G) :
  layers w !! h = Some l → is_Some (edit_buffer l) →
  (∀ e, head (script w) ≠ Some (Raises e)) →
  ∃ s, startEditing h w = (inr false, set_script s w).
Proof.
  intros Hl [b Hb] Hok. destruct (storage_call_returns w Hok) as (o & s & Hc).
  exists s. unfold startEditing.
  rewrite (bind_run _ _ _ _ _ (get_layer_run _ _ _ Hl)).
  rewrite (bind_run _ _ _ _ _ Hc). rewrite Hb. by destruct o.
Qed.

Lemma startEditing_goes (h : nat) (l : layer G) (w : world G) :
  layers w !! h = Some l → edit_buffer l = None → goes_ahead 1 (script w) →
  startEditing h w
  = (inr true,
     set_layers (<[h := set_edit_buffer (Some (rows l)) l]> (layers w))
       (set_script (tail (script w)) w)).
Proof.
  intros Hl Hb Hgo. unfold startEditing.
  rewrite (bind_run _ _ _ _ _ (get_layer_run _ _ _ Hl)).
  rewrite (bind_run _ _ _ _ _ (storage_call_goes _ Hgo)). by rewrite Hb.
Qed.

(** The state in which the session runs: the layer as the opening of the
    session left it, and then only its buffer changed. *)
Lemma session_state (h : nat) (new : list (feature G))
    (modified : list (modified_entry G)) (key_field : string)
    (w w0 : world G) :
  (backup_step h ;; begin_session h) w = (inr true, w0) →
  ∃ l0 b,
    layers w0 !! h = Some l0 ∧ edit_buffer l0 = Some (rows l0)
    ∧ layers (apply_changes h new modified key_field w0).2
      = <[h := set_edit_buffer (Some b) l0]> (layers w0)
    ∧ files (apply_changes h new modified key_field w0).2 = files w0.
Proof.
  intros Hpre. apply bind_inr_inv in Hpre as ([] & wb & _ & Hbegin).
  destruct (begin_session_true _ _ _ Hbegin) as (l0 & Hl0 & Hbuf).
  destruct (apply_changes_in_session h new modified key_field l0 w0 Hl0
              ltac:(by rewrite Hbuf)) as [Hf [b Hl1]].
  by exists l0, b.
Qed.

(** How the executor runs once the session is open. *)
Lemma update_in_session (h : nat) (new : list (feature G))
    (modified : list (modified_entry G)) (key_field : string)
    (w w0 : world G) :
  (backup_step h ;; begin_session h) w = (inr true, w0) →
  update_with_qgis_api_only h new modified key_field w
  = try_except (edit_session h new modified key_field)
      (λ e, ret ("❌ Errore generale: " +:+ exn_str e)) w0.
Proof.
  intros Hpre. apply bind_inr_inv in Hpre as ([] & wb & Hb & Hbegin).
  unfold update_with_qgis_api_only, try_except at 1.
  rewrite (bind_run _ _ _ _ _ Hb). unfold run_session.
  rewrite (bind_run _ _ _ _ _ Hbegin). reflexivity.
Qed.

(** An exception in steps 4 and 5.  When the session is open and the
    additions or the modifications raise [e]: the executor asks for the
    rollback; when that goes ahead the report of failure carries [e], the
    layer is out of edit mode with the rows it had, and no other layer and no
    file has changed; when the rollback itself raises [e2], the report is the
    general one, with [e2], and the layer is left in edit mode. *)
Theorem update_failure_rolls_back (h : nat) (new : list (feature G))
    (modified : list (modified_entry G)) (key_field : string)
    (w w0 w1 : world G) (e : exn) :
  (backup_step h ;; begin_session h) w = (inr true, w0) →
  apply_changes h new modified key_field w0 = (inl e, w1) →
  (goes_ahead 1 (script w1) →
   ∃ l0 w2,
     layers w0 !! h = Some l0 ∧ edit_buffer l0 = Some (rows l0)
     ∧ update_with_qgis_api_only h new modified key_field w
       = (inr ("❌ Errore durante l'aggiornamento: " +:+ exn_str e), w2)
     ∧ layers w2 = <[h := set_edit_buffer None l0]> (layers w0)
     ∧ files w2 = files w0)
  ∧ (∀ e2 rest, script w1 = Raises e2 :: rest →
       update_with_qgis_api_only h new modified key_field w
       = (inr ("❌ Errore generale: " +:+ exn_str e2), set_script rest w1)
       ∧ ∃ l1, layers w1 !! h = Some l1 ∧ is_Some (edit_buffer l1)).
Proof.
  intros Hpre Hap.
  destruct (session_state h new modified key_field w w0 Hpre)
    as (l0 & b & Hl0 & Hbuf & Hlay & Hfil).
  rewrite Hap in Hlay, Hfil. simpl in Hlay, Hfil.
  assert (Hl1 : layers w1 !! h = Some (set_edit_buffer (Some b) l0))
    by (by rewrite Hlay, lookup_insert_eq).
  rewrite (update_in_session _ _ _ _ _ _ Hpre). split.
  - intros Hgo. exists l0. eexists. split; [done|]. split; [done|].
    unfold edit_session, try_except. rewrite (bind_raise _ _ _ _ _ Hap).
    rewrite (bind_run _ _ _ _ _ (rollBack_goes h _ w1 b Hl1 eq_refl Hgo)).
    split; [reflexivity|]. simpl. split; [|done].
    by rewrite Hlay, insert_insert_eq.
  - intros e2 rest Hs. split; [|by eexists].
    assert (Hr : rollBack h w1 = (inl e2, set_script rest w1)).
    { unfold rollBack. rewrite (bind_run _ _ _ _ _ (get_layer_run _ _ _ Hl1)).
      by rewrite (bind_raise _ _ _ _ _ (storage_call_raises _ _ _ Hs)). }
    unfold edit_session, try_except. rewrite (bind_raise _ _ _ _ _ Hap).
    by rewrite (bind_raise _ _ _ _ _ Hr).
Qed.

(** A report that is not a report of failure is given only after the commit:
    the layer is then out of edit mode, it holds no commit errors, and the
    container file, when there is one, holds the rows of the layer. *)
Theorem success_means_stored (h : nat) (new : list (feature G))
    (modified : list (modified_entry G)) (key_field : string)
    (w w' : world G) (t : string) :
  update_with_qgis_api_only h new modified key_field w = (inr t, w') →
  Text.startswith t "❌" = false →
  ∃ l', layers w' !! h = Some l'
        ∧ edit_buffer l' = None ∧ commit_errors l' = []
        ∧ ∀ content, files w' !! file_path_of (source l') = Some content →
                     content = rows l'.
Proof.
  unfold update_with_qgis_api_only, try_except. intros Hrun Hne.
  destruct (bind _ _ w) as [[e|t0] w0] eqn:E.
  { injection Hrun as <- _.
    failure_text Hne (" Errore generale: " +:+ exn_str e). }
  injection Hrun as -> ->.
  apply bind_inr_inv in E as (_ & wb & _ & E). unfold run_session in E.
  apply bind_inr_inv in E as ([|] & ws & _ & E); simpl in E.
  2:{ injection E as <- _.
      failure_text Hne " Impossibile iniziare editing del layer". }
  unfold edit_session, try_except in E.
  destruct (bind _ _ ws) as [[e|t1] w2] eqn:E2.
  { apply bind_inr_inv in E as (_ & w3 & _ & E). injection E as <- _.
    failure_text Hne (" Errore durante l'aggiornamento: " +:+ exn_str e). }
  injection E as -> ->.
  apply bind_inr_inv in E2 as (lines & w3 & _ & Hc).
  unfold commit_step in Hc. rewrite (bind_run _ _ _ _ _ (pushInfo_run _ _)) in Hc.
  apply bind_inr_inv in Hc as ([|] & w4 & Hcommit & Hc).
  2:{ apply bind_inr_inv in Hc as (errors & w5 & _ & Hc).
      rewrite (bind_run _ _ _ _ _ (pushInfo_run _ _)) in Hc.
      apply bind_inr_inv in Hc as (_ & w6 & _ & Hc). injection Hc as <- _.
      failure_text Hne (" Errori durante il salvataggio: " +:+ Text.join "; " errors). }
  apply commitChanges_true in Hcommit as (l & b & Hl & Hb & Hlay & Hfil).
  destruct (reload_state h w4) as [Hrl Hrf].
  apply bind_inr_inv in Hc as ([] & w5 & Hreload & Hc). injection Hc as _ <-.
  rewrite Hreload in Hrl, Hrf. simpl in Hrl, Hrf.
  exists (Layer (source l) (fields l) b None []).
  split; [by rewrite Hrl, Hlay, lookup_insert_eq|]. split; [done|]. split; [done|].
  intros content. rewrite Hrf, Hfil. simpl. rewrite lookup_alter_eq.
  destruct (files _ !! _); simpl; [|done]. by intros [= <-].
Qed.

(** A report of failure after the changes have been stored.  When the
    session is open, steps 4 and 5 have returned, the storage layer lets the
    commit go ahead and [reload] raises [e]: the executor returns the report
    of failure with [e], the rollback finds nothing to undo, and the buffer
    is stored in the layer and in the container file. *)
Theorem failure_report_after_commit (h : nat) (new : list (feature G))
    (modified : list (modified_entry G)) (key_field : string)
    (w w0 w1 : world G) (lines : list string) (e : exn) (rest : list outcome) :
  (backup_step h ;; begin_session h) w = (inr true, w0) →
  apply_changes h new modified key_field w0 = (inr lines, w1) →
  script w1 = Ok :: Raises e :: rest →
  (∀ e', head rest ≠ Some (Raises e')) →
  ∃ l1 b w2,
    layers w1 !! h = Some l1 ∧ edit_buffer l1 = Some b
    ∧ update_with_qgis_api_only h new modified key_field w
      = (inr ("❌ Errore durante l'aggiornamento: " +:+ exn_str e), w2)
    ∧ layers w2 = <[h := Layer (source l1) (fields l1) b None []]> (layers w1)
    ∧ files w2 = alter (λ _, b) (file_path_of (source l1)) (files w1).
Proof.
  intros Hpre Hap Hs Hok.
  destruct (session_state h new modified key_field w w0 Hpre)
    as (l0 & b & Hl0 & Hbuf & Hlay & Hfil).
  rewrite Hap in Hlay, Hfil. simpl in Hlay, Hfil.
  set (l1 := set_edit_buffer (Some b) l0).
  assert (Hl1 : layers w1 !! h = Some l1) by (by rewrite Hlay, lookup_insert_eq).
  set (w1' := set_pushed (pushed w1 ++ ["Salvando modifiche..."])%list w1).
  assert (Hgo : goes_ahead 1 (script w1'))
    by (simpl; rewrite Hs; unfold goes_ahead; simpl; by repeat constructor).
  destruct (commitChanges_goes h l1 w1' b Hl1 eq_refl Hgo)
    as (w2 & Hcommit & Hlay2 & Hfil2 & Hs2 & _ & _).
  simpl in Hs2. rewrite Hs in Hs2. simpl in Hs2.
  assert (Hl2 : layers w2 !! h = Some (Layer (source l1) (fields l1) b None []))
    by (by rewrite Hlay2, lookup_insert_eq).
  assert (Hreload : reload h w2 = (inl e, set_script rest w2)).
  { unfold reload. rewrite (bind_run _ _ _ _ _ (get_layer_run _ _ _ Hl2)).
    by rewrite (bind_raise _ _ _ _ _ (storage_call_raises _ _ _ Hs2)). }
  destruct (rollBack_idle h _ (set_script rest w2) Hl2 eq_refl Hok) as [s Hroll].
  exists l1, b. eexists. split; [done|]. split; [done|].
  rewrite (update_in_session _ _ _ _ _ _ Hpre).
  unfold edit_session, try_except.
  rewrite (bind_run _ _ _ _ _ Hap). unfold commit_step.
  rewrite (bind_run _ _ _ _ _ (pushInfo_run _ _)). fold w1'.
  rewrite (bind_run _ _ _ _ _ Hcommit).
  cbv iota. rewrite (bind_raise _ _ _ _ _ Hreload).
  rewrite (bind_run _ _ _ _ _ Hroll).
  split; [reflexivity|]. simpl. by split.
Qed.

(** A shared layer that is in edit mode when the executor is called.  Its
    pending edits are committed first: when the storage layer refuses that
    commit, the session cannot be opened, the executor gives up with its
    message, and the layer keeps its pending edits and holds the commit
    errors; when the commit goes ahead, the pending edits are stored in the
    layer and in the container file, and the session opens on them. *)
Theorem pending_edits_are_committed (h : nat) (new : list (feature G))
    (modified : list (modified_entry G)) (key_field : string)
    (w : world G) (l : layer G) (b : list (feature G)) :
  layers w !! h = Some l → edit_buffer l = Some b →
  (∀ errors s, script w = Refused errors :: s →
     (∀ e, head s ≠ Some (Raises e)) →
     ∃ w', run_session h new modified key_field w
           = (inr "❌ Impossibile iniziare editing del layer", w')
           ∧ layers w' = <[h := set_commit_errors errors l]> (layers w)
           ∧ files w' = files w)
  ∧ (goes_ahead 2 (script w) →
     ∃ w', begin_session h w = (inr true, w')
           ∧ layers w' = <[h := Layer (source l) (fields l) b (Some b) []]> (layers w)
           ∧ files w' = alter (λ _, b) (file_path_of (source l)) (files w)).
Proof.
  intros Hl Hb. split.
  - intros errors s Hs Hok.
    pose proof (commitChanges_refused h l w errors s Hl Hs) as Hc.
    set (w1 := set_layers (<[h := set_commit_errors errors l]> (layers w))
                 (set_script s w)) in Hc.
    set (w2 := set_pushed (pushed w1 ++ ["Iniziando modalità editing..."])%list w1).
    assert (Hl2 : layers w2 !! h = Some (set_commit_errors errors l))
      by (simpl; by rewrite lookup_insert_eq).
    destruct (startEditing_editable h _ w2 Hl2 ltac:(simpl; by rewrite Hb) Hok)
      as [s' Hstart].
    assert (Hbegin : begin_session h w = (inr false, set_script s' w2)).
    { unfold begin_session.
      rewrite (bind_run _ _ _ _ _ (isEditable_run _ _ _ Hl)).
      rewrite Hb. rewrite bool_decide_eq_true_2 by eauto.
      rewrite (bind_run _ _ w w1 tt) by (by rewrite (bind_run _ _ _ _ _ Hc)).
      by rewrite (bind_run _ _ _ _ _ (pushInfo_run _ _)). }
    eexists. unfold run_session. rewrite (bind_run _ _ _ _ _ Hbegin).
    by repeat split.
  - intros [Hgo1 Hgo2]%goes_ahead_S.
    destruct (commitChanges_goes h l w b Hl Hb Hgo1)
      as (w1 & Hc & Hlay1 & Hfil1 & Hs1 & _ & _).
    set (w2 := set_pushed (pushed w1 ++ ["Iniziando modalità editing..."])%list w1).
    assert (Hl2 : layers w2 !! h = Some (Layer (source l) (fields l) b None []))
      by (simpl; by rewrite Hlay1, lookup_insert_eq).
    assert (Hgo : goes_ahead 1 (script w2)) by (simpl; by rewrite Hs1).
    eexists. unfold begin_session.
    rewrite (bind_run _ _ _ _ _ (isEditable_run _ _ _ Hl)).
    rewrite Hb. rewrite bool_decide_eq_true_2 by eauto.
    rewrite (bind_run _ _ w w1 tt) by (by rewrite (bind_run _ _ _ _ _ Hc)).
    rewrite (bind_run _ _ _ _ _ (pushInfo_run _ _)). fold w2.
    rewrite (startEditing_goes h _ w2 Hl2 eq_refl Hgo).
    split; [reflexivity|]. simpl. rewrite Hlay1, insert_insert_eq. by split.
Qed.

End SessionFacts.

(** ** The commit that the storage layer refuses *)

Section CommitFailureFacts.
Context {G : Type} `{!Geometry G} {runtime : Runtime}.
Local Open Scope run_scope.





End CommitFailureFacts.

Section CommitFailureExamples.
#[local] Existing Instance Example.runtime.



End CommitFailureExamples.

(** ** The edit session on the example data *)

Section SessionExamples.
#[local] Existing Instance Example.runtime.

(** The storage layer raises at the addition of B: the rollback restores the
    one row of the shared layer. *)
Lemma update_failure_rolls_back_witness :
  let w := Example.world_with [Ok; Ok; Raises (RuntimeError "connection lost")] in
  let w0 := ((backup_step 0 ;; begin_session 0)%run w).2 in
  ∃ l0 w2,
    layers w0 !! 0%nat = Some l0 ∧ edit_buffer l0 = Some (rows l0)
    ∧ update_with_qgis_api_only 0 Example.new_B Example.modified_A "fuuid" w
      = (inr ("❌ Errore durante l'aggiornamento: "
              +:+ exn_str (RuntimeError "connection lost")), w2)
    ∧ layers w2 = <[0%nat := set_edit_buffer None l0]> (layers w0)
    ∧ files w2 = files w0.
Proof.
  intros w w0.
  assert (Hpre : ((backup_step 0 ;; begin_session 0)%run w) = (inr true, w0))
    by (vm_compute; reflexivity).
  assert (Hap : apply_changes 0 Example.new_B Example.modified_A "fuuid" w0
                = (inl (RuntimeError "connection lost"),
                   (apply_changes 0 Example.new_B Example.modified_A "fuuid" w0).2))
    by (vm_compute; reflexivity).
  apply (proj1 (update_failure_rolls_back 0 Example.new_B Example.modified_A "fuuid"
                  w w0 _ _ Hpre Hap)).
  vm_compute. constructor.
Defined.

(** The run that renames A and adds B. *)
Lemma success_means_stored_witness :
  let run := update_with_qgis_api_only 0 Example.new_B Example.modified_A "fuuid"
               (Example.world_with []) in
  ∃ l', layers run.2 !! 0%nat = Some l'
        ∧ edit_buffer l' = None ∧ commit_errors l' = []
        ∧ ∀ content, files run.2 !! file_path_of (source l') = Some content →
                     content = rows l'.
Proof.
  intros run.
  eapply (success_means_stored 0 Example.new_B Example.modified_A "fuuid"
            (Example.world_with []) run.2);
    vm_compute; reflexivity.
Defined.

(** The commit goes ahead and [reload] raises: B is stored, A is renamed,
    and the report is one of failure. *)
Lemma failure_report_after_commit_witness :
  let e := RuntimeError "provider gone" in
  let w := Example.world_with [Ok; Ok; Ok; Ok; Ok; Ok; Raises e] in
  let w0 := ((backup_step 0 ;; begin_session 0)%run w).2 in
  let w1 := (apply_changes 0 Example.new_B Example.modified_A "fuuid" w0).2 in
  ∃ l1 b w2,
    layers w1 !! 0%nat = Some l1 ∧ edit_buffer l1 = Some b
    ∧ update_with_qgis_api_only 0 Example.new_B Example.modified_A "fuuid" w
      = (inr ("❌ Errore durante l'aggiornamento: " +:+ exn_str e), w2)
    ∧ layers w2 = <[0%nat := Layer (source l1) (fields l1) b None []]> (layers w1)
    ∧ files w2 = alter (λ _, b) (file_path_of (source l1)) (files w1).
Proof.
  intros e w w0 w1.
  eapply (failure_report_after_commit 0 Example.new_B Example.modified_A "fuuid"
            w w0 w1 _ e []).
  - vm_compute. reflexivity.
  - vm_compute. reflexivity.
  - vm_compute. reflexivity.
  - intros e'. discriminate.
Defined.

(** The shared layer of the example with a pending rename of A, and a
    storage layer that refuses the commit of it. *)
Lemma pending_edits_are_committed_witness :
  let l := set_edit_buffer (Some [Example.park_row 1 "A" "Parc"]) Example.shared in
  let w := set_layers (<[0%nat := l]> (layers (Example.world_with [Refused ["locked"]])))
             (Example.world_with [Refused ["locked"]]) in
  ∃ w', run_session 0 Example.new_B Example.modified_A "fuuid" w
        = (inr "❌ Impossibile iniziare editing del layer", w')
        ∧ layers w' = <[0%nat := set_commit_errors ["locked"] l]> (layers w)
        ∧ files w' = files w.
Proof.
  intros l w.
  apply (proj1 (pending_edits_are_committed 0 Example.new_B Example.modified_A "fuuid"
                  w l [Example.park_row 1 "A" "Parc"] eq_refl eq_refl) ["locked"] []).
  - reflexivity.
  - intros e. discriminate.
Defined.

End SessionExamples.

(** ** The whole run: what it leaves alone *)

Section WholeRunFacts.
Context {G : Type} `{!Geometry G} {runtime : Runtime}.
Local Open Scope run_scope.

Section AnyProperty.
Variable I : world G → Prop.
Hypothesis I_pushed : ∀ w p, I w → I (set_pushed p w).
Hypothesis I_script : ∀ w s, I w → I (set_script s w).
Hypothesis I_files : ∀ w fs, I w → I (set_files fs w).
Variable h : nat.
Hypothesis I_layer : ∀ w l, I w → I (set_layers (<[h := l]> (layers w)) w).

Lemma preserves_copy2 (src dst : string) : preserves I (copy2 src dst).
Proof.
  unfold copy2.
  apply preserves_bind; [by apply preserves_storage_call | intros _].
  apply preserves_bind; [apply preserves_gets | intros fs].
  destruct (fs !! src); [|apply preserves_raise].
  intros w HI. by apply I_files.
Qed.

Lemma preserves_backup_step : preserves I (backup_step h).
Proof.
  unfold backup_step.
  apply preserves_bind; [apply preserves_layer_source | intros src].
  apply preserves_bind; [apply preserves_path_exists | intros found].
  destruct (found && _); [|apply preserves_ret].
  apply preserves_bind; [apply preserves_datetime_now | intros now].
  apply preserves_bind; [apply preserves_copy2 | intros _].
  by apply preserves_pushInfo.
Qed.

(** The executor keeps every property that the feedback, the script, the
    files and the layer [h] have no part in. *)
Lemma preserves_update (new : list (feature G)) (modified : list (modified_entry G))
    (key_field : string) :
  preserves I (update_with_qgis_api_only h new modified key_field).
Proof.
  unfold update_with_qgis_api_only.
  apply preserves_try_except; [|intros; apply preserves_ret].
  apply preserves_bind; [apply preserves_backup_step | intros _].
  apply preserves_run_session; try done.
  - intros w l buffer HI _ _. by apply I_layer.
  - intros w l l' HI _ _. by apply I_layer.
  - intros w l buffer HI _. by apply I_files.
Qed.

End AnyProperty.

(** The executor always returns a text. *)
Lemma update_returns (h : nat) (new : list (feature G))
    (modified : list (modified_entry G)) (key_field : string) (w : world G) :
  ∃ t w', update_with_qgis_api_only h new modified key_field w = (inr t, w').
Proof.
  unfold update_with_qgis_api_only, try_except.
  destruct (bind _ _ w) as [[e|t] w']; by eexists _, _.
Qed.

(** *** The frame of the executor *)

Lemma framed_pushed (h : nat) (src : string) (w0 w : world G) (p : list string) :
  framed h src w0 w → framed h src w0 (set_pushed p w).
Proof. by intros (? & ? & ? & ?). Qed.

Lemma framed_script (h : nat) (src : string) (w0 w : world G) (s : list outcome) :
  framed h src w0 w → framed h src w0 (set_script s w).
Proof. by intros (? & ? & ? & ?). Qed.

Lemma framed_layer (h : nat) (src : string) (w0 w : world G) (l : layer G) :
  framed h src w0 w → source l = src →
  framed h src w0 (set_layers (<[h := l]> (layers w)) w).
Proof.
  intros (Hl & Hf & Hc & _) Hs. split; [|split; [done|split; [done|]]].
  - intros h' Hne. simpl. rewrite lookup_insert_ne by done. by apply Hl.
  - exists l. simpl. by rewrite lookup_insert_eq.
Qed.

Lemma copy2_missing (src dst : string) (w w1 : world G) (o : option (list string)) :
  storage_call w = (inr o, w1) → files w1 !! src = None →
  copy2 src dst w
  = (inl (OSError ("[Errno 2] No such file or directory: " +:+ py_repr src)), w1).
Proof.
  intros Hc Hf. unfold copy2. rewrite (bind_run _ _ _ _ _ Hc).
  rewrite (bind_run _ _ w1 w1 (files w1)) by reflexivity. by rewrite Hf.
Qed.

(** The backup writes the backup file only. *)
Lemma backup_step_framed (h : nat) (w : world G) (l : layer G) :
  layers w !! h = Some l → framed h (source l) w (backup_step h w).2.
Proof.
  intros Hl.
  assert (H0 : framed h (source l) w w) by (repeat split; try done; by exists l).
  unfold backup_step.
  rewrite (bind_run _ _ _ _ _ (layer_source_run _ _ _ Hl)).
  unfold path_exists, datetime_now.
  rewrite (bind_run _ _ w w (bool_decide (is_Some (files w !! file_path_of (source l)))))
    by reflexivity.
  destruct (_ && _); [|done].
  rewrite (bind_run _ _ w w (clock w)) by reflexivity.
  destruct (storage_call_world w) as [s Hw].
  destruct (storage_call w) as [[e|o] w1] eqn:Esc; simpl in Hw; subst w1.
  { rewrite (bind_raise _ _ _ _ _ (copy2_raise _ _ _ _ _ Esc)).
    by apply framed_script. }
  destruct (files w !! file_path_of (source l)) as [content|] eqn:Ef.
  - rewrite (bind_run _ _ _ _ _
               (copy2_run _ _ w (set_script s w) o content Esc Ef)).
    destruct H0 as (Hls & Hfs & Hc & Hh).
    split; [done|]. split; [|done].
    intros path _ Hne. simpl. by rewrite lookup_insert_ne.
  - rewrite (bind_raise _ _ _ _ _
               (copy2_missing _ _ w (set_script s w) o Esc Ef)).
    by apply framed_script.
Qed.

Lemma run_session_framed (h : nat) (new : list (feature G))
    (modified : list (modified_entry G)) (key_field : string)
    (src : string) (w0 : world G) :
  preserves (framed h src w0) (run_session h new modified key_field).
Proof.
  apply preserves_run_session.
  - intros. by apply framed_pushed.
  - intros. by apply framed_script.
  - intros w l buffer HI Hl _. apply framed_layer; [done|].
    destruct HI as (_ & _ & _ & l' & Hl' & Hs). simpl. congruence.
  - intros w l l' HI Hl Hs. apply framed_layer; [done|].
    destruct HI as (_ & _ & _ & l'' & Hl' & Hs'). congruence.
  - intros w l buffer (Hls & Hfs & Hc & l' & Hl' & Hs) Hl.
    split; [done|]. split; [|split; [done | by exists l']].
    intros path Hne Hnb. simpl. rewrite lookup_alter_ne; [by apply Hfs|].
    assert (l' = l) as -> by congruence. by rewrite Hs.
Qed.

(** What the executor can touch.  Whatever the storage layer answers, and
    whether the run ends well or not: every other layer is as before; every
    file other than the container of the shared layer and the backup of this
    run is as before; and the shared layer is still there, with the data
    source it had. *)
Theorem update_touches_one_layer (h : nat) (new : list (feature G))
    (modified : list (modified_entry G)) (key_field : string)
    (w : world G) (l : layer G) :
  layers w !! h = Some l →
  let w' := (update_with_qgis_api_only h new modified key_field w).2 in
  (∀ h', h' ≠ h → layers w' !! h' = layers w !! h')
  ∧ (∀ path, path ≠ file_path_of (source l) →
             path ≠ backup_path_of (file_path_of (source l)) (clock w) →
             files w' !! path = files w !! path)
  ∧ clock w' = clock w
  ∧ ∃ l', layers w' !! h = Some l' ∧ source l' = source l.
Proof.
  intros Hl w'. change (framed h (source l) w w'). unfold w'.
  pose proof (backup_step_framed h w l Hl) as Hb.
  unfold update_with_qgis_api_only, try_except, bind.
  destruct (backup_step h w) as [[e|[]] wb]; simpl in *; [done|].
  pose proof (run_session_framed h new modified key_field (source l) w wb Hb) as Hr.
  by destruct (run_session h new modified key_field wb) as [[e|t] w2].
Qed.

(** *** [processAlgorithm] in apply mode *)

(** Once the parameters are valid and the analysis has returned with a new
    or a modified record, and the run is no preview: the run hands the two
    lists to the executor, raises nothing, and returns the report of the
    analysis, a line feed and the text of the executor. *)
Theorem apply_mode_report (p : parameters) (w w1 : world G)
    (hs hu : nat) (ls lu : layer G) (new : list (feature G))
    (modified : list (modified_entry G)) (report : string) :
  SHARED_LAYER p = Some hs → USER_LAYER p = Some hu →
  layers w !! hs = Some ls → layers w !! hu = Some lu →
  name_in (KEY_FIELD p) (fields ls) = true →
  name_in (KEY_FIELD p) (fields lu) = true →
  analyze_differences hs hu (KEY_FIELD p)
    (pushInfo "Inizio analisi delle differenze..." w).2
    = (inr (new, modified, report), w1) →
  PREVIEW_ONLY p = false → nonempty new || nonempty modified = true →
  ∃ update_report w2,
    update_with_qgis_api_only hs new modified (KEY_FIELD p)
      (pushInfo "Procedendo con l'aggiornamento..." (pushInfo report w1).2).2
    = (inr update_report, w2)
    ∧ processAlgorithm p w = (inr (report +:+ nl +:+ update_report), w2).
Proof.
  destruct p as [sl ul kf pv]. simpl.
  intros -> -> Hs Hu Ks Ku Ha -> Hne.
  destruct (update_returns hs new modified kf
              (pushInfo "Procedendo con l'aggiornamento..." (pushInfo report w1).2).2)
    as (t & w2 & Hup).
  exists t, w2. split; [done|].
  unfold processAlgorithm. simpl.
  rewrite (bind_run _ _ _ _ _ (layer_fields_run _ _ _ Hs)), Ks. simpl.
  rewrite (bind_run _ _ _ _ _ (layer_fields_run _ _ _ Hu)), Ku. simpl.
  rewrite (bind_run _ _ _ _ _ (pushInfo_run _ _)).
  rewrite (bind_run _ _ _ _ _ Ha).
  rewrite (bind_run _ _ _ _ _ (pushInfo_run _ _)).
  rewrite Hne.
  rewrite (bind_run _ _ _ _ _ (pushInfo_run _ _)).
  by rewrite (bind_run _ _ _ _ _ Hup).
Qed.

(** The user layer is only read.  Whatever the parameters, the mode and the
    answers of the storage layer, and whether the run returns or raises: a
    user layer that is not also given as the shared layer is after the run
    as it was before, and so is every layer other than the shared one. *)
Theorem user_layer_never_written (p : parameters) (w : world G) (h' : nat) :
  SHARED_LAYER p ≠ Some h' →
  layers (processAlgorithm p w).2 !! h' = layers w !! h'.
Proof.
  intros Hne.
  assert (Hkeep : preserves (λ w', layers w' !! h' = layers w !! h')
                    (processAlgorithm p)); [|by apply Hkeep].
  unfold processAlgorithm.
  destruct (SHARED_LAYER p) as [hs|], (USER_LAYER p) as [hu|];
    try apply preserves_raise.
  apply preserves_bind; [apply preserves_layer_fields | intros sf].
  destruct (negb _); [apply preserves_raise|].
  apply preserves_bind; [apply preserves_layer_fields | intros uf].
  destruct (negb _); [apply preserves_raise|].
  apply preserves_bind; [by apply preserves_pushInfo | intros _].
  apply preserves_bind;
    [by apply preserves_analyze_differences | intros [[new modified] report]].
  apply preserves_bind; [by apply preserves_pushInfo | intros _].
  destruct (_ && _); [|apply preserves_ret].
  apply preserves_bind; [by apply preserves_pushInfo | intros _].
  apply preserves_bind; [|intros; apply preserves_ret].
  apply preserves_update; try done.
  intros w' l Hw'. simpl. rewrite lookup_insert_ne; [done|]. congruence.
Qed.

End WholeRunFacts.

Section WholeRunExamples.
#[local] Existing Instance Example.runtime.

(** The run of the example leaves the user layer and the file of another
    dataset alone. *)
Lemma update_touches_one_layer_witness :
  let w' := (update_with_qgis_api_only 0 Example.new_B Example.modified_A "fuuid"
               (Example.world_with [])).2 in
  (∀ h', h' ≠ 0%nat → layers w' !! h' = layers (Example.world_with []) !! h')
  ∧ (∀ path, path ≠ file_path_of (source Example.shared) →
             path ≠ backup_path_of (file_path_of (source Example.shared))
                      (clock (Example.world_with [])) →
             files w' !! path = files (Example.world_with []) !! path)
  ∧ clock w' = clock (Example.world_with [])
  ∧ ∃ l', layers w' !! 0%nat = Some l' ∧ source l' = source Example.shared.
Proof.
  exact (update_touches_one_layer 0 Example.new_B Example.modified_A "fuuid"
           (Example.world_with []) Example.shared eq_refl).
Defined.

(** The run of the example in apply mode. *)
Lemma apply_mode_report_witness :
  let p := Parameters (Some 0%nat) (Some 1%nat) "fuuid" false in
  ∃ report update_report w2,
    processAlgorithm p (Example.world_with [])
    = (inr (report +:+ nl +:+ update_report), w2)
    ∧ update_report
      = Text.join nl ["✅ Aggiunti 1 nuovi record"; "✅ Aggiornati 1 record";
                      success_line].
Proof.
  intros p.
  destruct (apply_mode_report p (Example.world_with [])
              (analyze_differences 0 1 "fuuid"
                 (pushInfo "Inizio analisi delle differenze..."
                    (Example.world_with [])).2).2
              0%nat 1%nat Example.shared Example.user
              Example.new_B Example.modified_A
              (Text.join nl
                 ["=== RAPPORTO AGGIORNAMENTO GEOPACKAGE ===";
                  "Data/Ora: 2024-03-05 09:07:01";
                  "Campo chiave utilizzato: fuuid";
                  "";
                  "🆕 NUOVI RECORD DA INSERIRE: 1";
                  "  - fuuid: B";
                  "";
                  "✏️ RECORD MODIFICATI: 1";
                  "  - fuuid: A";
                  "    name: 'Park' → 'Parco'";
                  ""])
              eq_refl eq_refl eq_refl eq_refl eq_refl eq_refl)
    as (update_report & w2 & Hup & Hrun);
    [vm_compute; reflexivity | reflexivity | reflexivity |].
  eexists _, update_report, w2. split; [exact Hrun|].
  revert Hup. vm_compute. by intros [= <- _].
Defined.

(** The user layer of the example after the run in apply mode. *)
Lemma user_layer_never_written_witness :
  layers (processAlgorithm (Parameters (Some 0%nat) (Some 1%nat) "fuuid" false)
            (Example.world_with [])).2 !! 1%nat
  = Some Example.user.
Proof.
  apply (user_layer_never_written
           (Parameters (Some 0%nat) (Some 1%nat) "fuuid" false)
           (Example.world_with []) 1%nat).
  discriminate.
Defined.

End WholeRunExamples.

(** ** Report Generator *)

Section ReportFacts.
Context {G : Type} `{!Geometry G} {runtime : Runtime}.
Local Open Scope run_scope.

Lemma for_lines_unkeyed (features : list (feature G)) (key_field : string)
    (w : world G) :
  all_keyed key_field features = false →
  for_lines features
    (λ feature, key_value <- feature_get feature key_field ;;
                ret ["  - " +:+ key_field +:+ ": " +:+ py_str key_value]) w
  = (inl (KeyError key_field), w).
Proof.
  induction features as [|f fs IH]; [done|].
  unfold all_keyed. simpl. intros Hk.
  destruct (getitem f key_field) as [v|] eqn:Hv.
  - rewrite (bind_run _ _ w w ["  - " +:+ key_field +:+ ": " +:+ py_str v])
      by (by rewrite (bind_run _ _ _ _ _ (feature_get_run _ _ _ _ Hv))).
    rewrite bool_decide_eq_true_2 in Hk by eauto.
    by rewrite (bind_raise _ _ _ _ _ (IH Hk)).
  - unfold bind, feature_get. by rewrite Hv.
Qed.

Lemma nonempty_length {A} (l l' : list A) :
  length l' = length l → nonempty l' = nonempty l.
Proof. by destruct l, l'. Qed.

(** The report reads the first ten new records and the first ten modified
    entries only.  It is written, with the state as before, when the first
    ten new records have the key field, and raises [KeyError] when one of
    them lacks it, whatever the later records are; and two lists of new
    records of the same length with the same first ten records, with two
    lists of modified entries of the same length with the same first ten
    entries, give the same report. *)
Theorem report_reads_first_ten (new : list (feature G))
    (modified : list (modified_entry G)) (key_field : string) (w : world G) :
  (if nonempty new && negb (all_keyed key_field (slice_to 10 new))
   then generate_report new modified key_field w
        = (inl (KeyError key_field), w)
   else ∃ report, generate_report new modified key_field w = (inr report, w))
  ∧ (∀ new' modified',
       length new' = length new → slice_to 10 new' = slice_to 10 new →
       length modified' = length modified →
       slice_to 10 modified' = slice_to 10 modified →
       generate_report new' modified' key_field w
       = generate_report new modified key_field w).
Proof.
  split.
  - destruct (nonempty new) eqn:En; cbn [andb].
    + destruct (all_keyed key_field (slice_to 10 new)) eqn:Ek; cbn [negb].
      * by apply generate_report_keyed.
      * unfold generate_report, datetime_now. rewrite En.
        rewrite (bind_run _ _ w w (clock w)) by reflexivity.
        pose proof (for_lines_unkeyed _ _ w Ek) as Hl.
        unfold bind in Hl |- *. cbv beta in Hl |- *. by rewrite Hl.
    + unfold generate_report, datetime_now. rewrite En.
      rewrite (bind_run _ _ w w (clock w)) by reflexivity. by eexists.
  - intros new' modified' Hn Hs Hm Hsm. unfold generate_report.
    by rewrite (nonempty_length _ _ Hn), (nonempty_length _ _ Hm), Hn, Hs, Hm, Hsm.
Qed.

End ReportFacts.
